(** * notionapi: inline rich-text parser and HTML converter

    A shallow embedding of the inline-token parser (package [notionapi],
    functions [parseAttribute] .. [parseInlineBlocks]) and of the HTML
    converter (package [tohtml2], type [Converter]) together with the
    properties the specification states about them.

    Conventions of the embedding
    - a Go [string] is a [string] (a sequence of bytes);
    - a Go [int] is a [Z]; lengths and indices that only count are [nat];
    - a decoded JSON value ([interface{}]) is the inductive [JSON];
    - a function returning [(T, error)] returns an [outcome T], which also
      records a run-time panic;
    - the methods of [*Converter] are state transformers over the record
      [Converter]; a panic is the result [None];
    - a block is a tree: [Content] holds blocks, never nil, and the
      [Parent] pointer that the converter sets on its way down is the
      chain of parents handed to the rendering functions;
    - what lies outside the two packages (the katex process, the file
      system, functions of [notionapi] declared in other files, the
      override hook) is a field of the record [Env];
    - logging has no effect on any result and is left out. *)

From Stdlib Require Import String Ascii List ZArith Lia Bool Arith.
From Stdlib Require Import DecimalString.
Import ListNotations.
Open Scope string_scope.

(** ** Results of fallible Go functions *)

(** [Ok v]: the function returned [(v, nil)];
    [Err msg]: it returned a non-nil [error];
    [Panic]: it did not return, the goroutine panicked. *)
Inductive outcome (A : Type) : Type :=
| Ok (v : A)
| Err (msg : string)
| Panic.
Arguments Ok {A} v.
Arguments Err {A} msg.
Arguments Panic {A}.

Definition is_err {A} (r : outcome A) : bool :=
  match r with Err _ => true | _ => false end.

(** ** Decoded JSON values

    What [encoding/json] produces when it decodes into [interface{}]:
    [nil], [bool], [float64], [string], [[]interface{}] and
    [map[string]interface{}].  The parser never looks inside a number, so
    the numeric payload is kept as an integer. *)
#[warnings="-register-all"]
Inductive JSON : Type :=
| JNull
| JBool (b : bool)
| JNum (n : Z)
| JStr (s : string)
| JArr (l : list JSON)
| JObj (m : list (string * JSON)).

Definition isJArr (v : JSON) : bool :=
  match v with JArr _ => true | _ => false end.

Definition isJStr (v : JSON) : bool :=
  match v with JStr _ => true | _ => false end.

(** The [Date] struct is declared outside the files at hand; a value of it
    is what [json.Unmarshal] keeps of the payload object of a [d]
    attribute, so it is represented by the fields it was decoded from. *)
Inductive Date : Type :=
| mkDate (fields : list (string * JSON)).

(** ** The Go library functions the code calls *)
Module GoStrings.

(** The double quote character, [dq], and a quoted string, [q s]. *)
Definition dq : string := String (ascii_of_nat 34) EmptyString.
Definition q (s : string) : string := dq ++ s ++ dq.

(** [%d] of an [int]. *)
Definition itoa (n : Z) : string := NilZero.string_of_int (Z.to_int n).

(** [strings.HasPrefix s p]. *)
Definition HasPrefix (s p : string) : bool := String.prefix p s.

(** [strings.Contains s sub]. *)
Fixpoint Contains (s sub : string) : bool :=
  String.prefix sub s
  || match s with
     | EmptyString => false
     | String _ rest => Contains rest sub
     end.

(** [strings.Replace s old new (-1)] for a non-empty [old]: every
    non-overlapping occurrence, leftmost first.  [skip] counts the bytes of
    a matched occurrence that are still to be dropped. *)
Fixpoint Replace_from (old new : string) (skip : nat) (s : string) : string :=
  match s with
  | EmptyString => EmptyString
  | String ch rest =>
    match skip with
    | S k => Replace_from old new k rest
    | O =>
      if String.prefix old s
      then new ++ Replace_from old new (String.length old - 1) rest
      else String ch (Replace_from old new 0 rest)
    end
  end.

Definition Replace (s old new : string) : string := Replace_from old new 0 s.

(** [strings.Split s sep] for a non-empty [sep]; [cur] is the piece being
    collected. *)
Fixpoint Split_from (sep : string) (skip : nat) (cur s : string)
  : list string :=
  match s with
  | EmptyString => [cur]
  | String ch rest =>
    match skip with
    | S k => Split_from sep k cur rest
    | O =>
      if String.prefix sep s
      then cur :: Split_from sep (String.length sep - 1) EmptyString rest
      else Split_from sep 0 (cur ++ String ch EmptyString) rest
    end
  end.

Definition Split (s sep : string) : list string :=
  Split_from sep 0 EmptyString s.

(** [strings.TrimLeft s " "] and [strings.TrimRight s " "]. *)
Fixpoint TrimLeftSpace (s : string) : string :=
  match s with
  | String " " rest => TrimLeftSpace rest
  | _ => s
  end.

Fixpoint TrimRightSpace (s : string) : string :=
  match s with
  | EmptyString => EmptyString
  | String ch rest =>
    match TrimRightSpace rest with
    | EmptyString => if Ascii.eqb ch " " then EmptyString
                     else String ch EmptyString
    | r => String ch r
    end
  end.

(** [html.EscapeString]: the five replacements of the standard escaper. *)
Definition escapeByte (ch : ascii) : string :=
  if Ascii.eqb ch "&" then "&amp;"
  else if Ascii.eqb ch "'" then "&#39;"
  else if Ascii.eqb ch "<" then "&lt;"
  else if Ascii.eqb ch ">" then "&gt;"
  else if Ascii.eqb ch (ascii_of_nat 34) then "&#34;"
  else String ch EmptyString.

Fixpoint html_EscapeString (s : string) : string :=
  match s with
  | EmptyString => EmptyString
  | String ch rest => escapeByte ch ++ html_EscapeString rest
  end.

(** Concatenation of a list of strings. *)
Fixpoint concat (l : list string) : string :=
  match l with
  | [] => EmptyString
  | s :: rest => s ++ concat rest
  end.

End GoStrings.

Module Inline.

(** *** Attribute flags ([AttrFlag], [1 << iota]) *)
Definition AttrBold : Z := Z.shiftl 1 0.
Definition AttrCode : Z := Z.shiftl 1 1.
Definition AttrItalic : Z := Z.shiftl 1 2.
Definition AttrStrikeThrought : Z := Z.shiftl 1 3.
Definition AttrComment : Z := Z.shiftl 1 4.

Section Parser.

(** [unmarshalDate] stands for the round trip [json.MarshalIndent] then
    [json.Unmarshal] into a [Date]; [None] is a decoding error of either
    step. *)
Variable unmarshalDate : list (string * JSON) -> option Date.

Record InlineBlock : Type := mkInlineBlock {
  Text : string;
  AttrFlags : Z;
  Link : string;
  UserID : string;
  CommentID : string;
  Date_ : option Date
}.

Definition newInlineBlock (s : string) : InlineBlock :=
  mkInlineBlock s 0 "" "" "" None.

Definition orFlag (b : InlineBlock) (f : Z) : InlineBlock :=
  mkInlineBlock (Text b) (Z.lor (AttrFlags b) f) (Link b) (UserID b)
                (CommentID b) (Date_ b).
Definition setLink (b : InlineBlock) (v : string) : InlineBlock :=
  mkInlineBlock (Text b) (AttrFlags b) v (UserID b) (CommentID b) (Date_ b).
Definition setUserID (b : InlineBlock) (v : string) : InlineBlock :=
  mkInlineBlock (Text b) (AttrFlags b) (Link b) v (CommentID b) (Date_ b).
Definition setCommentID (b : InlineBlock) (v : string) : InlineBlock :=
  mkInlineBlock (Text b) (AttrFlags b) (Link b) (UserID b) v (Date_ b).
Definition setDate (b : InlineBlock) (d : Date) : InlineBlock :=
  mkInlineBlock (Text b) (AttrFlags b) (Link b) (UserID b) (CommentID b)
                (Some d).

(** [IsPlain]: no flags, no link, no user, no date. *)
Definition IsPlain (b : InlineBlock) : bool :=
  (AttrFlags b =? 0)%Z && (Link b =? "") && (UserID b =? "")
  && match Date_ b with None => true | Some _ => false end.

(** [parseAttribute b a]: [a] is one attribute tuple; the block is updated in
    place, so the result carries the updated block. *)
Definition parseAttribute (b : InlineBlock) (a : list JSON)
  : outcome InlineBlock :=
  match a with
  | [] => Err "attribute array is empty"
  | a0 :: rest =>
    match a0 with
    | JStr s =>
      match rest with
      | [] =>
        (* len(a) == 1 *)
        if s =? "b" then Ok (orFlag b AttrBold)
        else if s =? "i" then Ok (orFlag b AttrItalic)
        else if s =? "s" then Ok (orFlag b AttrStrikeThrought)
        else if s =? "c" then Ok (orFlag b AttrCode)
        else Err ("unexpected attribute '" ++ s ++ "'")
      | [a1] =>
        (* len(a) == 2 *)
        if (s =? "a") || (s =? "u") || (s =? "m") then
          match a1 with
          | JStr v =>
            if s =? "a" then Ok (setLink b v)
            else if s =? "u" then Ok (setUserID b v)
            else if s =? "m" then Ok (setCommentID b v)
            else Panic
          | _ => Err "value for 'a' attribute is not string"
          end
        else if s =? "d" then
          (* v := a[1].(map[string]interface{}), an unchecked assertion *)
          match a1 with
          | JObj v =>
            match unmarshalDate v with
            | Some d => Ok (setDate b d)
            | None => Panic
            end
          | _ => Panic
          end
        else Err ("unexpected attribute '" ++ s ++ "'")
      | _ :: _ :: _ => Err "len(a) should be 2"
      end
    | _ => Err "a[0] is not string"
    end
  end.

Fixpoint parseAttributes (b : InlineBlock) (a : list JSON)
  : outcome InlineBlock :=
  match a with
  | [] => Ok b
  | rawAttr :: rest =>
    match rawAttr with
    | JArr attrList =>
      match parseAttribute b attrList with
      | Ok b' => parseAttributes b' rest
      | Err e => Err e
      | Panic => Panic
      end
    | _ => Err "rawAttr is not []interface{}"
    end
  end.

Definition parseInlineBlock (a : list JSON) : outcome InlineBlock :=
  match a with
  | [] => Err "a is empty"
  | [a0] =>
    match a0 with
    | JStr s => Ok (newInlineBlock s)
    | _ => Err "a is of length 1 but not string"
    end
  | [a0; a1] =>
    match a0 with
    | JStr s =>
      match a1 with
      | JArr attrs => parseAttributes (newInlineBlock s) attrs
      | _ =>
        (* [a, ok = a[1].([]interface{})] has set [a] to nil when the
           assertion fails, so the [a[1]] among the arguments of the
           error message is out of range: the function panics before it
           can return the error *)
        Panic
      end
    | _ => Err "a[0] is not string"
    end
  | _ :: _ :: _ :: _ => Err "a is of length != 2"
  end.

(** The loop of [parseInlineBlocks]: [res] is the slice built so far. *)
Fixpoint parseInlineBlocks_loop (res : list InlineBlock) (a : list JSON)
  : outcome (list InlineBlock) :=
  match a with
  | [] => Ok res
  | v :: rest =>
    match v with
    | JArr a2 =>
      match parseInlineBlock a2 with
      | Ok block => parseInlineBlocks_loop (res ++ [block]) rest
      | Err e => Err e
      | Panic => Panic
      end
    | _ => Err "v is not []interface{}"
    end
  end.

Definition parseInlineBlocks (raw : JSON) : outcome (list InlineBlock) :=
  match raw with
  | JArr a =>
    match a with
    | [] => Err "raw is empty"
    | _ :: _ => parseInlineBlocks_loop [] a
    end
  | _ => Err "raw is not of []interface{}"
  end.

End Parser.

End Inline.


(** ** The document model of package [notionapi]

    Modelled from the spec: the declarations of [TextSpan], [Block],
    [Collection], [CollectionView] and [Page] are not among the files at
    hand; the converter only reads them.  Each record has the fields and
    accessors the converter uses, under the names it uses. *)
Module Notionapi.

(** Block type tags (the [Block...] string constants). *)
Definition BlockAudio := "audio".
Definition BlockBookmark := "bookmark".
Definition BlockBreadcrumb := "breadcrumb".
Definition BlockBulletedList := "bulleted_list".
Definition BlockCode := "code".
Definition BlockCodepen := "codepen".
Definition BlockCallout := "callout".
Definition BlockColumn := "column".
Definition BlockColumnList := "column_list".
Definition BlockCollectionView := "collection_view".
Definition BlockCollectionViewPage := "collection_view_page".
Definition BlockDivider := "divider".
Definition BlockDrive := "drive".
Definition BlockEmbed := "embed".
Definition BlockEquation := "equation".
Definition BlockFactory := "factory".
Definition BlockFigma := "figma".
Definition BlockFile := "file".
Definition BlockGist := "gist".
Definition BlockHeader := "header".
Definition BlockImage := "image".
Definition BlockMaps := "maps".
Definition BlockNumberedList := "numbered_list".
Definition BlockPDF := "pdf".
Definition BlockPage := "page".
Definition BlockQuote := "quote".
Definition BlockSubHeader := "sub_header".
Definition BlockSubSubHeader := "sub_sub_header".
Definition BlockTableOfContents := "table_of_contents".
Definition BlockText := "text".
Definition BlockTodo := "to_do".
Definition BlockToggle := "toggle".
Definition BlockTweet := "tweet".
Definition BlockVideo := "video".

(** An attribute of a span: a tagged variant, some tags with a payload.
    [AttrGetType] is the tag, [AttrGetLink] and the like the payload. *)
Inductive TextAttr : Type :=
| AttrBold
| AttrItalic
| AttrStrikeThrought
| AttrCode
| AttrLink (uri : string)
| AttrUser (userID : string)
| AttrDate (date : Date)
| AttrComment (commentID : string)
| AttrPage (pageID : string)
| AttrHighlight (color : string).

Record TextSpan : Type := mkTextSpan {
  Text : string;
  Attrs : list TextAttr
}.

Record ColumnSchema : Type := mkColumnSchema {
  ColName : string;   (* colInfo.Name *)
  ColType : string    (* colInfo.Type *)
}.

Record TableProperty : Type := mkTableProperty {
  Property : string
}.

Record FormatTable : Type := mkFormatTable {
  TableProperties : list TableProperty
}.

Record CollectionView : Type := mkCollectionView {
  Format : option FormatTable   (* view.Format, nil when absent *)
}.

Record Collection : Type := mkCollection {
  CollectionName : string;      (* col.Name() *)
  Icon : string;
  CollectionSchema : list (string * ColumnSchema)
}.

Record CollectionViewInfo (B : Type) : Type := mkCollectionViewInfo {
  CollectionView_ : CollectionView;
  Collection_ : Collection;
  CollectionRows : list B
}.
Arguments mkCollectionViewInfo {B}.
Arguments CollectionView_ {B}.
Arguments Collection_ {B}.
Arguments CollectionRows {B}.

Record FormatPageT : Type := mkFormatPage {
  (* fmt %v of (1 - PageCoverPosition) * 100; the float64 arithmetic is
     kept outside the model *)
  PageCoverPositionPct : string;
  PageFont : string
}.

Record FormatImageT : Type := mkFormatImage {
  BlockWidthIsZero : bool;   (* f.BlockWidth == 0 *)
  BlockWidthInt : Z          (* int(f.BlockWidth) *)
}.

(** A block.  [Parent] is not a field: the converter sets it while it
    walks down ([child.Parent = block]), so the chain of parents of the
    block being rendered is an argument of the rendering functions. *)
#[warnings="-register-all"]
Inductive Block : Type := mkBlock {
  ID : string;
  Type_ : string;
  Content : list Block;
  Title : string;
  InlineContent : list TextSpan;
  Code : string;
  Source : string;
  Link : string;
  FileIDs : list string;
  IsChecked : bool;
  CollectionID : string;
  CollectionViews : list (CollectionViewInfo Block);
  Properties : list (string * JSON);
  (* block.PropAsString(key) reads Props *)
  Props : list (string * string);
  FormatPage : option FormatPageT;
  (* fmt %v of ColumnRatio * 100 *)
  FormatColumnPct : option string;
  FormatImage : option FormatImageT;
  GetCaption : option (list TextSpan);
  GetTitle : list TextSpan
}.

Fixpoint lookup {A : Type} (m : list (string * A)) (k : string) : option A :=
  match m with
  | [] => None
  | (k', v) :: rest => if k' =? k then Some v else lookup rest k
  end.

(** [block.PropAsString(key)]: the value and whether it is there. *)
Definition PropAsString (b : Block) (key : string) : string * bool :=
  match lookup (Props b) key with
  | Some v => (v, true)
  | None => ("", false)
  end.

Record Page : Type := mkPage {
  PageID : string;
  Root : Block;
  BlockByID : string -> option Block;
  CollectionByID : string -> option Collection;
  IsRoot : Block -> bool;
  IsSubPage : Block -> bool;
  NotionURL : string
}.

End Notionapi.

(** ** Package [tohtml2]: the converter *)
Module Tohtml2.
Import GoStrings Notionapi.

(** *** File names and paths *)

Definition isSafeChar (r : ascii) : bool :=
  let n := nat_of_ascii r in
  if ((48 <=? n) && (n <=? 57))%nat then true
  else if ((97 <=? n) && (n <=? 122))%nat then true
  else if ((65 <=? n) && (n <=? 90))%nat then true
  else false.

(** The first loop of [safeName].  It ranges over runes; a rune outside
    ASCII is never safe and becomes a space, and so does each of its bytes
    here: the runs of spaces are collapsed right after. *)
Fixpoint safeName_chars (s : string) : string :=
  match s with
  | EmptyString => EmptyString
  | String r rest =>
    (if isSafeChar r then String r EmptyString else " ")
    ++ safeName_chars rest
  end.

(** [for strings.Contains(res, old) { res = strings.Replace(res, old, new, -1) }];
    every round shortens [res], so [String.length res] rounds are enough. *)
Fixpoint replaceWhileContains (fuel : nat) (res old new : string) : string :=
  match fuel with
  | O => res
  | S fuel' =>
    if Contains res old
    then replaceWhileContains fuel' (Replace res old new) old new
    else res
  end.

Definition safeName (s : string) : string :=
  let res := safeName_chars s in
  let res := replaceWhileContains (String.length res) res "  " " " in
  let res := TrimLeftSpace res in
  TrimRightSpace res.

Definition fileNameFromPageCoverURL (uri : string) : string :=
  List.last (Split uri "/") EmptyString.

Definition urlBaseName (uri : string) : string :=
  List.last (Split uri "/") EmptyString.

(** [for block.Parent != nil { block = block.Parent; ... }] over the chain
    of parents, nearest first: the titles of the enclosing pages are put in
    front of [name]. *)
Fixpoint prependPageTitles (parents : list Block) (name : string) : string :=
  match parents with
  | [] => name
  | p :: rest =>
    if Type_ p =? BlockPage
    then prependPageTitles rest (safeName (Title p) ++ "/" ++ name)
    else prependPageTitles rest name
  end.

Definition filePathForPage (parents : list Block) (block : Block) : string :=
  prependPageTitles parents (safeName (Title block) ++ ".html").

Definition filePathForCollection (page : Page) (col : Collection) : string :=
  let name := safeName (CollectionName col) ++ ".html" in
  safeName (Title (Root page)) ++ "/" ++ name.

(** [block] is the collection view being rendered, [parents] its chain. *)
Definition getTitleColDownloadedURL (row : Block) (parents : list Block)
           (col : Collection) : string :=
  let title :=
    match GetTitle row with
    | [] => EmptyString
    | span :: _ => Text span
    end in
  let title := if title =? "" then "Untitled" else title in
  let name := safeName title ++ ".html" in
  let colName := CollectionName col in
  let colName := if colName =? "" then "Untitled Database" else colName in
  let name := safeName colName ++ "/" ++ name in
  prependPageTitles parents name.

Definition getCollectionDownloadedFileName (page : Page) (col : Collection)
           (uri : string) : string :=
  let name := urlBaseName uri in
  let name := safeName (CollectionName col) ++ "/" ++ name in
  safeName (Title (Root page)) ++ "/" ++ name.

Definition getDownloadedFileName (uri : string) (parents : list Block)
           (block : Block) : string :=
  let shouldDownload :=
    HasPrefix uri
      "https://s3-us-west-2.amazonaws.com/secure.notion-static.com/" in
  if negb shouldDownload then uri
  else
    let name := urlBaseName uri in
    let name :=
      if Type_ block =? BlockFile then name
      else safeName (Title block) ++ "/" ++ name in
    let name := prependPageTitles parents name in
    replaceWhileContains (String.length name) name "//" "/".

Definition getFileOrSourceURL (parents : list Block) (block : Block)
  : string :=
  match FileIDs block with
  | _ :: _ => getDownloadedFileName (Source block) parents block
  | [] => Source block
  end.

Definition htmlFileName (title : string) : string :=
  safeName title ++ ".html".

Definition HTMLFileNameForPage (page : Page) : string :=
  htmlFileName (Title (Root page)).

(** [EscapeHTML]: the standard escaping, then the two entities are
    rewritten the way Notion writes them. *)
Definition EscapeHTML (s : string) : string :=
  let s := html_EscapeString s in
  let s := Replace s "&#39;" "&#x27;" in
  Replace s "&#34;" "&quot;".

Definition isURL (uri : string) : bool :=
  if HasPrefix uri "http://" then true
  else if HasPrefix uri "https://" then true
  else false.

Definition getBlockColorClass (block : Block) : string :=
  let col := fst (PropAsString block "format.block_color") in
  if col =? "" then "" else "block-color-" ++ col.

Definition isHeaderBlock (block : Block) : bool :=
  (Type_ block =? BlockHeader) || (Type_ block =? BlockSubHeader)
  || (Type_ block =? BlockSubSubHeader).

(** [getHeaderBlocks]: the header blocks of a forest, in document order.
    A header's own children are not searched. *)
Fixpoint getHeaderBlocks_block (b : Block) : list Block :=
  if isHeaderBlock b then [b]
  else
    (fix go (l : list Block) : list Block :=
       match l with
       | [] => []
       | c :: rest => (getHeaderBlocks_block c ++ go rest)%list
       end) (Content b).

Fixpoint getHeaderBlocks (blocks : list Block) : list Block :=
  match blocks with
  | [] => []
  | b :: rest => (getHeaderBlocks_block b ++ getHeaderBlocks rest)%list
  end.

Definition cmpBlockTypes (prev curr : string) : Z :=
  if prev =? curr then 0%Z
  else if prev =? BlockHeader then 1%Z
  else if prev =? BlockSubHeader then
    if curr =? BlockHeader then (-1)%Z else 1%Z
  else if prev =? BlockSubSubHeader then (-1)%Z
  else 0%Z.

(** [adjustIndent blocks i]; the indices are in range where it is called. *)
Definition adjustIndent (blocks : list Block) (i : nat) : Z :=
  match i with
  | O => 0%Z
  | S i' =>
    match nth_error blocks i', nth_error blocks i with
    | Some prev, Some curr => cmpBlockTypes (Type_ prev) (Type_ curr)
    | _, _ => 0%Z
    end
  end.

(** *** The converter and what it is configured with *)

(** The fields of [Converter] that rendering reads or writes.  [Buf] is a
    pointer in the source, [None] is the nil pointer of a converter that
    has not pushed a buffer yet; [bufs] is the stack of the buffers set
    aside, the most recent last.  The override hook is part of [Env]
    below, since it is a function of the converter itself. *)
Record Converter : Type := mkConverter {
  Buf : option string;
  Page_ : Page;
  ListNo : Z;
  NotionCompat : bool;
  UseKatexToRenderEquation : bool;
  KatexPath : string;
  AddHeaderAnchor : bool;
  RewriteURL : option (string -> string);
  FullHTML : bool;
  CurrBlocks : list Block;
  CurrBlockIdx : nat;
  didImportKatexCSS : bool;
  bufs : list (option string)
}.

Definition NewConverter (page : Page) : Converter :=
  mkConverter None page 0 false false "" false None false [] 0 false [].

Definition setBuf (c : Converter) (v : option string) : Converter :=
  mkConverter v (Page_ c) (ListNo c) (NotionCompat c)
    (UseKatexToRenderEquation c) (KatexPath c) (AddHeaderAnchor c)
    (RewriteURL c) (FullHTML c) (CurrBlocks c) (CurrBlockIdx c)
    (didImportKatexCSS c) (bufs c).
Definition setListNo (c : Converter) (v : Z) : Converter :=
  mkConverter (Buf c) (Page_ c) v (NotionCompat c)
    (UseKatexToRenderEquation c) (KatexPath c) (AddHeaderAnchor c)
    (RewriteURL c) (FullHTML c) (CurrBlocks c) (CurrBlockIdx c)
    (didImportKatexCSS c) (bufs c).
Definition setUseKatexToRenderEquation (c : Converter) (v : bool)
  : Converter :=
  mkConverter (Buf c) (Page_ c) (ListNo c) (NotionCompat c)
    v (KatexPath c) (AddHeaderAnchor c)
    (RewriteURL c) (FullHTML c) (CurrBlocks c) (CurrBlockIdx c)
    (didImportKatexCSS c) (bufs c).
Definition setKatexPath (c : Converter) (v : string) : Converter :=
  mkConverter (Buf c) (Page_ c) (ListNo c) (NotionCompat c)
    (UseKatexToRenderEquation c) v (AddHeaderAnchor c)
    (RewriteURL c) (FullHTML c) (CurrBlocks c) (CurrBlockIdx c)
    (didImportKatexCSS c) (bufs c).
Definition setCurrBlocks (c : Converter) (v : list Block) : Converter :=
  mkConverter (Buf c) (Page_ c) (ListNo c) (NotionCompat c)
    (UseKatexToRenderEquation c) (KatexPath c) (AddHeaderAnchor c)
    (RewriteURL c) (FullHTML c) v (CurrBlockIdx c)
    (didImportKatexCSS c) (bufs c).
Definition setCurrBlockIdx (c : Converter) (v : nat) : Converter :=
  mkConverter (Buf c) (Page_ c) (ListNo c) (NotionCompat c)
    (UseKatexToRenderEquation c) (KatexPath c) (AddHeaderAnchor c)
    (RewriteURL c) (FullHTML c) (CurrBlocks c) v
    (didImportKatexCSS c) (bufs c).
Definition setDidImportKatexCSS (c : Converter) (v : bool) : Converter :=
  mkConverter (Buf c) (Page_ c) (ListNo c) (NotionCompat c)
    (UseKatexToRenderEquation c) (KatexPath c) (AddHeaderAnchor c)
    (RewriteURL c) (FullHTML c) (CurrBlocks c) (CurrBlockIdx c)
    v (bufs c).
Definition setBufs (c : Converter) (v : list (option string)) : Converter :=
  mkConverter (Buf c) (Page_ c) (ListNo c) (NotionCompat c)
    (UseKatexToRenderEquation c) (KatexPath c) (AddHeaderAnchor c)
    (RewriteURL c) (FullHTML c) (CurrBlocks c) (CurrBlockIdx c)
    (didImportKatexCSS c) v.

(** What the converter calls outside of its own file: functions of package
    [notionapi] that are not among the files at hand, the operating
    system, and the hook the caller installs. *)
Record Env : Type := mkEnv {
  (* notionapi.ToNoDashID *)
  ToNoDashID : string -> string;
  (* notionapi.ResolveUser *)
  ResolveUser : Page -> string -> string;
  (* notionapi.FormatDate *)
  notionapi_FormatDate : Date -> string;
  (* notionapi.TextSpansToString *)
  TextSpansToString : list TextSpan -> string;
  (* notionapi.ParseTextSpans, of a raw property value *)
  ParseTextSpans : JSON -> outcome (list TextSpan);
  (* notionapi.MaybePanic panics when this is set, and only logs otherwise *)
  PanicOnFailures : bool;
  (* the run of the katex process on an equation: its standard output when
     it starts, takes the input and exits with status 0, the error of the
     failing step otherwise *)
  katex : string -> string -> outcome string;
  (* os.Stat succeeds *)
  os_Stat : string -> bool;
  (* exec.LookPath *)
  exec_LookPath : string -> option string;
  (* path.Join of two elements *)
  path_Join : string -> string -> string;
  (* strings.TrimSpace *)
  strings_TrimSpace : string -> string;
  (* the style sheet constant CSS *)
  CSS : string;
  (* c.RenderBlockOverride: given the chain of parents and the block, it
     may use the converter and says whether it handled the block; None in
     the result is a panic *)
  RenderBlockOverride :
    option (list Block -> Block -> Converter -> option (bool * Converter))
}.

(** A command on the converter: the new state, or [None] for a panic. *)
Definition Cmd : Type := Converter -> option Converter.

Definition skip : Cmd := fun c => Some c.

Definition andThen (f g : Cmd) : Cmd :=
  fun c => match f c with
           | Some c' => g c'
           | None => None
           end.

Declare Scope cmd_scope.
Delimit Scope cmd_scope with cmd.
Bind Scope cmd_scope with Cmd.
Notation "f ;; g" := (andThen f g)
  (at level 61, right associativity) : cmd_scope.
Open Scope cmd_scope.

(** [PushNewBuffer] *)
Definition PushNewBuffer : Cmd :=
  fun c => Some (setBuf (setBufs c (bufs c ++ [Buf c])%list)
                        (Some EmptyString)).

(** [PopBuffer]: the buffer that was current; [c.bufs[n-1]] panics on an
    empty stack. *)
Definition PopBuffer (c : Converter) : option (option string * Converter) :=
  match rev (bufs c) with
  | [] => None
  | top :: _ =>
    Some (Buf c, setBufs (setBuf c top) (removelast (bufs c)))
  end.

(** [Printf] with the formatted string; writing through a nil [Buf]
    panics. *)
Definition Printf (s : string) : Cmd :=
  fun c => match Buf c with
           | Some b => Some (setBuf c (Some (b ++ s)))
           | None => None
           end.

(** [maybePanic] *)
Definition maybePanic (E : Env) : Cmd :=
  fun c => if PanicOnFailures E then None else Some c.

(** A nil pointer dereference or an index out of range. *)
Definition panic : Cmd := fun _ => None.

Section Rendering.

Variable E : Env.

Definition filePathFromPageCoverURL (uri : string) (block : Block) : string :=
  if HasPrefix uri "https://cdn.dutchcowboys.nl/uploads" then uri
  else if HasPrefix uri "https://images.unsplash.com" then uri
  else if HasPrefix uri "https://www.notion.so/images/" then uri
  else if HasPrefix uri "/images/page-cover/"
       then "https://www.notion.so" ++ uri
  else
    let fileName := fileNameFromPageCoverURL uri in
    let dir := safeName (Title block) in
    path_Join E dir fileName.

(** [A] writes an [<a></a>] element. *)
Definition A (uri text cls : string) : Cmd :=
  let uri := EscapeHTML uri in
  let text := EscapeHTML text in
  let cls := if cls =? "" then cls else " class=" ++ q cls in
  if uri =? "" then Printf ("<a" ++ cls ++ ">" ++ text ++ "</a>")
  else Printf ("<a" ++ cls ++ " href=" ++ q uri ++ ">" ++ text ++ "</a>").

(** [PrevBlock]: the outer [None] is the panic of an index out of range,
    the inner one the nil result. *)
Definition PrevBlock (c : Converter) : option (option Block) :=
  match CurrBlockIdx c with
  | O => Some None
  | S i =>
    match nth_error (CurrBlocks c) i with
    | Some b => Some (Some b)
    | None => None
    end
  end.

Definition NextBlock (c : Converter) : option Block :=
  let nextIdx := (Z.of_nat (CurrBlockIdx c) + 1)%Z in
  let lastIdx := (Z.of_nat (List.length (CurrBlocks c)) - 1)%Z in
  if (nextIdx >? lastIdx)%Z then None
  else nth_error (CurrBlocks c) (CurrBlockIdx c + 1).

Definition IsPrevBlockOfType (c : Converter) (t : string) : option bool :=
  match PrevBlock c with
  | None => None
  | Some None => Some false
  | Some (Some b) => Some (Type_ b =? t)
  end.

Definition IsNextBlockOfType (c : Converter) (t : string) : bool :=
  match NextBlock c with
  | None => false
  | Some b => Type_ b =? t
  end.

Definition FormatDate (d : Date) : string :=
  "<time>@" ++ notionapi_FormatDate E d ++ "</time>".

(** One round of the loop of [RenderInline]: the state is
    [(start, close, text)]. *)
Definition applyAttr (c : Converter) (st : string * string * string)
           (attr : TextAttr) : string * string * string :=
  let '(start, close, text) := st in
  match attr with
  | AttrHighlight hl =>
    (start ++ "<mark class=" ++ q ("highlight-" ++ hl) ++ ">",
     "</mark>" ++ close, text)
  | AttrBold => (start ++ "<strong>", "</strong>" ++ close, text)
  | AttrItalic => (start ++ "<em>", "</em>" ++ close, text)
  | AttrStrikeThrought => (start ++ "<del>", "</del>" ++ close, text)
  | AttrCode => (start ++ "<code>", "</code>" ++ close, text)
  | AttrPage pageID =>
    let relURL := ToNoDashID E pageID in
    let pageTitle :=
      match BlockByID (Page_ c) pageID with
      | Some block => Title block
      | None => EmptyString
      end in
    let relURL :=
      if pageTitle =? "" then relURL
      else
        let urlName := safeName pageTitle in
        let urlName := Replace urlName " " "-" in
        urlName ++ "-" ++ relURL in
    let uri := "https://www.notion.so/" ++ relURL in
    let uri := match RewriteURL c with
               | Some f => f uri
               | None => uri
               end in
    (start ++ "<a href=" ++ q uri ++ ">" ++ EscapeHTML pageTitle ++ "</a>",
     close, EmptyString)
  | AttrLink uri =>
    let uri := match RewriteURL c with
               | Some f => f uri
               | None => uri
               end in
    if uri =? ""
    then (start ++ "<a>", "</a>" ++ close, text)
    else (start ++ "<a href=" ++ q (EscapeHTML uri) ++ ">",
          "</a>" ++ close, text)
  | AttrUser userID =>
    let userName := ResolveUser E (Page_ c) userID in
    (start ++ "<span class=" ++ q "user" ++ ">@" ++ userName ++ "</span>",
     close, EmptyString)
  | AttrDate date => (start ++ FormatDate date, close, EmptyString)
  | AttrComment _ => st
  end.

(** [for i := range b.Attrs { attr := b.Attrs[len(b.Attrs)-i-1]; ... }].
    The index is always in range. *)
Definition RenderInline_loop (c : Converter) (attrs : list TextAttr)
           (text : string) : string * string * string :=
  fold_left
    (fun st i =>
       match nth_error attrs (List.length attrs - i - 1) with
       | Some attr => applyAttr c st attr
       | None => st
       end)
    (seq 0 (List.length attrs))
    (EmptyString, EmptyString, text).

(** What [RenderInline] hands to [Printf]. *)
Definition RenderInline_html (c : Converter) (b : TextSpan) : string :=
  let '(start, close, text) := RenderInline_loop c (Attrs b) (Text b) in
  start ++ EscapeHTML text ++ close.

Definition RenderInline (b : TextSpan) : Cmd :=
  fun c => Printf (RenderInline_html c b) c.

Fixpoint RenderInlines (blocks : list TextSpan) : Cmd :=
  match blocks with
  | [] => skip
  | block :: rest => RenderInline block ;; RenderInlines rest
  end.

(** [GetInlineContent]: the rendering of the spans as a string. *)
Definition GetInlineContent (blocks : list TextSpan) (c : Converter)
  : option (string * Converter) :=
  match blocks with
  | [] => Some (EmptyString, c)
  | _ :: _ =>
    match (PushNewBuffer ;; RenderInlines blocks) c with
    | None => None
    | Some c1 =>
      match PopBuffer c1 with
      | Some (Some s, c2) => Some (s, c2)
      | Some (None, c2) => Some ("<nil>", c2)
      | None => None
      end
    end
  end.

Definition RenderCode (block : Block) : Cmd :=
  Printf ("<pre id=" ++ q (ID block) ++ " class=" ++ q "code" ++ ">") ;;
  Printf ("<code>" ++ EscapeHTML (Code block) ++ "</code>") ;;
  Printf "</pre>".

Definition renderHeader (parents : list Block) (block : Block) : Cmd :=
  Printf "<header>" ;;
  (let formatPage := FormatPage block in
   let pageCover := fst (PropAsString block "format.page_cover") in
   (if pageCover =? "" then skip
    else
      match formatPage with
      | None => panic        (* formatPage.PageCoverPosition on nil *)
      | Some fp =>
        let position := PageCoverPositionPct fp in
        let coverURL := filePathFromPageCoverURL pageCover block in
        let coverURL := EscapeHTML coverURL in
        Printf ("<img class=" ++ q "page-cover-image" ++ " src="
                ++ q coverURL ++ " style="
                ++ q ("object-position:center " ++ position ++ "%")
                ++ "/>")
      end) ;;
   (let pageIcon := fst (PropAsString block "format.page_icon") in
    if pageIcon =? "" then skip
    else
      let clsCover :=
        if pageCover =? "" then "undefined"
        else "page-header-icon-with-cover" in
      Printf ("<div class=" ++ q ("page-header-icon " ++ clsCover) ++ ">") ;;
      (if isURL pageIcon
       then
         let fileName := getDownloadedFileName pageIcon parents block in
         Printf ("<img class=" ++ q "icon" ++ " src=" ++ q fileName ++ "/>")
       else
         Printf ("<span class=" ++ q "icon" ++ ">" ++ pageIcon ++ "</span>")) ;;
      Printf "</div>") ;;
   Printf ("<h1 class=" ++ q "page-title" ++ ">") ;;
   RenderInlines (InlineContent block) ;;
   Printf "</h1>") ;;
  Printf "</header>".

Definition RenderCollectionViewPage (block : Block) : Cmd :=
  fun c =>
    let colID := CollectionID block in
    match CollectionByID (Page_ c) colID with
    | None => None           (* col.Icon on nil *)
    | Some col =>
      let icon := Icon col in
      let name := CollectionName col in
      (Printf ("<figure id=" ++ q (ID block) ++ " class="
               ++ q "link-to-page" ++ ">") ;;
       (let filePath := filePathForCollection (Page_ c) col in
        Printf ("<a href=" ++ q filePath ++ ">") ;;
        (let uri := getCollectionDownloadedFileName (Page_ c) col icon in
         Printf ("<img class=" ++ q "icon" ++ " src=" ++ q uri ++ "/>")) ;;
        Printf (name ++ "</a>")) ;;
       Printf "</figure>") c
    end.

(** [cleanAttr]: the loop stops at the first round that changes nothing;
    a round that changes the string shortens it. *)
Fixpoint cleanAttr_loop (fuel : nat) (v : string) : string :=
  match fuel with
  | O => v
  | S fuel' =>
    let s := Replace v "  " " " in
    if s =? v then v else cleanAttr_loop fuel' s
  end.

Definition cleanAttr (v : string) : string :=
  let v := strings_TrimSpace E v in
  cleanAttr_loop (String.length v) v.

Definition renderLinkToPage (parents : list Block) (block : Block) : Cmd :=
  let uri := filePathForPage parents block in
  let cls := getBlockColorClass block ++ " link-to-page" in
  let cls := cleanAttr cls in
  Printf ("<figure id=" ++ q (ID block) ++ " class=" ++ q cls ++ ">") ;;
  (Printf ("<a href=" ++ q uri ++ ">") ;;
   (let '(pageIcon, ok) := PropAsString block "format.page_icon" in
    if ok then
      if isURL pageIcon
      then
        let fileName := getDownloadedFileName pageIcon parents block in
        Printf ("<img class=" ++ q "icon" ++ " src=" ++ q fileName ++ "/>")
      else
        Printf ("<span class=" ++ q "icon" ++ ">" ++ pageIcon ++ "</span>")
    else skip) ;;
   Printf (EscapeHTML (Title block)) ;;
   Printf "</a>") ;;
  Printf "</figure>".

Definition renderSubPage (parents : list Block) (block : Block) : Cmd :=
  renderLinkToPage parents block.

Definition getImageStyle (block : Block) : string :=
  match FormatImage block with
  | None => EmptyString
  | Some f =>
    if BlockWidthIsZero f then EmptyString
    else "style=" ++ q ("width:" ++ itoa (BlockWidthInt f) ++ "px") ++ " "
  end.

Definition equationToHTML (katexPath equation : string) : outcome string :=
  katex E katexPath equation.

Definition RenderEquation (block : Block) : Cmd :=
  fun c =>
    if negb (UseKatexToRenderEquation c) then
      (Printf ("<figure id=" ++ q (ID block) ++ " class="
               ++ q "equation" ++ ">") ;;
       RenderInlines (InlineContent block) ;;
       Printf "</figure>") c
    else
      let ts := InlineContent block in
      let s := TextSpansToString E ts in
      match equationToHTML (KatexPath c) s with
      | Panic => None
      | Err _ =>
        (Printf ("<figure id=" ++ q (ID block) ++ " class="
                 ++ q "equation" ++ ">") ;;
         RenderInlines (InlineContent block) ;;
         Printf "</figure>") c
      | Ok html =>
        (Printf ("<figure id=" ++ q (ID block) ++ " class="
                 ++ q "equation" ++ ">") ;;
         (fun c1 =>
            if negb (didImportKatexCSS c1) then
              (Printf ("<style>@import url('https://cdnjs.cloudflare.com/"
                       ++ "ajax/libs/KaTeX/0.10.0/katex.min.css')</style>") ;;
               (fun c2 => Some (setDidImportKatexCSS c2 true))) c1
            else Some c1) ;;
         Printf ("<div class=" ++ q "equation-container" ++ ">") ;;
         Printf html ;;
         Printf "</div>" ;;
         Printf "</figure>") c
      end.

Definition headerAnchorPath : string :=
  "M5.88.03c-.18.01-.36.03-.53.09-.27.1-.53.25-.75.47a.5.5 0 1 0 .69.69c.11-.11.24-.17.38-.22.35-.12.78-.07 1.06.22.39.39.39 1.04 0 1.44l-1.5 1.5c-.44.44-.8.48-1.06.47-.26-.01-.41-.13-.41-.13a.5.5 0 1 0-.5.88s.34.22.84.25c.5.03 1.2-.16 1.81-.78l1.5-1.5c.78-.78.78-2.04 0-2.81-.28-.28-.61-.45-.97-.53-.18-.04-.38-.04-.56-.03zm-2 2.31c-.5-.02-1.19.15-1.78.75l-1.5 1.5c-.78.78-.78 2.04 0 2.81.56.56 1.36.72 2.06.47.27-.1.53-.25.75-.47a.5.5 0 1 0-.69-.69c-.11.11-.24.17-.38.22-.35.12-.78.07-1.06-.22-.39-.39-.39-1.04 0-1.44l1.5-1.5c.4-.4.75-.45 1.03-.44.28.01.47.09.47.09a.5.5 0 1 0 .44-.88s-.34-.2-.84-.22z".

Definition RenderHeaderLevel (block : Block) (level : Z) : Cmd :=
  fun c =>
    let cls := getBlockColorClass block in
    let id := ID block in
    (Printf ("<h" ++ itoa level ++ " id=" ++ q (ID block) ++ " class="
             ++ q cls ++ ">") ;;
     (if AddHeaderAnchor c
      then Printf ("<a class=" ++ q "notion-header-anchor" ++ " href="
                   ++ q ("#" ++ id) ++ " aria-hidden=" ++ q "true"
                   ++ "><svg xmlns=" ++ q "http://www.w3.org/2000/svg"
                   ++ " viewBox=" ++ q "0 0 8 8" ++ "><path d="
                   ++ q headerAnchorPath ++ "></path></svg></a>")
      else skip) ;;
     RenderInlines (InlineContent block) ;;
     Printf ("</h" ++ itoa level ++ ">")) c.

Definition RenderHeader (block : Block) : Cmd := RenderHeaderLevel block 1.
Definition RenderSubHeader (block : Block) : Cmd := RenderHeaderLevel block 2.
Definition RenderSubSubHeader (block : Block) : Cmd :=
  RenderHeaderLevel block 3.

Definition RenderCallout (block : Block) : Cmd :=
  let cls := getBlockColorClass block ++ " callout" in
  let cls := cleanAttr cls in
  Printf ("<figure class=" ++ q cls ++ " style="
          ++ q "white-space:pre-wrap;display:flex" ++ " id="
          ++ q (ID block) ++ ">") ;;
  (Printf ("<div style=" ++ q "font-size:1.5em" ++ ">") ;;
   (let pageIcon := fst (PropAsString block "format.page_icon") in
    Printf ("<span class=" ++ q "icon" ++ ">" ++ pageIcon ++ "</span>")) ;;
   Printf "</div>" ;;
   (Printf ("<div style=" ++ q "width:100%" ++ ">") ;;
    RenderInlines (InlineContent block) ;;
    Printf "</div>")) ;;
  Printf "</figure>".

(** The loop of [RenderTableOfContents] from entry [i] on; [blocks] is the
    whole list of headers and [rest] what is left of it.  [indent] moves by
    at most one per header, so it stays in the range of [int]. *)
Fixpoint RenderTableOfContents_loop (blocks rest : list Block) (i : nat)
         (indent : Z) : Cmd :=
  match rest with
  | [] => skip
  | b :: rest' =>
    let indent := (indent + adjustIndent blocks i)%Z in
    (fun c =>
       match GetInlineContent (InlineContent b) c with
       | None => None
       | Some (s, c1) =>
         (Printf ("<div class="
                  ++ q ("table_of_contents-item table_of_contents-indent-"
                        ++ itoa indent) ++ ">") ;;
          Printf ("<a class=" ++ q "table_of_contents-link" ++ " href="
                  ++ q ("#" ++ ID b) ++ ">" ++ s ++ "</a>") ;;
          Printf "</div>") c1
       end) ;;
    RenderTableOfContents_loop blocks rest' (S i) indent
  end.

Definition RenderTableOfContents (block : Block) : Cmd :=
  fun c =>
    let cls := getBlockColorClass block ++ " table_of_contents" in
    let cls := cleanAttr cls in
    (Printf ("<nav id=" ++ q (ID block) ++ " class=" ++ q cls ++ ">") ;;
     (let blocks := getHeaderBlocks (Content (Root (Page_ c))) in
      RenderTableOfContents_loop blocks blocks 0 0) ;;
     Printf "</nav>") c.

Definition RenderDivider (block : Block) : Cmd :=
  Printf ("<hr id=" ++ q (ID block) ++ "/>").

Definition RenderCaption (block : Block) : Cmd :=
  match GetCaption block with
  | None => skip
  | Some caption =>
    Printf "<figcaption>" ;;
    RenderInlines caption ;;
    Printf "</figcaption>"
  end.

Definition RenderBookmark (block : Block) : Cmd :=
  Printf ("<figure id=" ++ q (ID block) ++ ">") ;;
  (let cls := getBlockColorClass block ++ " bookmark source" in
   let cls := cleanAttr cls in
   Printf ("<div class=" ++ q cls ++ ">") ;;
   (let uri := Link block in
    let text := Title block in
    A uri text "" ;;
    Printf "<br/>" ;;
    A uri uri "bookmark-href") ;;
   Printf "</div>" ;;
   RenderCaption block) ;;
  Printf "</figure>".

(** [RenderAudio] and [RenderVideo] have the same body. *)
Definition renderAudioVideo (parents : list Block) (block : Block) : Cmd :=
  Printf ("<figure id=" ++ q (ID block) ++ ">") ;;
  (Printf ("<div class=" ++ q "source" ++ ">") ;;
   (let source := Source block in
    let fileName :=
      match FileIDs block with
      | _ :: _ => getDownloadedFileName source parents block
      | [] => source
      end in
    if source =? "" then Printf "<a></a>"
    else A fileName source "") ;;
   Printf "</div>" ;;
   RenderCaption block) ;;
  Printf "</figure>".

Definition RenderAudio (parents : list Block) (block : Block) : Cmd :=
  renderAudioVideo parents block.
Definition RenderVideo (parents : list Block) (block : Block) : Cmd :=
  renderAudioVideo parents block.

Definition renderEmbed (block : Block) : Cmd :=
  Printf ("<figure id=" ++ q (ID block) ++ ">") ;;
  (Printf ("<div class=" ++ q "source" ++ ">") ;;
   (let uri := Source block in A uri uri "") ;;
   Printf "</div>" ;;
   RenderCaption block) ;;
  Printf "</figure>".

Definition RenderTweet (block : Block) : Cmd := renderEmbed block.
Definition RenderGist (block : Block) : Cmd := renderEmbed block.
Definition RenderCodepen (block : Block) : Cmd := renderEmbed block.
Definition RenderMaps (block : Block) : Cmd := renderEmbed block.

Definition RenderEmbed (parents : list Block) (block : Block) : Cmd :=
  Printf ("<figure id=" ++ q (ID block) ++ ">") ;;
  (Printf ("<div class=" ++ q "source" ++ ">") ;;
   (let uri := getFileOrSourceURL parents block in
    let text := Source block in
    A uri text "") ;;
   Printf "</div>" ;;
   RenderCaption block) ;;
  Printf "</figure>".

Definition RenderFigma (block : Block) : Cmd :=
  Printf ("<figure id=" ++ q (ID block) ++ ">") ;;
  (Printf ("<div class=" ++ q "source" ++ ">") ;;
   (let uri := Source block in
    Printf ("<a href=" ++ q uri ++ ">" ++ uri ++ "</a>")) ;;
   Printf "</div>" ;;
   RenderCaption block) ;;
  Printf "</figure>".

(** [RenderFile] and [RenderPDF] have the same body. *)
Definition renderFilePDF (parents : list Block) (block : Block) : Cmd :=
  Printf ("<figure id=" ++ q (ID block) ++ ">") ;;
  (Printf ("<div class=" ++ q "source" ++ ">") ;;
   (let uri := getDownloadedFileName (Source block) parents block in
    A uri (Source block) "") ;;
   Printf "</div>" ;;
   RenderCaption block) ;;
  Printf "</figure>".

Definition RenderFile (parents : list Block) (block : Block) : Cmd :=
  renderFilePDF parents block.
Definition RenderPDF (parents : list Block) (block : Block) : Cmd :=
  renderFilePDF parents block.

Definition RenderDrive (block : Block) : Cmd :=
  Printf ("<figure id=" ++ q (ID block) ++ ">") ;;
  (Printf ("<div class=" ++ q "bookmark source" ++ ">") ;;
   (let icon := fst (PropAsString block "format.drive_properties.icon") in
    Printf ("<img style="
            ++ q ("width:1em;height:1em;margin-right:0.5em;"
                  ++ "vertical-align:text-bottom")
            ++ " src=" ++ q icon ++ "/>") ;;
    (let docURL := fst (PropAsString block "format.drive_properties.url") in
     let title :=
       fst (PropAsString block "format.drive_properties.title") in
     Printf ("<a href=" ++ q docURL ++ ">" ++ title ++ "</a>") ;;
     Printf "<br/>" ;;
     Printf ("<a class=" ++ q "bookmark-href" ++ " href=" ++ q docURL
             ++ ">" ++ docURL ++ "</a>"))) ;;
   Printf "</div>" ;;
   RenderCaption block) ;;
  Printf "</figure>".

Definition RenderImage (parents : list Block) (block : Block) : Cmd :=
  Printf ("<figure id=" ++ q (ID block) ++ " class=" ++ q "image" ++ ">") ;;
  (let uri := getFileOrSourceURL parents block in
   let style := getImageStyle block in
   Printf ("<a href=" ++ q uri ++ ">") ;;
   Printf ("<img " ++ style ++ "src=" ++ q uri ++ "/>") ;;
   Printf "</a>" ;;
   RenderCaption block) ;;
  Printf "</figure>".

Definition RenderNYI (block : Block) : Cmd :=
  Printf ("<div>TODO: '" ++ Type_ block ++ "' NYI!</div>").

Definition RenderBreadcrumb (block : Block) : Cmd :=
  fun c =>
    if NotionCompat c then Some c
    else RenderNYI block c.

(** The [multi_select] branch of a cell: the entries of the rendered value,
    last one first, each in a span unless its escaped text is empty. *)
Definition multiSelectHTML (colVal : string) : string :=
  let vals := Split colVal "," in
  fold_left
    (fun s i =>
       let idx := (List.length vals - 1 - i)%nat in
       match nth_error vals idx with
       | Some entry =>
         let v := EscapeHTML entry in
         if v =? "" then s
         else s ++ "<span class=" ++ q "selected-value" ++ ">" ++ v
                ++ "</span>"
       | None => s
       end)
    (seq 0 (List.length vals))
    EmptyString.

(** One cell of a row of [RenderCollectionView]. *)
Definition RenderCollectionView_cell (parents : list Block)
           (collection : Collection) (row : Block) (col : TableProperty)
  : Cmd :=
  fun c =>
    let colName := Property col in
    let v := match lookup (Properties row) colName with
             | Some v => v
             | None => JNull
             end in
    let parsed :=
      match ParseTextSpans E v with
      | Ok inlineContent => Some (inlineContent, Some c)
      | Err _ => Some ([], maybePanic E c)    (* maybePanicIfErr *)
      | Panic => None
      end in
    match parsed with
    | None | Some (_, None) => None
    | Some (inlineContent, Some c0) =>
      match GetInlineContent inlineContent c0 with
      | None => None
      | Some (colVal, c1) =>
        match lookup (CollectionSchema collection) colName with
        | None => None       (* colInfo.Type on nil *)
        | Some colInfo =>
          let colVal :=
            if ColType colInfo =? "title" then
              let uri := getTitleColDownloadedURL row parents collection in
              let colVal := if colVal =? "" then "Untitled" else colVal in
              "<a href=" ++ q uri ++ ">" ++ colVal ++ "</a>"
            else if ColType colInfo =? "multi_select" then
              multiSelectHTML colVal
            else colVal in
          let colNameCls := EscapeHTML colName in
          Printf ("<td class=" ++ q ("cell-" ++ colNameCls) ++ ">"
                  ++ colVal ++ "</td>") c1
        end
      end
    end.

Fixpoint forEach {A : Type} (f : A -> Cmd) (l : list A) : Cmd :=
  match l with
  | [] => skip
  | x :: rest => f x ;; forEach f rest
  end.

Definition newline : string := String (ascii_of_nat 10) EmptyString.

(** [block] is the collection view, [parents] its chain of parents. *)
Definition RenderCollectionView (parents : list Block) (block : Block)
  : Cmd :=
  match CollectionViews block with
  | [] => skip
  | viewInfo :: _ =>
    let view := CollectionView_ viewInfo in
    let collection := Collection_ viewInfo in
    match Format view with
    | None => skip
    | Some format =>
      let columns := TableProperties format in
      Printf ("<div id=" ++ q (ID block) ++ " class="
              ++ q "collection-content" ++ ">") ;;
      (let name := CollectionName collection in
       Printf ("<h4 class=" ++ q "collection-title" ++ ">" ++ name
               ++ "</h4>") ;;
       Printf ("<table class=" ++ q "collection-content" ++ ">") ;;
       (Printf "<thead>" ;;
        (Printf "<tr>" ;;
         forEach
           (fun col =>
              let colName := Property col in
              let name :=
                match lookup (CollectionSchema collection) colName with
                | Some colInfo => EscapeHTML (ColName colInfo)
                | None => EmptyString
                end in
              Printf ("<th>" ++ name ++ "</th>"))
           columns ;;
         Printf "</tr>") ;;
        Printf "</thead>" ;;
        Printf "<tbody>" ;;
        forEach
          (fun row =>
             Printf ("<tr id=" ++ q (ID row) ++ ">") ;;
             forEach (RenderCollectionView_cell parents collection row)
                     columns ;;
             Printf ("</tr>" ++ newline))
          (CollectionRows viewInfo) ;;
        Printf "</tbody>") ;;
       Printf "</table>") ;;
      Printf "</div>"
    end
  end.

(** [c.ListNo++] on a 64-bit [int]. *)
Definition wrapInt (z : Z) : Z :=
  ((z + 2 ^ 63) mod 2 ^ 64 - 2 ^ 63)%Z.

(** *** The renderers that render the children of their block

    [RenderChildren] and [RenderBlock] call each other through these.  In
    this section [RenderChildren] is a variable; it is tied to the
    definition of [RenderBlock] after the section. *)
Section WithChildren.

Variable RenderChildren : Block -> Cmd.

Definition renderRootPage (parents : list Block) (block : Block) : Cmd :=
  fun c =>
    ((if FullHTML c then
        Printf "<html>" ;;
        (Printf "<head>" ;;
         (Printf ("<meta http-equiv=" ++ q "Content-Type" ++ " content="
                  ++ q "text/html; charset=utf-8" ++ "/>") ;;
          Printf ("<title>" ++ EscapeHTML (Title block) ++ "</title>") ;;
          Printf ("<style>" ++ CSS E ++ String (ascii_of_nat 9) newline
                  ++ "</style>")) ;;
         Printf "</head>") ;;
        Printf "<body>"
      else skip) ;;
     (let clsFont :=
        match FormatPage block with
        | Some fp => if PageFont fp =? "" then "sans" else PageFont fp
        | None => "sans"
        end in
      Printf ("<article id=" ++ q (ID block) ++ " class="
              ++ q ("page " ++ clsFont) ++ ">")) ;;
     renderHeader parents block ;;
     (Printf ("<div class=" ++ q "page-body" ++ ">") ;;
      RenderChildren block ;;
      Printf "</div>") ;;
     Printf "</article>" ;;
     (if FullHTML c then Printf "</body></html>" else skip)) c.

Definition RenderPage (parents : list Block) (block : Block) : Cmd :=
  fun c =>
    if IsRoot (Page_ c) block then renderRootPage parents block c
    else if IsSubPage (Page_ c) block then renderSubPage parents block c
    else renderLinkToPage parents block c.

Definition RenderText (block : Block) : Cmd :=
  let cls := getBlockColorClass block in
  Printf ("<p id=" ++ q (ID block) ++ " class=" ++ q cls ++ ">") ;;
  RenderInlines (InlineContent block) ;;
  RenderChildren block ;;
  Printf "</p>".

Definition RenderNumberedList (block : Block) : Cmd :=
  fun c =>
    match IsPrevBlockOfType c BlockNumberedList with
    | None => None
    | Some isPrevSame =>
      let c :=
        if isPrevSame then setListNo c (wrapInt (ListNo c + 1))
        else setListNo c 1 in
      let cls := getBlockColorClass block ++ " numbered-list" in
      let cls := cleanAttr cls in
      (Printf ("<ol id=" ++ q (ID block) ++ " class=" ++ q cls
               ++ " start=" ++ q (itoa (ListNo c)) ++ ">") ;;
       (Printf "<li>" ;;
        (RenderInlines (InlineContent block) ;;
         RenderChildren block) ;;
        Printf "</li>") ;;
       Printf "</ol>") c
    end.

Definition RenderBulletedList (block : Block) : Cmd :=
  let cls := getBlockColorClass block ++ " bulleted-list" in
  let cls := cleanAttr cls in
  Printf ("<ul id=" ++ q (ID block) ++ " class=" ++ q cls ++ ">") ;;
  (Printf "<li>" ;;
   (RenderInlines (InlineContent block) ;;
    RenderChildren block) ;;
   Printf "</li>") ;;
  Printf "</ul>".

Definition RenderTodo (block : Block) : Cmd :=
  Printf ("<ul id=" ++ q (ID block) ++ " class=" ++ q "to-do-list" ++ ">") ;;
  (Printf "<li>" ;;
   (let cls := if IsChecked block then "checkbox-on" else "checkbox-off" in
    Printf ("<div class=" ++ q ("checkbox " ++ cls) ++ "></div>") ;;
    (let cls := if IsChecked block then "to-do-children-checked"
                else "to-do-children-unchecked" in
     Printf ("<span class=" ++ q cls ++ ">") ;;
     RenderInlines (InlineContent block) ;;
     Printf "</span>" ;;
     RenderChildren block)) ;;
   Printf "</li>") ;;
  Printf "</ul>".

Definition RenderToggle (block : Block) : Cmd :=
  let cls := getBlockColorClass block ++ " toggle" in
  let cls := cleanAttr cls in
  Printf ("<ul id=" ++ q (ID block) ++ " class=" ++ q cls ++ ">") ;;
  (Printf "<li>" ;;
   (Printf ("<details open=" ++ q "" ++ ">") ;;
    (Printf "<summary>" ;;
     RenderInlines (InlineContent block) ;;
     Printf "</summary>" ;;
     RenderChildren block) ;;
    Printf "</details>") ;;
   Printf "</li>") ;;
  Printf "</ul>".

Definition RenderQuote (block : Block) : Cmd :=
  Printf ("<blockquote id=" ++ q (ID block) ++ " class=" ++ q "" ++ ">") ;;
  (RenderInlines (InlineContent block) ;;
   RenderChildren block) ;;
  Printf "</blockquote>".

Definition RenderColumnList (block : Block) : Cmd :=
  match Content block with
  | [] => maybePanic E
  | _ :: _ =>
    Printf ("<div id=" ++ q (ID block) ++ " class=" ++ q "column-list"
            ++ ">") ;;
    RenderChildren block ;;
    Printf "</div>"
  end.

Definition RenderColumn (block : Block) : Cmd :=
  let colRatio :=
    match FormatColumnPct block with
    | Some r => r
    | None => "50"
    end in
  Printf ("<div id=" ++ q (ID block) ++ " style="
          ++ q ("width:" ++ colRatio ++ "%") ++ " class=" ++ q "column"
          ++ ">") ;;
  RenderChildren block ;;
  Printf "</div>".

(** [DefaultRenderFunc blockType], applied to the block at once: the
    function of the source returns the renderer and [RenderBlock] calls it
    on the block.  [Some (Some r)]: the renderer; [Some None]: nil;
    [None]: [maybePanic] panicked. *)
Definition DefaultRenderFunc (parents : list Block) (blockType : string)
           (block : Block) : option (option Cmd) :=
  if blockType =? BlockPage then Some (Some (RenderPage parents block))
  else if blockType =? BlockText then Some (Some (RenderText block))
  else if blockType =? BlockEquation
       then Some (Some (RenderEquation block))
  else if blockType =? BlockNumberedList
       then Some (Some (RenderNumberedList block))
  else if blockType =? BlockBulletedList
       then Some (Some (RenderBulletedList block))
  else if blockType =? BlockHeader then Some (Some (RenderHeader block))
  else if blockType =? BlockSubHeader
       then Some (Some (RenderSubHeader block))
  else if blockType =? BlockSubSubHeader
       then Some (Some (RenderSubSubHeader block))
  else if blockType =? BlockTodo then Some (Some (RenderTodo block))
  else if blockType =? BlockToggle then Some (Some (RenderToggle block))
  else if blockType =? BlockQuote then Some (Some (RenderQuote block))
  else if blockType =? BlockDivider then Some (Some (RenderDivider block))
  else if blockType =? BlockCode then Some (Some (RenderCode block))
  else if blockType =? BlockBookmark
       then Some (Some (RenderBookmark block))
  else if blockType =? BlockImage
       then Some (Some (RenderImage parents block))
  else if blockType =? BlockColumnList
       then Some (Some (RenderColumnList block))
  else if blockType =? BlockColumn then Some (Some (RenderColumn block))
  else if blockType =? BlockCollectionView
       then Some (Some (RenderCollectionView parents block))
  else if blockType =? BlockCollectionViewPage
       then Some (Some (RenderCollectionViewPage block))
  else if blockType =? BlockEmbed
       then Some (Some (RenderEmbed parents block))
  else if blockType =? BlockGist then Some (Some (RenderGist block))
  else if blockType =? BlockMaps then Some (Some (RenderMaps block))
  else if blockType =? BlockCodepen then Some (Some (RenderCodepen block))
  else if blockType =? BlockTweet then Some (Some (RenderTweet block))
  else if blockType =? BlockVideo
       then Some (Some (RenderVideo parents block))
  else if blockType =? BlockAudio
       then Some (Some (RenderAudio parents block))
  else if blockType =? BlockFile
       then Some (Some (RenderFile parents block))
  else if blockType =? BlockDrive then Some (Some (RenderDrive block))
  else if blockType =? BlockFigma then Some (Some (RenderFigma block))
  else if blockType =? BlockPDF then Some (Some (RenderPDF parents block))
  else if blockType =? BlockCallout then Some (Some (RenderCallout block))
  else if blockType =? BlockTableOfContents
       then Some (Some (RenderTableOfContents block))
  else if blockType =? BlockBreadcrumb
       then Some (Some (RenderBreadcrumb block))
  else if blockType =? BlockFactory then Some None
  else if PanicOnFailures E then None
  else Some None.

(** The body of [RenderBlock] for a block that is not nil. *)
Definition RenderBlock_body (parents : list Block) (block : Block) : Cmd :=
  let default : Cmd :=
    fun c =>
      match DefaultRenderFunc parents (Type_ block) block with
      | None => None
      | Some None => Some c
      | Some (Some def) => def c
      end in
  fun c =>
    match RenderBlockOverride E with
    | Some override =>
      match override parents block c with
      | None => None
      | Some (handled, c1) => if handled then Some c1 else default c1
      end
    | None => default c
    end.

End WithChildren.

Definition needsIndent (block : Block) : bool :=
  match Content block with
  | [] => false
  | _ :: _ => Type_ block =? BlockText
  end.

(** The loop of [RenderChildren] from the child of index [i] on. *)
Section ChildrenLoop.

Variable RenderBlock : Block -> Cmd.

Fixpoint RenderChildren_loop (children : list Block) (i : nat) : Cmd :=
  match children with
  | [] => skip
  | child :: rest =>
    (fun c => RenderBlock child (setCurrBlockIdx c i)) ;;
    RenderChildren_loop rest (S i)
  end.

End ChildrenLoop.

(** [RenderChildren], over the [RenderBlock] it calls; the children are
    rendered with [block] in front of the chain of parents
    ([child.Parent = block]). *)
Definition RenderChildren_with (RenderBlock : list Block -> Block -> Cmd)
           (parents : list Block) (block : Block) : Cmd :=
  match Content block with
  | [] => skip
  | _ :: _ =>
    let doIndent := needsIndent block in
    (if doIndent then Printf ("<div class=" ++ q "indented" ++ ">")
     else skip) ;;
    (fun c =>
       let currIdx := CurrBlockIdx c in
       let currBlocks := CurrBlocks c in
       match RenderChildren_loop (RenderBlock (block :: parents))
                                 (Content block) 0
                                 (setCurrBlocks c (Content block)) with
       | None => None
       | Some c1 =>
         Some (setCurrBlocks (setCurrBlockIdx c1 currIdx) currBlocks)
       end) ;;
    (if doIndent then Printf "</div>" else skip)
  end.

(** [RenderBlock], on a block that is not nil (for a nil block the source
    returns at once). *)
Fixpoint RenderBlock (parents : list Block) (block : Block) {struct block}
  : Cmd :=
  RenderBlock_body (RenderChildren_with RenderBlock parents) parents block.

(** [RenderChildren] *)
Definition RenderChildren (parents : list Block) (block : Block) : Cmd :=
  RenderChildren_with RenderBlock parents block.

(** [detectKatex]: the error it returns, if any, and the converter. *)
Definition detectKatex (c : Converter) : option string * Converter :=
  let found :=
    if KatexPath c =? "" then false else os_Stat E (KatexPath c) in
  if found then (None, c)
  else
    match exec_LookPath E "katex" with
    | None =>
      if KatexPath c =? ""
      then (Some ("UseKatexToRenderEquation is set but couldn't locate "
                  ++ "katex binary (see https://katex.org/). You can "
                  ++ "install Katex with `npm install -g katex`. You can "
                  ++ "provide the path to katex binary via KatexPath. "), c)
      else (Some ("UseKatexToRenderEquation is set but KatexPath ('"
                  ++ KatexPath c ++ "') doesn't exist"), c)
    | Some path => (None, setKatexPath c path)
    end.

(** [ToHTML]: the result and the converter it leaves.  [buf.Bytes()] on a
    nil buffer panics. *)
Definition ToHTML (c : Converter) : outcome string * Converter :=
  let c :=
    if NotionCompat c then setUseKatexToRenderEquation c true else c in
  let '(err, c) :=
    if UseKatexToRenderEquation c then detectKatex c else (None, c) in
  match err with
  | Some msg => (Err msg, c)
  | None =>
    match (PushNewBuffer ;; RenderBlock [] (Root (Page_ c))) c with
    | None => (Panic, c)
    | Some c1 =>
      match PopBuffer c1 with
      | None => (Panic, c1)
      | Some (None, c2) => (Panic, c2)
      | Some (Some html, c2) => (Ok html, c2)
      end
    end
  end.

End Rendering.

(** The package-level [ToHTML]: a fresh converter, the error dropped. *)
Definition ToHTML_page (E : Env) (page : Page) : outcome string :=
  match fst (ToHTML E (NewConverter page)) with
  | Ok html => Ok html
  | Err _ => Ok EmptyString
  | Panic => Panic
  end.

End Tohtml2.

(** ** Notions used to state the properties *)
Module Derived.
Import GoStrings Notionapi Tohtml2.

(** The link after [c.RewriteURL], when there is one. *)
Definition rewritten (c : Converter) (uri : string) : string :=
  match RewriteURL c with
  | Some f => f uri
  | None => uri
  end.

(** The attributes that wrap the text in a pair of tags, and the pair. *)
Definition wraps (a : TextAttr) : bool :=
  match a with
  | AttrBold | AttrItalic | AttrStrikeThrought | AttrCode
  | AttrLink _ | AttrHighlight _ => true
  | _ => false
  end.

Definition openTag (c : Converter) (a : TextAttr) : string :=
  match a with
  | AttrBold => "<strong>"
  | AttrItalic => "<em>"
  | AttrStrikeThrought => "<del>"
  | AttrCode => "<code>"
  | AttrHighlight hl => "<mark class=" ++ q ("highlight-" ++ hl) ++ ">"
  | AttrLink uri =>
    if rewritten c uri =? "" then "<a>"
    else "<a href=" ++ q (EscapeHTML (rewritten c uri)) ++ ">"
  | _ => EmptyString
  end.

Definition closeTag (a : TextAttr) : string :=
  match a with
  | AttrBold => "</strong>"
  | AttrItalic => "</em>"
  | AttrStrikeThrought => "</del>"
  | AttrCode => "</code>"
  | AttrHighlight _ => "</mark>"
  | AttrLink _ => "</a>"
  | _ => EmptyString
  end.

(** The rendering of a span the way the specification words it: the
    attribute declared last wraps the text tightest, the ones declared
    before it wrap outside.  It is compared with [RenderInline_html]. *)
Fixpoint lastDeclaredInnermost (c : Converter) (attrs : list TextAttr)
         (text : string) : string :=
  match attrs with
  | [] => EscapeHTML text
  | a :: rest =>
    openTag c a ++ lastDeclaredInnermost c rest text ++ closeTag a
  end.

(** What [RenderInlines] writes. *)
Definition inlinesHTML (E : Env) (c : Converter) (spans : list TextSpan)
  : string :=
  GoStrings.concat (map (RenderInline_html E c) spans).

(** One entry of a [multi_select] cell, and the entries that get one. *)
Definition selectedValue (entry : string) : string :=
  "<span class=" ++ q "selected-value" ++ ">" ++ EscapeHTML entry
  ++ "</span>".

Definition nonEmpty (entry : string) : bool := negb (entry =? "").

(** The indent levels [RenderTableOfContents] runs through: the running
    sum of [adjustIndent], from entry [i] on. *)
Fixpoint tocIndents_from (blocks rest : list Block) (i : nat) (indent : Z)
  : list Z :=
  match rest with
  | [] => []
  | _ :: rest' =>
    let indent := (indent + adjustIndent blocks i)%Z in
    indent :: tocIndents_from blocks rest' (S i) indent
  end.

Definition tocIndents (blocks : list Block) : list Z :=
  tocIndents_from blocks blocks 0 0.

(** One entry of the table of contents at a given indent level. *)
Definition tocEntry (E : Env) (c : Converter) (indent : Z) (b : Block)
  : string :=
  "<div class="
  ++ q ("table_of_contents-item table_of_contents-indent-" ++ itoa indent)
  ++ ">"
  ++ "<a class=" ++ q "table_of_contents-link" ++ " href="
  ++ q ("#" ++ ID b) ++ ">" ++ inlinesHTML E c (InlineContent b) ++ "</a>"
  ++ "</div>".

(** The entries of the headers [blocks] at the levels [levels]. *)
Fixpoint tocEntries (E : Env) (c : Converter) (levels : list Z)
         (blocks : list Block) : string :=
  match levels, blocks with
  | indent :: levels', b :: blocks' =>
    tocEntry E c indent b ++ tocEntries E c levels' blocks'
  | _, _ => EmptyString
  end.

Definition tocOpen (E : Env) (block : Block) : string :=
  "<nav id=" ++ q (ID block) ++ " class="
  ++ q (cleanAttr E (getBlockColorClass block ++ " table_of_contents"))
  ++ ">".

(** What an equation block renders to without typesetting. *)
Definition equationFigure (E : Env) (c : Converter) (block : Block)
  : string :=
  "<figure id=" ++ q (ID block) ++ " class=" ++ q "equation" ++ ">"
  ++ inlinesHTML E c (InlineContent block) ++ "</figure>".

(** The buffer a command leaves, if it returns. *)
Definition bufAfter (r : option Converter) : option (option string) :=
  match r with
  | Some c => Some (Buf c)
  | None => None
  end.

(** A command keeps a relation between the converter it starts from and
    the one it returns. *)
Definition keeps (P : Converter -> Converter -> Prop) (f : Cmd) : Prop :=
  forall c c', f c = Some c' -> P c c'.

(** The sibling state: the active sequence and the current index. *)
Definition sameSiblings (c c' : Converter) : Prop :=
  CurrBlocks c' = CurrBlocks c /\ CurrBlockIdx c' = CurrBlockIdx c.

Definition sameListNo (c c' : Converter) : Prop := ListNo c' = ListNo c.

(** The current buffer only grows (a nil buffer stays nil). *)
Definition bufGrows (c c' : Converter) : Prop :=
  match Buf c, Buf c' with
  | Some b, Some b' => exists w, b' = b ++ w
  | None, None => True
  | _, _ => False
  end.

(** The override hook keeps [P] whenever it returns. *)
Definition hookKeeps (E : Env) (P : Converter -> Converter -> Prop) : Prop :=
  forall override parents block c handled c',
    RenderBlockOverride E = Some override ->
    override parents block c = Some (handled, c') ->
    P c c'.

(** No numbered-list block in a block and below it. *)
Fixpoint noNumberedList (b : Block) : bool :=
  negb (Type_ b =? BlockNumberedList)
  && (fix all (l : list Block) : bool :=
        match l with
        | [] => true
        | child :: rest => noNumberedList child && all rest
        end) (Content b).

Definition noNumberedListIn (l : list Block) : bool :=
  forallb noNumberedList l.

(** The opening tag of a numbered-list item with ordinal [n]. *)
Definition olOpen (E : Env) (block : Block) (n : Z) : string :=
  "<ol id=" ++ q (ID block) ++ " class="
  ++ q (cleanAttr E (getBlockColorClass block ++ " numbered-list"))
  ++ " start=" ++ q (itoa n) ++ ">".

(** The ordinal of a numbered-list item, from the sibling before it
    ([None]: there is none) and the counter. *)
Definition nextOrdinal (c : Converter) (prev : option Block) : Z :=
  match prev with
  | Some p => if Type_ p =? BlockNumberedList then (ListNo c + 1)%Z else 1%Z
  | None => 1%Z
  end.

(** A numbered-list item as it is written: the opening tag with its
    ordinal, the item with content [w], the closing tags. *)
Definition olItem (E : Env) (block : Block) (n : Z) (w : string) : string :=
  olOpen E block n ++ "<li>" ++ w ++ "</li>" ++ "</ol>".

(** What [RenderChildren] writes around the children of a block. *)
Definition indentOpen (block : Block) : string :=
  if needsIndent block then "<div class=" ++ q "indented" ++ ">"
  else EmptyString.

Definition indentClose (block : Block) : string :=
  if needsIndent block then "</div>" else EmptyString.

(** [visits renderBlock siblings rest i c c']: the loop of
    [RenderChildren] renders the children [rest], which are the children
    of [siblings] from index [i] on, one after the other from [c] to
    [c']; each one is rendered with [siblings] as the active sequence and
    its own index as the current one. *)
Inductive visits (renderBlock : Block -> Cmd) (siblings : list Block)
  : list Block -> nat -> Converter -> Converter -> Prop :=
| visits_nil (i : nat) (c : Converter) :
    visits renderBlock siblings [] i c c
| visits_cons (child : Block) (rest : list Block) (i : nat)
              (c c1 c2 : Converter) :
    CurrBlocks c = siblings ->
    nth_error siblings i = Some child ->
    renderBlock child (setCurrBlockIdx c i) = Some c1 ->
    visits renderBlock siblings rest (S i) c1 c2 ->
    visits renderBlock siblings (child :: rest) i c c2.

(** The sibling right before the current block, when the active sequence
    is [pre ++ current :: post]: the last of [pre]. *)
Definition siblingBefore (pre : list Block) : option Block :=
  hd_error (rev pre).

(** The ordinal of a numbered-list item, from the sibling right before it
    and the counter: one more than the counter, in the arithmetic of
    [int], after a numbered-list item; 1 otherwise. *)
Definition ordinalAfter (prev : option Block) (counter : Z) : Z :=
  match prev with
  | Some p =>
    if Type_ p =? BlockNumberedList then wrapInt (counter + 1) else 1%Z
  | None => 1%Z
  end.

(** The ordinals along a sequence of siblings, as the specification words
    them: a numbered-list item gets the ordinal of the sibling right
    before it plus one when that sibling is a numbered-list item, and 1
    otherwise; a block of another type gets none.  [prev] is the ordinal of
    the sibling before the sequence, if it is a numbered-list item. *)
Fixpoint siblingOrdinals (prev : option Z) (l : list Block)
  : list (option Z) :=
  match l with
  | [] => []
  | b :: rest =>
    if Type_ b =? BlockNumberedList then
      let n := match prev with
               | Some k => (k + 1)%Z
               | None => 1%Z
               end in
      Some n :: siblingOrdinals (Some n) rest
    else None :: siblingOrdinals None rest
  end.

(** The same with the addition of [int], which is what the code computes. *)
Fixpoint intOrdinals (prev : option Z) (l : list Block) : list (option Z) :=
  match l with
  | [] => []
  | b :: rest =>
    if Type_ b =? BlockNumberedList then
      let n := match prev with
               | Some k => wrapInt (k + 1)
               | None => 1%Z
               end in
      Some n :: intOrdinals (Some n) rest
    else None :: intOrdinals None rest
  end.

(** The siblings [l] as they are written: a numbered-list item with its
    ordinal around its content, any other block as what it wrote. *)
Fixpoint siblingsHTML (E : Env) (l : list Block) (ords : list (option Z))
         (ws : list string) : string :=
  match l, ords, ws with
  | b :: l', o :: ords', w :: ws' =>
    match o with
    | Some n => olItem E b n w
    | None => w
    end ++ siblingsHTML E l' ords' ws'
  | _, _, _ => EmptyString
  end.

(** Every numbered-list item among [l] has no numbered list below it. *)
Definition flatItems (l : list Block) : bool :=
  forallb (fun b => negb (Type_ b =? BlockNumberedList)
                    || noNumberedListIn (Content b)) l.

End Derived.

(** ** Inputs the properties are tried on *)
Module Examples.
Import GoStrings Notionapi Tohtml2.

Definition block (id ty : string) (content : list Block)
           (spans : list TextSpan) : Block :=
  mkBlock id ty content "" spans "" "" "" [] false "" [] [] [] None None
          None None [].

(** No hook, no katex binary anywhere, [MaybePanic] only logs; a raw
    property value is decoded when it is a single plain span. *)
Definition env : Env :=
  mkEnv (fun s => s) (fun _ u => u) (fun _ => "2019-01-01")
        (fun l => GoStrings.concat (map Text l))
        (fun v => match v with
                  | JArr [JArr [JStr s]] => Ok [mkTextSpan s []]
                  | _ => Ok []
                  end)
        false (fun _ _ => Err "exit status 1")
        (fun _ => false) (fun _ => None)
        (fun a b => a ++ "/" ++ b)
        (fun s => TrimRightSpace (TrimLeftSpace s)) "" None.

Definition unmarshalDate (fields : list (string * JSON)) : option Date :=
  Some (mkDate fields).

Definition emptyPage : Page :=
  mkPage "p" (block "p" BlockPage [] []) (fun _ => None) (fun _ => None)
         (fun b => ID b =? "p") (fun _ => false) "https://notion.so/p".

(** A converter in the middle of a conversion: an empty buffer is set. *)
Definition converter : Converter :=
  setBuf (NewConverter emptyPage) (Some EmptyString).

(** A row with a [multi_select] column [tags] of value [A,B,C]. *)
Definition tagsColumn : TableProperty := mkTableProperty "tags".

Definition tagsCollection : Collection :=
  mkCollection "Tasks" ""
    [("title", mkColumnSchema "Name" "title");
     ("tags", mkColumnSchema "Tags" "multi_select")].

Definition tagsRow : Block :=
  mkBlock "row1" BlockPage [] "" [] "" "" "" [] false "" []
          [("tags", JArr [JArr [JStr "A,B,C"]])] [] None None None None [].

(** A page with the headers H1, H2, H3, H2, H1 and a table of contents. *)
Definition tocBlock : Block := block "toc" BlockTableOfContents [] [].

Definition tocPage : Page :=
  mkPage "p"
    (block "p" BlockPage
       [tocBlock;
        block "a" BlockHeader [] [mkTextSpan "A" []];
        block "b" BlockSubHeader [] [mkTextSpan "B" []];
        block "c" BlockSubSubHeader [] [mkTextSpan "C" []];
        block "d" BlockSubHeader [] [mkTextSpan "D" []];
        block "e" BlockHeader [] [mkTextSpan "E" []]]
       [])
    (fun _ => None) (fun _ => None)
    (fun b => ID b =? "p") (fun _ => false) "https://notion.so/p".

Definition tocConverter : Converter :=
  setBuf (NewConverter tocPage) (Some EmptyString).

(** A katex binary is found on the path, and it fails on every input. *)
Definition envKatexFails : Env :=
  mkEnv (fun s => s) (fun _ u => u) (fun _ => "2019-01-01")
        (fun l => GoStrings.concat (map Text l))
        (fun _ => Ok [])
        false (fun _ _ => Err "exit status 1")
        (fun _ => false) (fun _ => Some "/usr/bin/katex")
        (fun a b => a ++ "/" ++ b)
        (fun s => TrimRightSpace (TrimLeftSpace s)) "" None.

(** A page whose root is an equation block, converted with typesetting. *)
Definition equationBlock : Block :=
  block "eq" BlockEquation [] [mkTextSpan "x<y" []].

Definition equationPage : Page :=
  mkPage "eq" equationBlock (fun _ => None) (fun _ => None)
         (fun b => ID b =? "eq") (fun _ => false) "https://notion.so/eq".

Definition equationConverter : Converter :=
  setUseKatexToRenderEquation (NewConverter equationPage) true.

(** A page with three numbered-list items; the second one has a paragraph
    below it. *)
Definition item1 : Block :=
  block "n1" BlockNumberedList [] [mkTextSpan "one" []].

Definition item2 : Block :=
  block "n2" BlockNumberedList
        [block "t" BlockText [] [mkTextSpan "more" []]]
        [mkTextSpan "two" []].

Definition item3 : Block :=
  block "n3" BlockNumberedList [] [mkTextSpan "three" []].

Definition listPage : Block := block "p" BlockPage [item1; item2; item3] [].

(** A page with a paragraph and, below it in the page, an equation; it is
    converted with typesetting. *)
Definition nestedEquationPage : Page :=
  mkPage "p"
    (block "p" BlockPage
           [block "t" BlockText [] [mkTextSpan "so" []]; equationBlock] [])
    (fun _ => None) (fun _ => None)
    (fun b => ID b =? "p") (fun _ => false) "https://notion.so/p".

Definition nestedEquationConverter : Converter :=
  setUseKatexToRenderEquation (NewConverter nestedEquationPage) true.

(** Two numbered-list items with a paragraph between them. *)
Definition between : Block :=
  block "t2" BlockText [] [mkTextSpan "between" []].

Definition mixedPage : Block :=
  block "p" BlockPage [item1; between; item3] [].

(** A table view with a column that the schema of the collection does
    not have, and one row. *)
Definition viewBlock : Block :=
  mkBlock "v" BlockCollectionView [] "" [] "" "" "" [] false ""
          [mkCollectionViewInfo
             (mkCollectionView
                (Some (mkFormatTable [tagsColumn; mkTableProperty "gone"])))
             tagsCollection [tagsRow]]
          [] [] None None None None [].

(** A block of a type the converter does not know, with a paragraph below
    it. *)
Definition strangeBlock : Block :=
  block "s" "strange" [block "t" BlockText [] [mkTextSpan "lost" []]] [].

End Examples.

(** ** Shapes of inline-token input *)
Module TokenShapes.
Import Inline.

(** An attribute tuple [[code, value]] with the code [d]. *)
Definition isDateTuple (a : list JSON) : bool :=
  match a with
  | [JStr s; _] => s =? "d"
  | _ => false
  end.

Definition noDateAttrs (attrs : list JSON) : bool :=
  forallb (fun rawAttr =>
             match rawAttr with
             | JArr a => negb (isDateTuple a)
             | _ => true
             end) attrs.

Definition noDateSpan (v : JSON) : bool :=
  match v with
  | JArr [_; JArr attrs] => noDateAttrs attrs
  | _ => true
  end.

(** No span of the input carries a [d] attribute. *)
Definition noDate (raw : JSON) : bool :=
  match raw with
  | JArr a => forallb noDateSpan a
  | _ => true
  end.

(** A two-element span that starts with a text has an array in the second
    place. *)
Definition attrsInArray (v : JSON) : bool :=
  match v with
  | JArr [JStr _; a1] => isJArr a1
  | _ => true
  end.

(** That holds of every span of the input. *)
Definition attrsInArrays (raw : JSON) : bool :=
  match raw with
  | JArr a => forallb attrsInArray a
  | _ => true
  end.

(** The text of a span [[text]] or [[text, attrs]]. *)
Definition spanText (v : JSON) : string :=
  match v with
  | JArr (JStr s :: _) => s
  | _ => EmptyString
  end.

(** The codes of the flag attributes and the bit each one sets. *)
Definition isFlagCode (s : string) : bool :=
  (s =? "b") || (s =? "i") || (s =? "s") || (s =? "c").

Definition flagOfCode (s : string) : Z :=
  if s =? "b" then AttrBold
  else if s =? "i" then AttrItalic
  else if s =? "s" then AttrStrikeThrought
  else if s =? "c" then AttrCode
  else 0%Z.

Definition flagTuple (s : string) : JSON := JArr [JStr s].

Definition flagsOf (codes : list string) : Z :=
  fold_right (fun s acc => Z.lor (flagOfCode s) acc) 0%Z codes.

(** The attribute tuple of a comment mark. *)
Definition commentTuple (id : string) : JSON := JArr [JStr "m"; JStr id].

End TokenShapes.

(** ** Notions for the properties of strings and names *)
Module Notions.
Import GoStrings Notionapi Tohtml2.

(** A string rewritten byte by byte. *)
Fixpoint mapBytes (f : ascii -> string) (s : string) : string :=
  match s with
  | EmptyString => EmptyString
  | String ch rest => f ch ++ mapBytes f rest
  end.

(** The standard escaping with the apostrophe written [&#x27;]. *)
Definition apostropheFixed (ch : ascii) : string :=
  if Ascii.eqb ch "'" then "&#x27;" else escapeByte ch.

(** What [EscapeHTML] makes of one byte. *)
Definition notionEscapeByte (ch : ascii) : string :=
  if Ascii.eqb ch "&" then "&amp;"
  else if Ascii.eqb ch "'" then "&#x27;"
  else if Ascii.eqb ch "<" then "&lt;"
  else if Ascii.eqb ch ">" then "&gt;"
  else if Ascii.eqb ch (ascii_of_nat 34) then "&quot;"
  else String ch EmptyString.

(** The byte [b] occurs in [s]. *)
Fixpoint hasByte (b : ascii) (s : string) : bool :=
  match s with
  | EmptyString => false
  | String ch rest => Ascii.eqb ch b || hasByte b rest
  end.

(** Every byte of [s] satisfies [p]. *)
Fixpoint allBytes (p : ascii -> bool) (s : string) : bool :=
  match s with
  | EmptyString => true
  | String ch rest => p ch && allBytes p rest
  end.

(** The bytes of [s] that satisfy [p], in order. *)
Fixpoint filterBytes (p : ascii -> bool) (s : string) : string :=
  match s with
  | EmptyString => EmptyString
  | String ch rest =>
    if p ch then String ch (filterBytes p rest) else filterBytes p rest
  end.

Definition firstByte (s : string) : option ascii :=
  match s with
  | EmptyString => None
  | String ch _ => Some ch
  end.

Fixpoint lastByte (s : string) : option ascii :=
  match s with
  | EmptyString => None
  | String ch EmptyString => Some ch
  | String _ rest => lastByte rest
  end.

Definition isSpace (ch : ascii) : bool := Ascii.eqb ch " ".

Definition safeOrSpace (ch : ascii) : bool := isSafeChar ch || isSpace ch.

(** How often the byte [b] occurs in [s]. *)
Fixpoint countByte (b : ascii) (s : string) : nat :=
  match s with
  | EmptyString => 0
  | String ch rest => (if Ascii.eqb ch b then 1 else 0) + countByte b rest
  end.

(** The safe names of the pages among [parents], nearest first. *)
Definition pageTitles (parents : list Block) : list string :=
  map (fun p => safeName (Title p))
      (filter (fun p => Type_ p =? BlockPage) parents).

(** The directories [dirs] in front of a name. *)
Definition underDirs (dirs : list string) (name : string) : string :=
  concat (map (fun d => d ++ "/") dirs) ++ name.

(** The attributes that put something in the place of the text of their
    span, and the comment marks. *)
Definition replacesText (a : TextAttr) : bool :=
  match a with
  | AttrUser _ | AttrDate _ | AttrPage _ => true
  | _ => false
  end.

Definition isComment (a : TextAttr) : bool :=
  match a with
  | AttrComment _ => true
  | _ => false
  end.

Definition isPlainSpan (b : TextSpan) : bool :=
  match Attrs b with
  | [] => true
  | _ :: _ => false
  end.

(** The rank of a header type: 1 for [header], 2 for [sub_header], 3 for
    [sub_sub_header]. *)
Definition headerRank (t : string) : Z :=
  if t =? BlockHeader then 1%Z
  else if t =? BlockSubHeader then 2%Z
  else if t =? BlockSubSubHeader then 3%Z
  else 0%Z.

(** Indent levels that move by the sign of the change of rank from one
    header to the next; [prev] is the header before [rest]. *)
Fixpoint levelsBySign (prev : option Block) (indent : Z) (rest : list Block)
  : list Z :=
  match rest with
  | [] => []
  | b :: rest' =>
    let indent :=
      match prev with
      | None => indent
      | Some p =>
        (indent + Z.sgn (headerRank (Type_ b) - headerRank (Type_ p)))%Z
      end in
    indent :: levelsBySign (Some b) indent rest'
  end.

(** The settings of the converter and the stack of buffers set aside. *)
Definition sameSettings (c c' : Converter) : Prop :=
  Page_ c' = Page_ c
  /\ NotionCompat c' = NotionCompat c
  /\ UseKatexToRenderEquation c' = UseKatexToRenderEquation c
  /\ KatexPath c' = KatexPath c
  /\ AddHeaderAnchor c' = AddHeaderAnchor c
  /\ RewriteURL c' = RewriteURL c
  /\ FullHTML c' = FullHTML c
  /\ bufs c' = bufs c.

(** A step that only appends to the current buffer. *)
Definition onlyWrites (c c' : Converter) : Prop :=
  Derived.bufGrows c c' /\ sameSettings c c'.

(** The block types [DefaultRenderFunc] has a renderer for. *)
Definition renderedTypes : list string :=
  [BlockPage; BlockText; BlockEquation; BlockNumberedList; BlockBulletedList;
   BlockHeader; BlockSubHeader; BlockSubSubHeader; BlockTodo; BlockToggle;
   BlockQuote; BlockDivider; BlockCode; BlockBookmark; BlockImage;
   BlockColumnList; BlockColumn; BlockCollectionView;
   BlockCollectionViewPage; BlockEmbed; BlockGist; BlockMaps; BlockCodepen;
   BlockTweet; BlockVideo; BlockAudio; BlockFile; BlockDrive; BlockFigma;
   BlockPDF; BlockCallout; BlockTableOfContents; BlockBreadcrumb].

Definition isRenderedType (t : string) : bool :=
  existsb (String.eqb t) renderedTypes.

(** A converter that can take output: it has a buffer, it does not run
    katex, and its current index is within the active sequence. *)
Definition ready (c : Converter) : Prop :=
  Buf c <> None
  /\ UseKatexToRenderEquation c = false
  /\ (CurrBlockIdx c <= length (CurrBlocks c))%nat.

(** A command that returns on every such converter, and leaves one. *)
Definition steady (f : Cmd) : Prop :=
  forall c, ready c ->
            exists c', f c = Some c' /\ ready c' /\ Derived.sameSiblings c c'.

(** A page block with a cover has the format the cover position is read
    from. *)
Definition coverOK (b : Block) : bool :=
  (fst (PropAsString b "format.page_cover") =? "")
  || match FormatPage b with
     | Some _ => true
     | None => false
     end.

(** No collection view in a block and below it, and no page with a cover
    and without a format. *)
Fixpoint calm (b : Block) : bool :=
  negb (Type_ b =? BlockCollectionView)
  && negb (Type_ b =? BlockCollectionViewPage)
  && (negb (Type_ b =? BlockPage) || coverOK b)
  && (fix all (l : list Block) : bool :=
        match l with
        | [] => true
        | child :: rest => calm child && all rest
        end) (Content b).

(** The converter with typesetting turned off, and [p] for the path of
    katex, which is then not read. *)
Definition katexOff (p : string) (c : Converter) : Converter :=
  setKatexPath (setUseKatexToRenderEquation c false) p.

(** A command that does the same with typesetting on and off. *)
Definition blind (f : Cmd) : Prop :=
  forall p c, f (katexOff p c) = option_map (katexOff p) (f c).

(** An equation block as its raw inline content, when its spans carry no
    attributes: the figure around the escaped text. *)
Definition plainFigure (block : Block) : string :=
  "<figure id=" ++ q (ID block) ++ " class=" ++ q "equation" ++ ">"
  ++ EscapeHTML (concat (map Text (InlineContent block))) ++ "</figure>".

(** The five bytes that [EscapeHTML] rewrites. *)
Definition isMarkupByte (ch : ascii) : bool :=
  Ascii.eqb ch "&" || Ascii.eqb ch "'" || Ascii.eqb ch "<"
  || Ascii.eqb ch ">" || Ascii.eqb ch (ascii_of_nat 34).

End Notions.

(** ** [PageByID]: the related pages of a converter *)
Module PageLookup.
Import GoStrings Notionapi.

Section Lookup.

(** [notionapi.ToDashID] *)
Variable ToDashID : string -> string.

(** The two fields of [Converter] that [PageByID] reads and writes, the
    only function that uses them.  The map [idToPage] is a list of
    bindings, the most recent first: a binding hides the older ones of the
    same key, as an assignment to a map entry replaces the old value, and
    the map is empty exactly when the list is. *)
Record PageIndex : Type := mkPageIndex {
  Pages : list Page;
  idToPage : list (string * Page)
}.

(** [for _, page := range c.Pages { c.idToPage[ToDashID(page.ID)] = page }] *)
Definition buildIndex (pages : list Page) : list (string * Page) :=
  fold_left (fun m page => (ToDashID (PageID page), page) :: m) pages [].

(** [PageByID]: the page found, [None] for nil, and the converter with the
    map it may have built. *)
Definition PageByID (c : PageIndex) (pageID : string)
  : option Page * PageIndex :=
  match Pages c with
  | [] => (None, c)
  | _ :: _ =>
    let c :=
      match idToPage c with
      | [] => mkPageIndex (Pages c) (buildIndex (Pages c))
      | _ :: _ => c
      end in
    (lookup (idToPage c) (ToDashID pageID), c)
  end.

End Lookup.

End PageLookup.

(** * Properties *)

(** ** Strings *)
Module StringFacts.

Lemma append_nil_r (s : string) : s ++ "" = s.
Proof. induction s as [|ch s IH]; simpl; [reflexivity | now rewrite IH]. Qed.

Lemma append_assoc (s1 s2 s3 : string) : (s1 ++ s2) ++ s3 = s1 ++ s2 ++ s3.
Proof.
  induction s1 as [|ch s1 IH]; simpl; [reflexivity | now rewrite IH].
Qed.

Lemma append_eq_nil (s1 s2 : string) : s1 ++ s2 = "" -> s1 = "" /\ s2 = "".
Proof. destruct s1; simpl; [auto | discriminate]. Qed.

End StringFacts.

(** ** Loops over a slice from its last index down *)
Module ListFacts.

Lemma map_reverse_index {A : Type} (l : list A) :
  map (fun i => nth_error l (List.length l - i - 1)) (seq 0 (List.length l))
  = map Some (rev l).
Proof.
  induction l as [|x l IH] using rev_ind; [reflexivity|].
  rewrite rev_unit, length_app, Nat.add_comm.
  change (List.length [x] + List.length l) with (S (List.length l)).
  rewrite <- cons_seq, <- seq_shift, !map_cons, map_map.
  f_equal.
  - replace (S (List.length l) - 0 - 1) with (List.length l) by lia.
    rewrite nth_error_app2 by lia. now rewrite Nat.sub_diag.
  - rewrite <- IH. apply map_ext_in. intros i Hi. apply in_seq in Hi.
    replace (S (List.length l) - S i - 1) with (List.length l - i - 1) by lia.
    apply nth_error_app1. lia.
Qed.

Lemma fold_left_option_map {A S : Type} (f : S -> A -> S) {I : Type}
      (F : I -> option A) (idxs : list I) :
  forall init,
    fold_left (fun st i => match F i with Some a => f st a | None => st end)
              idxs init
    = fold_left (fun st o => match o with Some a => f st a | None => st end)
                (map F idxs) init.
Proof. induction idxs as [|i idxs IH]; intro init; simpl; auto. Qed.

Lemma fold_left_map_Some {A S : Type} (f : S -> A -> S) (l : list A) :
  forall init,
    fold_left (fun st o => match o with Some a => f st a | None => st end)
              (map Some l) init
    = fold_left f l init.
Proof. induction l as [|x l IH]; intro init; simpl; auto. Qed.

Lemma fold_reverse_index {A S : Type} (f : S -> A -> S) (l : list A) init :
    fold_left
      (fun st i =>
         match nth_error l (List.length l - i - 1) with
         | Some a => f st a
         | None => st
         end)
      (seq 0 (List.length l)) init
    = fold_left f (rev l) init.
Proof.
  rewrite (fold_left_option_map f (fun i => nth_error l (List.length l - i - 1))).
  rewrite map_reverse_index. apply fold_left_map_Some.
Qed.

Lemma fold_left_ext {A S : Type} (f g : S -> A -> S) (l : list A) :
  (forall st a, f st a = g st a) ->
  forall init, fold_left f l init = fold_left g l init.
Proof.
  intro H. induction l as [|x l IH]; intro init; cbn [fold_left];
    [reflexivity | now rewrite H, IH].
Qed.

(** The same with the index written [len - 1 - i]. *)
Lemma fold_reverse_index_alt {A S : Type} (f : S -> A -> S) (l : list A)
      init :
    fold_left
      (fun st i =>
         match nth_error l (List.length l - 1 - i) with
         | Some a => f st a
         | None => st
         end)
      (seq 0 (List.length l)) init
    = fold_left f (rev l) init.
Proof.
  rewrite <- fold_reverse_index. apply fold_left_ext. intros st i.
  now replace (List.length l - 1 - i) with (List.length l - i - 1) by lia.
Qed.

End ListFacts.

(** ** The inline-token parser *)
Module InlineFacts.
Import Inline.

Section Facts.

Variable unmarshalDate : list (string * JSON) -> option Date.

Lemma parseInlineBlocks_loop_length (a : list JSON) :
  forall res spans,
    parseInlineBlocks_loop unmarshalDate res a = Ok spans ->
    List.length spans = List.length res + List.length a.
Proof.
  induction a as [|v rest IH]; intros res spans H; simpl in H.
  - injection H as <-. simpl. lia.
  - destruct v as [| | | |a2|]; try discriminate.
    destruct (parseInlineBlock unmarshalDate a2) as [blk|e|]; try discriminate.
    apply IH in H. rewrite H, length_app. simpl. lia.
Qed.

(** The malformed shapes that the parser reports as errors. *)
Lemma parseInlineBlocks_not_array (raw : JSON) :
  isJArr raw = false ->
  is_err (parseInlineBlocks unmarshalDate raw) = true.
Proof. now destruct raw. Qed.

Lemma parseInlineBlocks_span_not_array (v : JSON) (rest : list JSON) :
  isJArr v = false ->
  is_err (parseInlineBlocks unmarshalDate (JArr (v :: rest))) = true.
Proof. now destruct v. Qed.

Lemma parseInlineBlocks_span_error (a2 rest : list JSON) :
  is_err (parseInlineBlock unmarshalDate a2) = true ->
  is_err (parseInlineBlocks unmarshalDate (JArr (JArr a2 :: rest))) = true.
Proof.
  cbn [parseInlineBlocks parseInlineBlocks_loop].
  now destruct (parseInlineBlock unmarshalDate a2).
Qed.

Lemma parseInlineBlock_bad_length :
  is_err (parseInlineBlock unmarshalDate []) = true
  /\ forall x y z rest,
       is_err (parseInlineBlock unmarshalDate (x :: y :: z :: rest)) = true.
Proof. split; [reflexivity | now intros]. Qed.

Lemma parseInlineBlock_first_not_text (x : JSON) :
  isJStr x = false ->
  is_err (parseInlineBlock unmarshalDate [x]) = true
  /\ forall y, is_err (parseInlineBlock unmarshalDate [x; y]) = true.
Proof. now destruct x. Qed.

Lemma parseInlineBlock_attrs_error (s : string) (attrs : list JSON) :
  is_err (parseAttributes unmarshalDate (newInlineBlock s) attrs) = true ->
  is_err (parseInlineBlock unmarshalDate [JStr s; JArr attrs]) = true.
Proof. now cbn [parseInlineBlock]. Qed.

Lemma parseAttributes_attr_error (b : InlineBlock) (a rest : list JSON) :
  is_err (parseAttribute unmarshalDate b a) = true ->
  is_err (parseAttributes unmarshalDate b (JArr a :: rest)) = true.
Proof.
  cbn [parseAttributes]. now destruct (parseAttribute unmarshalDate b a).
Qed.

Lemma parseAttribute_bad_length (b : InlineBlock) :
  is_err (parseAttribute unmarshalDate b []) = true
  /\ forall x y z rest,
       is_err (parseAttribute unmarshalDate b (x :: y :: z :: rest)) = true.
Proof. split; [reflexivity|]. intros x y z rest. now destruct x. Qed.

Lemma parseAttribute_unknown_flag (b : InlineBlock) (s : string) :
  (s =? "b") || (s =? "i") || (s =? "s") || (s =? "c") = false ->
  is_err (parseAttribute unmarshalDate b [JStr s]) = true.
Proof.
  intro H. cbn [parseAttribute].
  destruct (s =? "b"), (s =? "i"), (s =? "s"), (s =? "c");
    try discriminate; reflexivity.
Qed.

Lemma parseAttribute_unknown_code (b : InlineBlock) (s : string) (v : JSON) :
  (s =? "a") || (s =? "u") || (s =? "m") || (s =? "d") = false ->
  is_err (parseAttribute unmarshalDate b [JStr s; v]) = true.
Proof.
  intro H. cbn [parseAttribute].
  destruct (s =? "a"), (s =? "u"), (s =? "m"), (s =? "d");
    try discriminate; reflexivity.
Qed.

Lemma parseAttribute_payload_not_string (b : InlineBlock) (s : string)
      (v : JSON) :
  (s =? "a") || (s =? "u") || (s =? "m") = true ->
  isJStr v = false ->
  is_err (parseAttribute unmarshalDate b [JStr s; v]) = true.
Proof.
  intros H Hv. cbn [parseAttribute]. rewrite H. now destruct v.
Qed.

(** C10.  An empty outer array is a decode error, and whenever the parser
    succeeds it returns at least one span. *)
Theorem parseInlineBlocks_never_empty :
  parseInlineBlocks unmarshalDate (JArr []) = Err "raw is empty"
  /\ forall raw spans,
       parseInlineBlocks unmarshalDate raw = Ok spans -> spans <> [].
Proof.
  split; [reflexivity|].
  intros raw spans H. destruct raw as [| | | |a|]; try discriminate.
  destruct a as [|v rest]; [discriminate|].
  unfold parseInlineBlocks in H.
  apply parseInlineBlocks_loop_length in H.
  intros ->. simpl in H. lia.
Qed.

(** C6.  A [d] attribute whose payload is not an object: the parser
    panics on the unchecked type assertion instead of returning an
    error. *)
Theorem parseInlineBlocks_date_payload_panics :
  parseInlineBlocks unmarshalDate
    (JArr [JArr [JStr "today"; JArr [JArr [JStr "d"; JStr "2019-01-01"]]]])
  = Panic.
Proof. reflexivity. Qed.

End Facts.

Lemma parseInlineBlocks_never_empty_witness :
  Inline.parseInlineBlocks Examples.unmarshalDate
    (JArr [JArr [JStr "hello"; JArr [JArr [JStr "b"]]]])
  = Ok [mkInlineBlock "hello" 1 "" "" "" None]
  /\ [mkInlineBlock "hello" 1 "" "" "" None] <> [].
Proof.
  split; [reflexivity|].
  apply (proj2 (parseInlineBlocks_never_empty Examples.unmarshalDate)
               (JArr [JArr [JStr "hello"; JArr [JArr [JStr "b"]]]])).
  reflexivity.
Defined.

End InlineFacts.

(** ** Inline rendering *)
Module InlineRenderFacts.
Import GoStrings Notionapi Tohtml2 Derived StringFacts ListFacts.

Section Facts.

Variable E : Env.
Variable c : Converter.

Lemma RenderInline_loop_rev (attrs : list TextAttr) (text : string) :
  RenderInline_loop E c attrs text
  = fold_left (applyAttr E c) (rev attrs) ("", "", text).
Proof. apply fold_reverse_index. Qed.

(** A round only appends to [start] and only prepends to [close]. *)
Lemma applyAttr_frame (a : TextAttr) (s cl t : string) :
  applyAttr E c (s, cl, t) a
  = let '(s', cl', t') := applyAttr E c ("", "", t) a in
    (s ++ s', cl' ++ cl, t').
Proof.
  destruct a; cbn [applyAttr]; rewrite ?append_nil_r; try reflexivity.
  destruct (match RewriteURL c with Some f => f uri | None => uri end =? "");
    reflexivity.
Qed.

Lemma fold_applyAttr_frame (l : list TextAttr) :
  forall s cl t,
    fold_left (applyAttr E c) l (s, cl, t)
    = let '(s', cl', t') := fold_left (applyAttr E c) l ("", "", t) in
      (s ++ s', cl' ++ cl, t').
Proof.
  induction l as [|a l IH]; intros s cl t.
  - simpl. now rewrite append_nil_r.
  - cbn [fold_left]. rewrite (applyAttr_frame a s cl t).
    destruct (applyAttr E c ("", "", t) a) as [[s1 cl1] t1].
    rewrite (IH (s ++ s1) (cl1 ++ cl) t1), (IH s1 cl1 t1).
    destruct (fold_left (applyAttr E c) l ("", "", t1)) as [[s2 cl2] t2].
    now rewrite !append_assoc.
Qed.

Lemma applyAttr_wraps (a : TextAttr) (s cl t : string) :
  wraps a = true ->
  applyAttr E c (s, cl, t) a = (s ++ openTag c a, closeTag a ++ cl, t).
Proof.
  destruct a; try discriminate; intros _; cbn [applyAttr openTag closeTag];
    try reflexivity.
  unfold rewritten.
  destruct (match RewriteURL c with Some f => f uri | None => uri end =? "");
    reflexivity.
Qed.

(** C1, as the code has it.  Among wrapping attributes the one declared
    last gives the outermost pair of tags: its pair encloses all that the
    attributes declared before it produce.  The one declared first gives
    the innermost pair, right around the escaped text. *)
Theorem RenderInline_last_declared_outermost
        (attrs : list TextAttr) (a : TextAttr) (text : string) :
  wraps a = true ->
  RenderInline_html E c (mkTextSpan text (attrs ++ [a]))
  = openTag c a ++ RenderInline_html E c (mkTextSpan text attrs)
    ++ closeTag a
  /\ (let '(start, close, text') := RenderInline_loop E c attrs text in
      RenderInline_html E c (mkTextSpan text (a :: attrs))
      = start ++ openTag c a ++ EscapeHTML text' ++ closeTag a ++ close).
Proof.
  intro Hw. unfold RenderInline_html. cbn [Attrs Text]. split.
  - rewrite !RenderInline_loop_rev, rev_unit. cbn [fold_left].
    rewrite (applyAttr_wraps a "" "" text Hw). cbn ["++"%string].
    rewrite append_nil_r, fold_applyAttr_frame.
    destruct (fold_left (applyAttr E c) (rev attrs) ("", "", text))
      as [[s1 cl1] t1].
    now rewrite !append_assoc.
  - rewrite !RenderInline_loop_rev. cbn [rev]. rewrite fold_left_app.
    cbn [fold_left].
    destruct (fold_left (applyAttr E c) (rev attrs) ("", "", text))
      as [[s1 cl1] t1].
    rewrite (applyAttr_wraps a s1 cl1 t1 Hw).
    now rewrite !append_assoc.
Qed.

(** C2, as the code has it.  Declared [bold, link]: the anchor is outside
    and the strong element inside; the anchor carries the escaped,
    rewritten link as its href unless that link is empty. *)
Theorem RenderInline_bold_link (t uri : string) :
  RenderInline_html E c (mkTextSpan t [AttrBold; AttrLink uri])
  = (if rewritten c uri =? "" then "<a>"
     else "<a href=" ++ q (EscapeHTML (rewritten c uri)) ++ ">")
    ++ "<strong>" ++ EscapeHTML t ++ "</strong></a>".
Proof.
  unfold RenderInline_html. cbn [Attrs Text].
  rewrite RenderInline_loop_rev. cbn [rev app fold_left].
  rewrite (applyAttr_wraps (AttrLink uri) "" "" t eq_refl).
  rewrite (applyAttr_wraps AttrBold _ _ t eq_refl).
  cbn [openTag closeTag].
  destruct (rewritten c uri =? ""); cbn ["++"%string];
    now rewrite ?append_assoc.
Qed.

End Facts.

Lemma RenderInline_last_declared_outermost_witness :
  RenderInline_html Examples.env Examples.converter
    (mkTextSpan "t" ([AttrBold] ++ [AttrItalic]))
  = "<em><strong>t</strong></em>".
Proof.
  exact (proj1 (RenderInline_last_declared_outermost
                  Examples.env Examples.converter [AttrBold] AttrItalic "t"
                  eq_refl)).
Defined.

(** C1 as it is worded fails: declared [bold, italic], the element of the
    attribute declared last, [em], is not the one around the text. *)
Lemma RenderInline_last_declared_not_innermost :
  RenderInline_html Examples.env Examples.converter
    (mkTextSpan "t" [AttrBold; AttrItalic])
  = "<em><strong>t</strong></em>"
  /\ lastDeclaredInnermost Examples.converter [AttrBold; AttrItalic] "t"
     = "<strong><em>t</em></strong>"
  /\ RenderInline_html Examples.env Examples.converter
       (mkTextSpan "t" [AttrBold; AttrItalic])
     <> lastDeclaredInnermost Examples.converter [AttrBold; AttrItalic] "t".
Proof. repeat split; try reflexivity. discriminate. Qed.

(** C2 as it is worded fails on an empty link: the anchor has no href. *)
Lemma RenderInline_bold_empty_link :
  RenderInline_html Examples.env Examples.converter
    (mkTextSpan "t" [AttrBold; AttrLink ""])
  = "<a><strong>t</strong></a>"
  /\ RenderInline_html Examples.env Examples.converter
       (mkTextSpan "t" [AttrBold; AttrLink ""])
     <> "<a href=" ++ q (EscapeHTML (rewritten Examples.converter ""))
        ++ "><strong>" ++ EscapeHTML "t" ++ "</strong></a>".
Proof. split; [reflexivity | discriminate]. Qed.

End InlineRenderFacts.

(** ** The primitive commands *)
Module CmdFacts.
Import GoStrings Notionapi Tohtml2 Derived StringFacts.

Lemma setBuf_Buf (c : Converter) : setBuf c (Buf c) = c.
Proof. now destruct c. Qed.

Lemma Printf_Some (s b : string) (c : Converter) :
  Buf c = Some b -> Printf s c = Some (setBuf c (Some (b ++ s))).
Proof. unfold Printf. now intros ->. Qed.

Lemma andThen_Some (f g : Cmd) (c c1 : Converter) :
  f c = Some c1 -> (f ;; g) c = g c1.
Proof. unfold andThen. now intros ->. Qed.

Lemma andThen_Printf (s b : string) (g : Cmd) (c : Converter) :
  Buf c = Some b -> (Printf s ;; g) c = g (setBuf c (Some (b ++ s))).
Proof. intro H. unfold andThen. now rewrite (Printf_Some s b c H). Qed.

Lemma andThen_inv (f g : Cmd) (c c2 : Converter) :
  (f ;; g) c = Some c2 -> exists c1, f c = Some c1 /\ g c1 = Some c2.
Proof.
  unfold andThen. destruct (f c) as [c1|]; [|discriminate].
  intro H. now exists c1.
Qed.

Section Facts.

Variable E : Env.

(** The rendering of spans reads the page and the rewrite hook only. *)
Lemma inlinesHTML_ext (spans : list TextSpan) (c c' : Converter) :
  Page_ c' = Page_ c -> RewriteURL c' = RewriteURL c ->
  inlinesHTML E c' spans = inlinesHTML E c spans.
Proof.
  destruct c, c'. cbn [Page_ RewriteURL]. intros -> ->. reflexivity.
Qed.

(** [RenderInlines] appends the rendering of each span, in order. *)
Lemma RenderInlines_spec (spans : list TextSpan) :
  forall c b,
    Buf c = Some b ->
    RenderInlines E spans c
    = Some (setBuf c (Some (b ++ inlinesHTML E c spans))).
Proof.
  induction spans as [|span rest IH]; intros c b Hb.
  - cbn. rewrite append_nil_r, <- Hb. now rewrite setBuf_Buf.
  - cbn [RenderInlines].
    rewrite (andThen_Some (RenderInline E span) _ c _
                          (Printf_Some _ b c Hb)).
    rewrite (IH (setBuf c (Some (b ++ RenderInline_html E c span)))
                (b ++ RenderInline_html E c span) eq_refl).
    unfold inlinesHTML. cbn [map GoStrings.concat].
    now rewrite append_assoc.
Qed.

(** [GetInlineContent] returns that rendering and leaves the converter as
    it was, whatever the current buffer is. *)
Lemma GetInlineContent_spec (spans : list TextSpan) (c : Converter) :
  GetInlineContent E spans c = Some (inlinesHTML E c spans, c).
Proof.
  destruct spans as [|span rest]; [reflexivity|].
  unfold GetInlineContent.
  rewrite (andThen_Some PushNewBuffer _ c _ eq_refl).
  rewrite (RenderInlines_spec _ (setBuf (setBufs c (bufs c ++ [Buf c])%list)
                                        (Some "")) "" eq_refl).
  unfold PopBuffer. cbn [bufs setBuf setBufs Buf].
  rewrite rev_unit, removelast_last. cbn ["++"%string].
  now destruct c.
Qed.

(** The same facts for a converter written [setBuf c (Some b)], the form
    in which a sequence of commands is run step by step. *)
Lemma run_Printf (s b : string) (g : Cmd) (c : Converter) :
  (Printf s ;; g) (setBuf c (Some b)) = g (setBuf c (Some (b ++ s))).
Proof. reflexivity. Qed.

Lemma run_Printf_last (s b : string) (c : Converter) :
  Printf s (setBuf c (Some b)) = Some (setBuf c (Some (b ++ s))).
Proof. reflexivity. Qed.

Lemma run_RenderInlines_last (spans : list TextSpan) (b : string)
      (c : Converter) :
  RenderInlines E spans (setBuf c (Some b))
  = Some (setBuf c (Some (b ++ inlinesHTML E c spans))).
Proof.
  now rewrite (RenderInlines_spec spans (setBuf c (Some b)) b eq_refl).
Qed.

Lemma run_RenderInlines (spans : list TextSpan) (b : string) (g : Cmd)
      (c : Converter) :
  (RenderInlines E spans ;; g) (setBuf c (Some b))
  = g (setBuf c (Some (b ++ inlinesHTML E c spans))).
Proof. unfold andThen. now rewrite run_RenderInlines_last. Qed.

Lemma run_GetInlineContent (spans : list TextSpan) (b : string)
      (c : Converter) :
  GetInlineContent E spans (setBuf c (Some b))
  = Some (inlinesHTML E c spans, setBuf c (Some b)).
Proof. now rewrite GetInlineContent_spec. Qed.

Lemma run_skip (g : Cmd) (c : Converter) : (skip ;; g) c = g c.
Proof. reflexivity. Qed.

Lemma andThen_assoc (f g h : Cmd) (c : Converter) :
  ((f ;; g) ;; h) c = (f ;; (g ;; h)) c.
Proof. unfold andThen. now destruct (f c). Qed.

(** A converter whose buffer is [Some b] is of that form. *)
Lemma as_setBuf (c : Converter) (b : string) :
  Buf c = Some b -> c = setBuf c (Some b).
Proof. intros <-. symmetry. apply setBuf_Buf. Qed.

End Facts.

End CmdFacts.

(** ** Collection cells *)
Module CollectionFacts.
Import GoStrings Notionapi Tohtml2 Derived StringFacts ListFacts CmdFacts.

Lemma escapeByte_not_nil (ch : ascii) : escapeByte ch <> "".
Proof.
  unfold escapeByte.
  repeat match goal with |- context [if ?b then _ else _] => destruct b end;
    discriminate.
Qed.

Lemma html_EscapeString_nil (s : string) :
  html_EscapeString s = "" -> s = "".
Proof.
  destruct s as [|ch rest]; [reflexivity|]. cbn [html_EscapeString].
  intro H. apply append_eq_nil in H. now destruct (escapeByte_not_nil ch).
Qed.

Lemma Replace_nil (s old new : string) :
  new <> "" -> Replace s old new = "" -> s = "".
Proof.
  intros Hnew. destruct s as [|ch rest]; [reflexivity|].
  unfold Replace. cbn [Replace_from].
  destruct (prefix old (String ch rest)); [|discriminate].
  intro H. apply append_eq_nil in H. now destruct Hnew.
Qed.

Lemma EscapeHTML_nil (s : string) : EscapeHTML s = "" <-> s = "".
Proof.
  split; [|now intros ->]. unfold EscapeHTML. intro H.
  apply Replace_nil in H; [|discriminate].
  apply Replace_nil in H; [|discriminate].
  now apply html_EscapeString_nil.
Qed.

Lemma EscapeHTML_eqb_nil (s : string) : (EscapeHTML s =? "") = (s =? "").
Proof.
  destruct (String.eqb_spec s "") as [->|Hs]; [reflexivity|].
  apply String.eqb_neq. intro H. apply Hs. now apply EscapeHTML_nil.
Qed.

Lemma fold_selectedValue (l : list string) :
  forall acc,
    fold_left
      (fun s entry =>
         let v := EscapeHTML entry in
         if v =? "" then s
         else s ++ "<span class=" ++ q "selected-value" ++ ">" ++ v
                ++ "</span>")
      l acc
    = acc ++ GoStrings.concat (map selectedValue (filter nonEmpty l)).
Proof.
  induction l as [|e l IH]; intro acc; cbn [fold_left filter].
  - cbn. now rewrite append_nil_r.
  - rewrite IH. cbv zeta. rewrite EscapeHTML_eqb_nil. unfold nonEmpty at 2.
    destruct (e =? ""); cbn [negb map GoStrings.concat]; [reflexivity|].
    unfold selectedValue at 2. now rewrite !append_assoc.
Qed.

(** The entries of a cell value come out last one first, each in its own
    span, the empty ones left out. *)
Lemma multiSelectHTML_spec (colVal : string) :
  multiSelectHTML colVal
  = GoStrings.concat
      (map selectedValue (filter nonEmpty (rev (Split colVal ",")))).
Proof.
  unfold multiSelectHTML. cbv zeta.
  rewrite (fold_reverse_index_alt
             (fun s entry =>
                if EscapeHTML entry =? "" then s
                else s ++ "<span class=" ++ q "selected-value" ++ ">"
                       ++ EscapeHTML entry ++ "</span>")
             (Split colVal ",") "").
  apply fold_selectedValue.
Qed.

Section Facts.

Variable E : Env.

(** C5.  A cell of a [multi_select] column whose value renders to
    [colVal]: one span per non-empty entry of [Split colVal ","], the last
    entry first; the value [A,B,C] gives the spans of C, B, A. *)
Theorem multi_select_cell_reverse_order
        (parents : list Block) (collection : Collection) (row : Block)
        (col : TableProperty) (c : Converter) (b0 : string)
        (raw : JSON) (spans : list TextSpan) (colInfo : ColumnSchema) :
  Buf c = Some b0 ->
  match lookup (Properties row) (Property col) with
  | Some v => v
  | None => JNull
  end = raw ->
  ParseTextSpans E raw = Ok spans ->
  lookup (CollectionSchema collection) (Property col) = Some colInfo ->
  ColType colInfo = "multi_select" ->
  RenderCollectionView_cell E parents collection row col c
  = Some (setBuf c
            (Some (b0 ++ "<td class="
                      ++ q ("cell-" ++ EscapeHTML (Property col)) ++ ">"
                      ++ GoStrings.concat
                           (map selectedValue
                              (filter nonEmpty
                                 (rev (Split (inlinesHTML E c spans) ","))))
                      ++ "</td>")))
  /\ multiSelectHTML "A,B,C"
     = selectedValue "C" ++ selectedValue "B" ++ selectedValue "A".
Proof.
  intros Hb Hraw Hparse Hinfo Hty. split; [|reflexivity].
  unfold RenderCollectionView_cell. cbv zeta.
  rewrite Hraw, Hparse, GetInlineContent_spec, Hinfo, Hty.
  cbn [String.eqb Ascii.eqb Bool.eqb].
  rewrite multiSelectHTML_spec.
  now rewrite (Printf_Some _ b0 c Hb).
Qed.

End Facts.

Lemma multi_select_cell_reverse_order_witness :
  RenderCollectionView_cell Examples.env [] Examples.tagsCollection
    Examples.tagsRow Examples.tagsColumn Examples.converter
  = Some (setBuf Examples.converter
            (Some ("<td class=" ++ q "cell-tags" ++ ">"
                   ++ selectedValue "C" ++ selectedValue "B"
                   ++ selectedValue "A" ++ "</td>"))).
Proof.
  exact (proj1 (multi_select_cell_reverse_order
                  Examples.env [] Examples.tagsCollection Examples.tagsRow
                  Examples.tagsColumn Examples.converter ""
                  (JArr [JArr [JStr "A,B,C"]]) [mkTextSpan "A,B,C" []]
                  (mkColumnSchema "Tags" "multi_select")
                  eq_refl eq_refl eq_refl eq_refl eq_refl)).
Defined.

End CollectionFacts.

(** ** The table of contents *)
Module TocFacts.
Import GoStrings Notionapi Tohtml2 Derived StringFacts CmdFacts.

Section Facts.

Variable E : Env.

Lemma RenderTableOfContents_loop_spec (blocks rest : list Block) :
  forall i indent c b0,
    RenderTableOfContents_loop E blocks rest i indent (setBuf c (Some b0))
    = Some (setBuf c
              (Some (b0 ++ tocEntries E c
                             (tocIndents_from blocks rest i indent) rest))).
Proof.
  induction rest as [|b rest IH]; intros i indent c b0.
  - cbn. now rewrite append_nil_r.
  - cbn [RenderTableOfContents_loop tocIndents_from tocEntries]. cbv zeta.
    unfold andThen at 1. rewrite run_GetInlineContent.
    rewrite !run_Printf, run_Printf_last, IH.
    unfold tocEntry. now rewrite !append_assoc.
Qed.

(** [RenderTableOfContents] writes one entry per header of the page, at
    the running sum of the steps of [adjustIndent]. *)
Lemma RenderTableOfContents_spec (block : Block) (c : Converter)
      (b0 : string) :
  Buf c = Some b0 ->
  RenderTableOfContents E block c
  = Some (setBuf c
            (Some (b0 ++ tocOpen E block
                      ++ tocEntries E c
                           (tocIndents
                              (getHeaderBlocks (Content (Root (Page_ c)))))
                           (getHeaderBlocks (Content (Root (Page_ c))))
                      ++ "</nav>"))).
Proof.
  intro Hb. rewrite (as_setBuf c b0 Hb) at 1.
  unfold RenderTableOfContents. cbv zeta.
  rewrite run_Printf. unfold andThen.
  cbn [Page_ setBuf].
  rewrite RenderTableOfContents_loop_spec, run_Printf_last.
  unfold tocOpen, tocIndents. now rewrite !append_assoc.
Qed.

(** C4, as the code has it.  Headers of ranks H1, H2, H3, H2, H1 get the
    indent levels 0, 1, 2, 1, 0: each step up adds one, each step down
    takes one off. *)
Theorem RenderTableOfContents_indents
        (block : Block) (c : Converter) (b0 : string)
        (h1 h2 h3 h4 h5 : Block) :
  Buf c = Some b0 ->
  getHeaderBlocks (Content (Root (Page_ c))) = [h1; h2; h3; h4; h5] ->
  Type_ h1 = BlockHeader -> Type_ h2 = BlockSubHeader ->
  Type_ h3 = BlockSubSubHeader -> Type_ h4 = BlockSubHeader ->
  Type_ h5 = BlockHeader ->
  RenderTableOfContents E block c
  = Some (setBuf c
            (Some (b0 ++ tocOpen E block
                      ++ tocEntries E c [0; 1; 2; 1; 0]%Z
                                    [h1; h2; h3; h4; h5]
                      ++ "</nav>"))).
Proof.
  intros Hb Hhs T1 T2 T3 T4 T5.
  rewrite (RenderTableOfContents_spec block c b0 Hb), Hhs.
  unfold tocIndents.
  cbn [tocIndents_from adjustIndent nth_error].
  rewrite T1, T2, T3, T4, T5. reflexivity.
Qed.

End Facts.

Lemma RenderTableOfContents_indents_witness :
  RenderTableOfContents Examples.env Examples.tocBlock Examples.tocConverter
  = Some (setBuf Examples.tocConverter
            (Some ("" ++ tocOpen Examples.env Examples.tocBlock
                      ++ tocEntries Examples.env Examples.tocConverter
                           [0; 1; 2; 1; 0]%Z
                           [Examples.block "a" BlockHeader []
                                           [mkTextSpan "A" []];
                            Examples.block "b" BlockSubHeader []
                                           [mkTextSpan "B" []];
                            Examples.block "c" BlockSubSubHeader []
                                           [mkTextSpan "C" []];
                            Examples.block "d" BlockSubHeader []
                                           [mkTextSpan "D" []];
                            Examples.block "e" BlockHeader []
                                           [mkTextSpan "E" []]]
                      ++ "</nav>"))).
Proof.
  apply (RenderTableOfContents_indents Examples.env Examples.tocBlock
           Examples.tocConverter "");
    reflexivity.
Defined.

(** C4 as it is worded fails: on that page the entries are not written at
    the levels 0, 1, 1, 0, -1. *)
Lemma RenderTableOfContents_indents_differ :
  RenderTableOfContents Examples.env Examples.tocBlock Examples.tocConverter
  <> Some (setBuf Examples.tocConverter
             (Some ("" ++ tocOpen Examples.env Examples.tocBlock
                       ++ tocEntries Examples.env Examples.tocConverter
                            [0; 1; 1; 0; -1]%Z
                            (getHeaderBlocks
                               (Content (Root Examples.tocPage)))
                       ++ "</nav>"))).
Proof.
  intro H.
  assert (H' := f_equal
                  (fun o => match o with
                            | Some c => match Buf c with
                                        | Some s => s
                                        | None => ""
                                        end
                            | None => ""
                            end) H).
  cbv beta in H'. revert H'. apply String.eqb_neq. vm_compute. reflexivity.
Qed.

End TocFacts.

(** ** Equations and the katex binary *)
Module KatexFacts.
Import GoStrings Notionapi Tohtml2 Derived StringFacts CmdFacts.

Section Facts.

Variable E : Env.

Lemma RenderBlock_unfold (parents : list Block) (block : Block) :
  RenderBlock E parents block
  = RenderBlock_body E (RenderChildren E parents) parents block.
Proof. now destruct block. Qed.

(** Without typesetting an equation block is a figure around its inline
    content. *)
Lemma RenderEquation_plain (block : Block) (c : Converter) (b0 : string) :
  UseKatexToRenderEquation c = false ->
  RenderEquation E block (setBuf c (Some b0))
  = Some (setBuf c (Some (b0 ++ equationFigure E c block))).
Proof.
  intro Hk. unfold RenderEquation. cbn [UseKatexToRenderEquation setBuf].
  rewrite Hk. cbn [negb].
  rewrite run_Printf, run_RenderInlines, run_Printf_last.
  unfold equationFigure. now rewrite !append_assoc.
Qed.

Lemma RenderEquation_failed (block : Block) (c : Converter) (b0 msg : string) :
  UseKatexToRenderEquation c = true ->
  equationToHTML E (KatexPath c) (TextSpansToString E (InlineContent block))
  = Err msg ->
  RenderEquation E block (setBuf c (Some b0))
  = Some (setBuf c (Some (b0 ++ equationFigure E c block))).
Proof.
  intros Hk Herr. unfold RenderEquation.
  cbn [UseKatexToRenderEquation KatexPath setBuf].
  rewrite Hk. cbn [negb]. cbv zeta. rewrite Herr.
  rewrite run_Printf, run_RenderInlines, run_Printf_last.
  unfold equationFigure. now rewrite !append_assoc.
Qed.

Lemma Printf_nil_Buf (s : string) (c : Converter) :
  Buf c = None -> Printf s c = None.
Proof. unfold Printf. now intros ->. Qed.

Lemma setUseKatexToRenderEquation_same (c : Converter) :
  UseKatexToRenderEquation c = true ->
  setUseKatexToRenderEquation c true = c.
Proof. destruct c. cbn. now intros ->. Qed.

(** C8.  Typesetting asked for, by the flag or by compatibility mode, and
    no binary at the configured path nor on the search path: [ToHTML]
    returns an error and leaves the converter as it was, the typesetting
    flag apart: nothing is pushed, nothing is rendered.  Typesetting not
    asked for: [ToHTML] goes straight to rendering, whatever the file
    system holds, and never returns an error. *)
Theorem ToHTML_katex_check (c : Converter) :
  (NotionCompat c || UseKatexToRenderEquation c = true ->
   KatexPath c = "" \/ os_Stat E (KatexPath c) = false ->
   exec_LookPath E "katex" = None ->
   exists msg,
     ToHTML E c = (Err msg, setUseKatexToRenderEquation c true))
  /\ (NotionCompat c = false ->
      UseKatexToRenderEquation c = false ->
      ToHTML E c
      = match (PushNewBuffer ;; RenderBlock E [] (Root (Page_ c))) c with
        | None => (Panic, c)
        | Some c1 =>
          match PopBuffer c1 with
          | None => (Panic, c1)
          | Some (None, c2) => (Panic, c2)
          | Some (Some html, c2) => (Ok html, c2)
          end
        end
      /\ forall msg, fst (ToHTML E c) <> Err msg).
Proof.
  split.
  - intros Hreq Hpath Hlook. unfold ToHTML. cbv zeta.
    set (c0 := if NotionCompat c
               then setUseKatexToRenderEquation c true else c).
    assert (H0 : c0 = setUseKatexToRenderEquation c true).
    { subst c0. destruct (NotionCompat c); [reflexivity|].
      symmetry. now apply setUseKatexToRenderEquation_same. }
    clearbody c0. subst c0.
    cbn [UseKatexToRenderEquation setUseKatexToRenderEquation].
    unfold detectKatex. cbv zeta.
    cbn [KatexPath setUseKatexToRenderEquation]. rewrite Hlook.
    assert (Hfound : (if KatexPath c =? "" then false
                      else os_Stat E (KatexPath c)) = false).
    { destruct Hpath as [-> | Hstat]; [reflexivity|].
      rewrite Hstat. now destruct (KatexPath c =? ""). }
    rewrite Hfound.
    destruct (KatexPath c =? ""); eexists; reflexivity.
  - intros Hcompat Hk.
    assert (Heq : ToHTML E c
                  = match (PushNewBuffer ;; RenderBlock E [] (Root (Page_ c)))
                            c with
                    | None => (Panic, c)
                    | Some c1 =>
                      match PopBuffer c1 with
                      | None => (Panic, c1)
                      | Some (None, c2) => (Panic, c2)
                      | Some (Some html, c2) => (Ok html, c2)
                      end
                    end).
    { unfold ToHTML. rewrite Hcompat, Hk. reflexivity. }
    split; [exact Heq|].
    intros msg. rewrite Heq.
    destruct ((PushNewBuffer ;; RenderBlock E [] (Root (Page_ c))) c)
      as [c1|]; [|discriminate].
    destruct (PopBuffer c1) as [[[html|] c2]|]; discriminate.
Qed.

End Facts.

Lemma ToHTML_katex_check_witness :
  exists msg,
    ToHTML Examples.env Examples.equationConverter
    = (Err msg,
       setUseKatexToRenderEquation Examples.equationConverter true).
Proof.
  apply (proj1 (ToHTML_katex_check Examples.env Examples.equationConverter));
    [reflexivity | left; reflexivity | reflexivity].
Defined.

End KatexFacts.

(** ** What rendering keeps of the converter *)
Module FrameFacts.
Import GoStrings Notionapi Tohtml2 Derived StringFacts CmdFacts.

Lemma Block_tree_ind (Q : Block -> Prop) :
  (forall b, Forall Q (Content b) -> Q b) -> forall b, Q b.
Proof.
  intro H.
  refine (fix IH (b : Block) : Q b := H b _).
  destruct b as [id ty content title spans code source link files checked
                 colID views props fprops fpage fcol fimg caption gtitle].
  cbn [Content].
  induction content as [|child rest IHrest]; constructor;
    [apply IH | apply IHrest].
Qed.

Section Keeps.

Variable E : Env.
Variable P : Converter -> Converter -> Prop.

Hypothesis P_refl : forall c, P c c.
Hypothesis P_trans : forall c1 c2 c3, P c1 c2 -> P c2 c3 -> P c1 c3.
Hypothesis P_write :
  forall c b s, Buf c = Some b -> P c (setBuf c (Some (b ++ s))).
Hypothesis P_katex : forall c, P c (setDidImportKatexCSS c true).

Lemma keeps_apply (f : Cmd) (c c' : Converter) :
  keeps P f -> f c = Some c' -> P c c'.
Proof. intros H. apply H. Qed.

Lemma keeps_skip : keeps P skip.
Proof. intros c c' H. injection H as <-. apply P_refl. Qed.

Lemma keeps_panic : keeps P panic.
Proof. intros c c' H. discriminate. Qed.

Lemma keeps_maybePanic : keeps P (maybePanic E).
Proof.
  intros c c'. unfold maybePanic. destruct (PanicOnFailures E);
    [discriminate|]. intro H. injection H as <-. apply P_refl.
Qed.

Lemma keeps_Printf (s : string) : keeps P (Printf s).
Proof.
  intros c c'. unfold Printf. destruct (Buf c) as [b|] eqn:Hb;
    [|discriminate]. intro H. injection H as <-. now apply P_write.
Qed.

Lemma keeps_andThen (f g : Cmd) : keeps P f -> keeps P g -> keeps P (f ;; g).
Proof.
  intros Hf Hg c c' H. apply andThen_inv in H. destruct H as (c1 & H1 & H2).
  apply (P_trans c c1 c'); [now apply Hf | now apply Hg].
Qed.

Lemma keeps_RenderInline (b : TextSpan) : keeps P (RenderInline E b).
Proof. intros c c'. unfold RenderInline. apply keeps_Printf. Qed.

Lemma keeps_RenderInlines (blocks : list TextSpan) :
  keeps P (RenderInlines E blocks).
Proof.
  induction blocks as [|b rest IH]; cbn [RenderInlines].
  - apply keeps_skip.
  - apply keeps_andThen; [apply keeps_RenderInline | exact IH].
Qed.

Lemma keeps_forEach {A : Type} (f : A -> Cmd) (l : list A) :
  (forall x, keeps P (f x)) -> keeps P (forEach f l).
Proof.
  intro Hf. induction l as [|x rest IH]; cbn [forEach].
  - apply keeps_skip.
  - apply keeps_andThen; [apply Hf | exact IH].
Qed.

Lemma keeps_A (uri text cls : string) : keeps P (A uri text cls).
Proof.
  unfold A. cbv zeta. destruct (EscapeHTML uri =? ""); apply keeps_Printf.
Qed.

Lemma keeps_RenderCaption (block : Block) : keeps P (RenderCaption E block).
Proof.
  unfold RenderCaption. destruct (GetCaption block).
  - repeat apply keeps_andThen; try apply keeps_Printf.
    apply keeps_RenderInlines.
  - apply keeps_skip.
Qed.

(** A command put together from the commands above keeps [P]. *)
Ltac keeps_step :=
  first
    [ assumption
    | apply keeps_skip
    | apply keeps_panic
    | apply keeps_maybePanic
    | apply keeps_Printf
    | apply keeps_RenderInlines
    | apply keeps_A
    | apply keeps_RenderCaption
    | apply keeps_andThen
    | match goal with
      | |- keeps _ (if ?b then _ else _) => destruct b
      | |- keeps _ (match ?x with _ => _ end) => destruct x
      | |- keeps _ (let _ := _ in _) => cbv zeta
      end ].

Ltac keeps_tac := repeat keeps_step.

(** A command that first reads the converter: [H] is its run. *)
Ltac keeps_run H :=
  match type of H with
  | ?f ?c = Some ?c' => refine (keeps_apply f c c' _ H); keeps_tac
  end.

Lemma keeps_renderHeader (parents : list Block) (block : Block) :
  keeps P (renderHeader E parents block).
Proof. unfold renderHeader. keeps_tac. Qed.

Lemma keeps_RenderCollectionViewPage (block : Block) :
  keeps P (RenderCollectionViewPage block).
Proof.
  intros c c'. unfold RenderCollectionViewPage. cbv zeta.
  destruct (CollectionByID (Page_ c) (CollectionID block)); [|discriminate].
  intro H. keeps_run H.
Qed.

Lemma keeps_renderLinkToPage (parents : list Block) (block : Block) :
  keeps P (renderLinkToPage E parents block).
Proof. unfold renderLinkToPage. keeps_tac. Qed.

Lemma keeps_RenderEquation (block : Block) : keeps P (RenderEquation E block).
Proof.
  intros c c'. unfold RenderEquation. cbv zeta.
  destruct (negb (UseKatexToRenderEquation c)).
  { intro H. keeps_run H. }
  destruct (equationToHTML E (KatexPath c)
              (TextSpansToString E (InlineContent block)));
    [| intro H; keeps_run H | discriminate].
  intro H. keeps_run H.
  intros c1 c2. destruct (negb (didImportKatexCSS c1)).
  - intro H1. apply andThen_inv in H1. destruct H1 as (c3 & H1 & H2).
    injection H2 as <-.
    apply (P_trans c1 c3); [exact (keeps_Printf _ c1 c3 H1) | apply P_katex].
  - intro H1. injection H1 as <-. apply P_refl.
Qed.

Lemma keeps_RenderHeaderLevel (block : Block) (level : Z) :
  keeps P (RenderHeaderLevel E block level).
Proof.
  intros c c'. unfold RenderHeaderLevel. cbv zeta. intro H. keeps_run H.
Qed.

Lemma keeps_RenderCallout (block : Block) : keeps P (RenderCallout E block).
Proof. unfold RenderCallout. keeps_tac. Qed.

Lemma keeps_RenderTableOfContents_loop (blocks rest : list Block) :
  forall i indent, keeps P (RenderTableOfContents_loop E blocks rest i indent).
Proof.
  induction rest as [|b rest IH]; intros i indent;
    cbn [RenderTableOfContents_loop]; [apply keeps_skip|].
  cbv zeta. apply keeps_andThen; [|apply IH].
  intros c c'. rewrite GetInlineContent_spec. intro H. keeps_run H.
Qed.

Lemma keeps_RenderTableOfContents (block : Block) :
  keeps P (RenderTableOfContents E block).
Proof.
  intros c c'. unfold RenderTableOfContents. cbv zeta. intro H. keeps_run H.
  apply keeps_RenderTableOfContents_loop.
Qed.

Lemma keeps_RenderDivider (block : Block) : keeps P (RenderDivider block).
Proof. unfold RenderDivider. keeps_tac. Qed.

Lemma keeps_RenderCode (block : Block) : keeps P (RenderCode block).
Proof. unfold RenderCode. keeps_tac. Qed.

Lemma keeps_RenderBookmark (block : Block) : keeps P (RenderBookmark E block).
Proof. unfold RenderBookmark. keeps_tac. Qed.

Lemma keeps_renderAudioVideo (parents : list Block) (block : Block) :
  keeps P (renderAudioVideo E parents block).
Proof. unfold renderAudioVideo. keeps_tac. Qed.

Lemma keeps_renderEmbed (block : Block) : keeps P (renderEmbed E block).
Proof. unfold renderEmbed. keeps_tac. Qed.

Lemma keeps_RenderEmbed (parents : list Block) (block : Block) :
  keeps P (RenderEmbed E parents block).
Proof. unfold RenderEmbed. keeps_tac. Qed.

Lemma keeps_RenderFigma (block : Block) : keeps P (RenderFigma E block).
Proof. unfold RenderFigma. keeps_tac. Qed.

Lemma keeps_renderFilePDF (parents : list Block) (block : Block) :
  keeps P (renderFilePDF E parents block).
Proof. unfold renderFilePDF. keeps_tac. Qed.

Lemma keeps_RenderDrive (block : Block) : keeps P (RenderDrive E block).
Proof. unfold RenderDrive. keeps_tac. Qed.

Lemma keeps_RenderImage (parents : list Block) (block : Block) :
  keeps P (RenderImage E parents block).
Proof. unfold RenderImage. keeps_tac. Qed.

Lemma keeps_RenderBreadcrumb (block : Block) :
  keeps P (RenderBreadcrumb block).
Proof.
  intros c c'. unfold RenderBreadcrumb. destruct (NotionCompat c).
  - intro H. injection H as <-. apply P_refl.
  - unfold RenderNYI. apply keeps_Printf.
Qed.

Lemma keeps_RenderCollectionView_cell
      (parents : list Block) (collection : Collection) (row : Block)
      (col : TableProperty) :
  keeps P (RenderCollectionView_cell E parents collection row col).
Proof.
  intros c c'. unfold RenderCollectionView_cell. cbv zeta.
  destruct (ParseTextSpans E _) as [spans|msg|]; [| |discriminate].
  - rewrite GetInlineContent_spec.
    destruct (lookup (CollectionSchema collection) (Property col));
      [|discriminate].
    apply keeps_Printf.
  - destruct (maybePanic E c) as [c0|] eqn:Hm; [|discriminate].
    rewrite GetInlineContent_spec.
    destruct (lookup (CollectionSchema collection) (Property col));
      [|discriminate].
    intro H. apply (P_trans c c0); [now apply keeps_maybePanic|].
    revert H. apply keeps_Printf.
Qed.

Lemma keeps_RenderCollectionView (parents : list Block) (block : Block) :
  keeps P (RenderCollectionView E parents block).
Proof.
  unfold RenderCollectionView. keeps_tac.
  - apply keeps_forEach. intro col. cbv zeta. apply keeps_Printf.
  - apply keeps_forEach. intro row. keeps_tac.
    apply keeps_forEach. apply keeps_RenderCollectionView_cell.
Qed.

(** The renderers that render children keep [P] when the rendering of
    the children does. *)
Section WithChildren.

Variable RenderChildren : Block -> Cmd.
Variable block : Block.
Hypothesis RenderChildren_keeps : keeps P (RenderChildren block).

Lemma keeps_RenderPage (parents : list Block) :
  keeps P (RenderPage E RenderChildren parents block).
Proof.
  intros c c'. unfold RenderPage.
  destruct (IsRoot (Page_ c) block).
  - unfold renderRootPage. intro H. keeps_run H.
  - destruct (IsSubPage (Page_ c) block); apply keeps_renderLinkToPage.
Qed.

Lemma keeps_RenderText :
  keeps P (RenderText E RenderChildren block).
Proof. unfold RenderText. keeps_tac. Qed.

Lemma keeps_RenderNumberedList :
  (forall c n, P c (setListNo c n)) ->
  keeps P (RenderNumberedList E RenderChildren block).
Proof.
  intros P_listno c c'. unfold RenderNumberedList.
  destruct (IsPrevBlockOfType c BlockNumberedList) as [isPrevSame|];
    [|discriminate].
  cbv zeta. intro H.
  apply (P_trans c (if isPrevSame
                    then setListNo c (wrapInt (ListNo c + 1))
                    else setListNo c 1)).
  - destruct isPrevSame; apply P_listno.
  - keeps_run H.
Qed.

Lemma keeps_RenderBulletedList :
  keeps P (RenderBulletedList E RenderChildren block).
Proof. unfold RenderBulletedList. keeps_tac. Qed.

Lemma keeps_RenderTodo :
  keeps P (RenderTodo E RenderChildren block).
Proof. unfold RenderTodo. keeps_tac. Qed.

Lemma keeps_RenderToggle :
  keeps P (RenderToggle E RenderChildren block).
Proof. unfold RenderToggle. keeps_tac. Qed.

Lemma keeps_RenderQuote :
  keeps P (RenderQuote E RenderChildren block).
Proof. unfold RenderQuote. keeps_tac. Qed.

Lemma keeps_RenderColumnList :
  keeps P (RenderColumnList E RenderChildren block).
Proof. unfold RenderColumnList. keeps_tac. Qed.

Lemma keeps_RenderColumn :
  keeps P (RenderColumn RenderChildren block).
Proof. unfold RenderColumn. keeps_tac. Qed.

(** Whatever renderer [DefaultRenderFunc] finds keeps [P]; for a
    numbered-list block [P] has to allow a change of the counter. *)
Lemma keeps_DefaultRenderFunc (parents : list Block)
      (def : Cmd) :
  (Type_ block = BlockNumberedList -> forall c n, P c (setListNo c n)) ->
  DefaultRenderFunc E RenderChildren parents (Type_ block) block
  = Some (Some def) ->
  keeps P def.
Proof.
  intro P_listno. unfold DefaultRenderFunc.
  repeat match goal with
         | |- (if ?b then _ else _) = _ -> _ =>
           destruct b eqn:?;
             [ let H := fresh in
               intro H; injection H as <- | ]
         end;
    try (repeat match goal with
                | |- (if ?b then _ else _) = _ -> _ => destruct b
                end; discriminate);
    first
      [ apply keeps_RenderPage
      | apply keeps_RenderText
      | apply keeps_RenderEquation
      | apply keeps_RenderNumberedList; apply P_listno;
        now apply String.eqb_eq
      | apply keeps_RenderBulletedList
      | apply keeps_RenderHeaderLevel
      | apply keeps_RenderTodo
      | apply keeps_RenderToggle
      | apply keeps_RenderQuote
      | apply keeps_RenderDivider
      | apply keeps_RenderCode
      | apply keeps_RenderBookmark
      | apply keeps_RenderImage
      | apply keeps_RenderColumnList
      | apply keeps_RenderColumn
      | apply keeps_RenderCollectionView
      | apply keeps_RenderCollectionViewPage
      | apply keeps_RenderEmbed
      | apply keeps_renderEmbed
      | apply keeps_renderAudioVideo
      | apply keeps_renderFilePDF
      | apply keeps_RenderDrive
      | apply keeps_RenderFigma
      | apply keeps_RenderCallout
      | apply keeps_RenderTableOfContents
      | apply keeps_RenderBreadcrumb ].
Qed.

Lemma keeps_RenderBlock_body (parents : list Block) :
  hookKeeps E P ->
  (Type_ block = BlockNumberedList -> forall c n, P c (setListNo c n)) ->
  keeps P (RenderBlock_body E RenderChildren parents block).
Proof.
  intros Hhook P_listno.
  assert (Hdef : keeps P
                   (fun c =>
                      match DefaultRenderFunc E RenderChildren parents
                                              (Type_ block) block with
                      | None => None
                      | Some None => Some c
                      | Some (Some def) => def c
                      end)).
  { intros c c'.
    destruct (DefaultRenderFunc E RenderChildren parents (Type_ block) block)
      as [[def|]|] eqn:Hd; [| |discriminate].
    - now apply (keeps_DefaultRenderFunc parents def).
    - intro H. injection H as <-. apply P_refl. }
  intros c c'. unfold RenderBlock_body. cbv zeta.
  destruct (RenderBlockOverride E) as [override|] eqn:Ho; [|apply Hdef].
  destruct (override parents block c) as [[handled c1]|] eqn:Hc;
    [|discriminate].
  assert (H1 : P c c1) by exact (Hhook override parents block c handled c1
                                        Ho Hc).
  destruct handled.
  - intro H. now injection H as <-.
  - intro H. apply (P_trans c c1); [exact H1 | now apply Hdef].
Qed.

End WithChildren.

(** [RenderBlock] keeps a relation that does not look at the sibling
    state, on the blocks [good] holds of. *)
Section Tree.

Hypothesis P_entered :
  forall c c' l, P (setCurrBlocks c l) c' -> P c c'.
Hypothesis P_indexed :
  forall c c' i, P (setCurrBlockIdx c i) c' -> P c c'.
Hypothesis P_restored :
  forall c c' i l, P c c' -> P c (setCurrBlocks (setCurrBlockIdx c' i) l).

Variable good : Block -> Prop.
Hypothesis good_Content : forall b, good b -> Forall good (Content b).
Hypothesis good_ListNo :
  forall b, good b -> Type_ b = BlockNumberedList ->
            forall c n, P c (setListNo c n).
Hypothesis hook_keeps : hookKeeps E P.

Lemma keeps_RenderChildren_loop (renderBlock : Block -> Cmd)
      (children : list Block) :
  Forall (fun child => keeps P (renderBlock child)) children ->
  forall i, keeps P (RenderChildren_loop renderBlock children i).
Proof.
  induction 1 as [|child rest Hchild _ IH]; intro i;
    cbn [RenderChildren_loop]; [apply keeps_skip|].
  apply keeps_andThen; [|apply IH].
  intros c c' H. apply (P_indexed c c' i). now apply Hchild.
Qed.

Lemma keeps_RenderChildren_with
      (renderBlock : list Block -> Block -> Cmd)
      (parents : list Block) (block : Block) :
  Forall (fun child => keeps P (renderBlock (block :: parents) child))
         (Content block) ->
  keeps P (RenderChildren_with renderBlock parents block).
Proof.
  intro Hall. unfold RenderChildren_with.
  destruct (Content block) as [|child rest] eqn:Hcontent;
    [apply keeps_skip|].
  cbv zeta. repeat apply keeps_andThen; keeps_tac.
  intros c c'.
  destruct (RenderChildren_loop _ _ _ _) as [c1|] eqn:Hloop; [|discriminate].
  intro H. injection H as <-. apply P_restored.
  apply (P_entered c c1 (child :: rest)).
  revert Hloop. now apply keeps_RenderChildren_loop.
Qed.

Lemma keeps_RenderBlock :
  forall block, good block ->
                forall parents, keeps P (RenderBlock E parents block).
Proof.
  induction block as [block IH] using Block_tree_ind.
  intros Hgood parents. rewrite KatexFacts.RenderBlock_unfold.
  apply keeps_RenderBlock_body; [|exact hook_keeps|now apply good_ListNo].
  apply keeps_RenderChildren_with.
  specialize (good_Content block Hgood).
  revert IH good_Content. generalize (Content block).
  induction 1 as [|child rest Hchild _ IHrest]; intro Hg; constructor.
  - apply Hchild. now inversion Hg.
  - apply IHrest. now inversion Hg.
Qed.

End Tree.

End Keeps.

(** *** The three relations *)

Lemma sameSiblings_refl (c : Converter) : sameSiblings c c.
Proof. now split. Qed.

Lemma sameSiblings_trans (c1 c2 c3 : Converter) :
  sameSiblings c1 c2 -> sameSiblings c2 c3 -> sameSiblings c1 c3.
Proof. unfold sameSiblings. intros [-> ->] [-> ->]. now split. Qed.

Lemma sameSiblings_write (c : Converter) (b s : string) :
  Buf c = Some b -> sameSiblings c (setBuf c (Some (b ++ s))).
Proof. now split. Qed.

Lemma sameSiblings_katex (c : Converter) :
  sameSiblings c (setDidImportKatexCSS c true).
Proof. now split. Qed.

Lemma sameListNo_refl (c : Converter) : sameListNo c c.
Proof. reflexivity. Qed.

Lemma sameListNo_trans (c1 c2 c3 : Converter) :
  sameListNo c1 c2 -> sameListNo c2 c3 -> sameListNo c1 c3.
Proof. unfold sameListNo. now intros -> ->. Qed.

Lemma bufGrows_refl (c : Converter) : bufGrows c c.
Proof.
  unfold bufGrows. destruct (Buf c) as [b|]; [|exact I].
  exists "". now rewrite append_nil_r.
Qed.

Lemma bufGrows_trans (c1 c2 c3 : Converter) :
  bufGrows c1 c2 -> bufGrows c2 c3 -> bufGrows c1 c3.
Proof.
  unfold bufGrows.
  destruct (Buf c1) as [b1|], (Buf c2) as [b2|], (Buf c3) as [b3|];
    try tauto.
  intros [w1 ->] [w2 ->]. exists (w1 ++ w2). apply append_assoc.
Qed.

Lemma bufGrows_write (c : Converter) (b s : string) :
  Buf c = Some b -> bufGrows c (setBuf c (Some (b ++ s))).
Proof. unfold bufGrows. cbn [Buf setBuf]. intros ->. now exists s. Qed.

Lemma bufGrows_same (c c' : Converter) : Buf c' = Buf c -> bufGrows c c'.
Proof.
  unfold bufGrows. intros ->. destruct (Buf c) as [b|]; [|exact I].
  exists "". now rewrite append_nil_r.
Qed.

(** A growing buffer, read from the start: what was written. *)
Lemma bufGrows_Some (c c' : Converter) (b : string) :
  bufGrows c c' -> Buf c = Some b -> exists w, Buf c' = Some (b ++ w).
Proof.
  unfold bufGrows. intros H Hb. rewrite Hb in H.
  destruct (Buf c') as [b'|]; [|contradiction].
  destruct H as [w ->]. now exists w.
Qed.

Section Facts.

Variable E : Env.

(** [RenderChildren] puts the sibling state back, whatever the rendering
    of the children did with it. *)
Lemma RenderChildren_with_sameSiblings
      (renderBlock : list Block -> Block -> Cmd)
      (parents : list Block) (block : Block) :
  keeps sameSiblings (RenderChildren_with renderBlock parents block).
Proof.
  unfold RenderChildren_with.
  destruct (Content block) as [|child rest];
    [apply keeps_skip, sameSiblings_refl|].
  cbv zeta.
  repeat apply (keeps_andThen sameSiblings sameSiblings_trans).
  - destruct (needsIndent block);
      [apply (keeps_Printf sameSiblings sameSiblings_write)
      |apply keeps_skip, sameSiblings_refl].
  - intros c c'.
    destruct (RenderChildren_loop _ _ _ _) as [c1|]; [|discriminate].
    intro H. injection H as <-. now split.
  - destruct (needsIndent block);
      [apply (keeps_Printf sameSiblings sameSiblings_write)
      |apply keeps_skip, sameSiblings_refl].
Qed.

Lemma RenderBlock_sameSiblings (parents : list Block) (block : Block) :
  hookKeeps E sameSiblings ->
  keeps sameSiblings (RenderBlock E parents block).
Proof.
  intro Hhook. rewrite KatexFacts.RenderBlock_unfold.
  apply (keeps_RenderBlock_body
           E sameSiblings sameSiblings_refl sameSiblings_trans
           sameSiblings_write sameSiblings_katex).
  - apply RenderChildren_with_sameSiblings.
  - exact Hhook.
  - intros _ c n. now split.
Qed.

Lemma RenderBlock_bufGrows (parents : list Block) (block : Block) :
  hookKeeps E bufGrows ->
  keeps bufGrows (RenderBlock E parents block).
Proof.
  intro Hhook.
  apply (keeps_RenderBlock
           E bufGrows bufGrows_refl bufGrows_trans bufGrows_write
           (fun c => bufGrows_same c _ eq_refl)
           (fun c c' l H => H) (fun c c' i H => H)
           (fun c c' i l H => H)
           (fun _ => True)); auto.
  - intros b _. induction (Content b); constructor; auto.
  - intros b _ _ c n. now apply bufGrows_same.
Qed.

Lemma noNumberedList_inv (b : Block) :
  noNumberedList b = true ->
  Type_ b <> BlockNumberedList
  /\ Forall (fun child => noNumberedList child = true) (Content b).
Proof.
  destruct b as [id ty content title spans code source link files checked
                 colID views props fprops fpage fcol fimg caption gtitle].
  cbn [noNumberedList Type_ Content]. intro H.
  apply andb_prop in H. destruct H as [Hty Hall]. split.
  - intros ->. discriminate.
  - clear Hty. induction content as [|child rest IH]; constructor.
    + now apply andb_prop in Hall.
    + apply IH. now apply andb_prop in Hall.
Qed.

Lemma RenderBlock_sameListNo (parents : list Block) (block : Block) :
  hookKeeps E sameListNo ->
  noNumberedList block = true ->
  keeps sameListNo (RenderBlock E parents block).
Proof.
  intros Hhook Hgood.
  apply (keeps_RenderBlock
           E sameListNo sameListNo_refl sameListNo_trans
           (fun c b s _ => eq_refl) (fun c => eq_refl)
           (fun c c' l H => H) (fun c c' i H => H)
           (fun c c' i l H => H)
           (fun b => noNumberedList b = true)); auto.
  - intros b Hb. now apply noNumberedList_inv.
  - intros b Hb Hty. now apply noNumberedList_inv in Hb.
Qed.

End Facts.

End FrameFacts.

(** ** Siblings: [RenderChildren] and the numbered lists *)
Module SiblingFacts.
Import GoStrings Notionapi Tohtml2 Derived StringFacts CmdFacts FrameFacts.

Section Facts.

Variable E : Env.

(** The loop of [RenderChildren] visits the children in order, each with
    the list of the children as the active sequence. *)
Lemma RenderChildren_loop_visits (parents siblings : list Block) :
  hookKeeps E sameSiblings ->
  forall rest pre i c c',
    siblings = (pre ++ rest)%list ->
    List.length pre = i ->
    CurrBlocks c = siblings ->
    RenderChildren_loop (RenderBlock E parents) rest i c = Some c' ->
    visits (RenderBlock E parents) siblings rest i c c'.
Proof.
  intro Hhook. induction rest as [|child rest IH];
    intros pre i c c' Hsib Hlen Hcur Hrun.
  - cbn in Hrun. injection Hrun as <-. constructor.
  - cbn [RenderChildren_loop] in Hrun. apply andThen_inv in Hrun.
    destruct Hrun as (c1 & Hchild & Hrest).
    destruct (RenderBlock_sameSiblings E parents child Hhook _ _ Hchild)
      as [Hcur1 _].
    apply (visits_cons _ _ child rest i c c1 c'); auto.
    + rewrite Hsib, nth_error_app2 by lia.
      now rewrite Hlen, Nat.sub_diag.
    + apply (IH (pre ++ [child])%list).
      * now rewrite <- app_assoc.
      * rewrite length_app. cbn. lia.
      * now rewrite Hcur1.
      * exact Hrest.
Qed.

(** C9.  When [RenderChildren] returns, the active sibling sequence and
    the current index are what they were before the call.  With a hook
    that keeps them too, the children were rendered in document order,
    each one with the child list as the active sequence and its own index
    as the current one. *)
Theorem RenderChildren_restores_siblings
        (parents : list Block) (block : Block) (c c' : Converter) :
  RenderChildren E parents block c = Some c' ->
  (CurrBlocks c' = CurrBlocks c /\ CurrBlockIdx c' = CurrBlockIdx c)
  /\ (hookKeeps E sameSiblings ->
      Content block <> [] ->
      exists c0 c1,
        (if needsIndent block
         then Printf ("<div class=" ++ q "indented" ++ ">")
         else skip) c = Some c0
        /\ visits (RenderBlock E (block :: parents)) (Content block)
                  (Content block) 0
                  (setCurrBlocks c0 (Content block)) c1
        /\ (if needsIndent block then Printf "</div>" else skip)
             (setCurrBlocks (setCurrBlockIdx c1 (CurrBlockIdx c0))
                            (CurrBlocks c0))
           = Some c').
Proof.
  intro Hrun. split.
  - exact (RenderChildren_with_sameSiblings (RenderBlock E) parents block
                                            c c' Hrun).
  - intros Hhook Hne. unfold RenderChildren, RenderChildren_with in Hrun.
    destruct (Content block) as [|child rest] eqn:Hcontent;
      [contradiction|].
    cbv zeta in Hrun.
    apply andThen_inv in Hrun. destruct Hrun as (c0 & Hopen & Hrun).
    apply andThen_inv in Hrun. destruct Hrun as (c2 & Hloop & Hclose).
    destruct (RenderChildren_loop _ _ _ _) as [c1|] eqn:Hl; [|discriminate].
    injection Hloop as <-.
    exists c0, c1. split; [exact Hopen|]. split; [|exact Hclose].
    apply (RenderChildren_loop_visits (block :: parents) (child :: rest)
                                      Hhook (child :: rest) [] 0);
      auto.
Qed.

Lemma wrapInt_id (z : Z) :
  (- 2 ^ 63 <= z < 2 ^ 63)%Z -> wrapInt z = z.
Proof. intro H. unfold wrapInt. rewrite Z.mod_small; lia. Qed.

Lemma hookKeeps_None (P : Converter -> Converter -> Prop) :
  RenderBlockOverride E = None -> hookKeeps E P.
Proof. intros Hnone override ps b c h c' Ho. congruence. Qed.

(** The step of the counter, and the tag written first. *)
Lemma RenderNumberedList_step
      (RenderChildren : Block -> Cmd) (block : Block) (c : Converter)
      (b0 : string) (prev : option Block) :
  Buf c = Some b0 ->
  PrevBlock c = Some prev ->
  (forall p, prev = Some p -> Type_ p = BlockNumberedList ->
             (- 2 ^ 63 <= ListNo c < 2 ^ 63 - 1)%Z) ->
  RenderNumberedList E RenderChildren block c
  = ((Printf "<li>" ;;
      (RenderInlines E (InlineContent block) ;; RenderChildren block) ;;
      Printf "</li>") ;;
     Printf "</ol>")
      (setBuf (setListNo c (nextOrdinal c prev))
              (Some (b0 ++ olOpen E block (nextOrdinal c prev)))).
Proof.
  intros Hb Hprev Hrange.
  unfold RenderNumberedList, IsPrevBlockOfType. rewrite Hprev.
  assert (Hn : (if match prev with
                   | Some b => Type_ b =? BlockNumberedList
                   | None => false
                   end
                then setListNo c (wrapInt (ListNo c + 1))
                else setListNo c 1)
               = setListNo c (nextOrdinal c prev)).
  { unfold nextOrdinal. destruct prev as [p|]; [|reflexivity].
    destruct (Type_ p =? BlockNumberedList) eqn:Hty; [|reflexivity].
    apply String.eqb_eq in Hty. specialize (Hrange p eq_refl Hty).
    rewrite wrapInt_id; [reflexivity | lia]. }
  destruct prev as [p|]; cbv zeta; rewrite Hn;
    [ rewrite (andThen_Printf
                 _ b0 _ (setListNo c (nextOrdinal c (Some p))) Hb)
    | rewrite (andThen_Printf _ b0 _ (setListNo c (nextOrdinal c None)) Hb) ];
    reflexivity.
Qed.

Lemma DefaultRenderFunc_numbered
      (RenderChildren : Block -> Cmd) (parents : list Block) (block : Block) :
  DefaultRenderFunc E RenderChildren parents BlockNumberedList block
  = Some (Some (RenderNumberedList E RenderChildren block)).
Proof. reflexivity. Qed.

Lemma noNumberedListIn_Forall (l : list Block) :
  noNumberedListIn l = true ->
  Forall (fun child => noNumberedList child = true) l.
Proof.
  unfold noNumberedListIn. intro H. apply Forall_forall.
  now apply forallb_forall.
Qed.

(** The children of a block with no numbered list below it leave the
    counter alone; children only add to the buffer. *)
Lemma RenderChildren_sameListNo (parents : list Block) (block : Block) :
  hookKeeps E sameListNo ->
  noNumberedListIn (Content block) = true ->
  keeps sameListNo (RenderChildren E parents block).
Proof.
  intros Hhook Hno. unfold RenderChildren.
  apply (keeps_RenderChildren_with
           sameListNo sameListNo_refl sameListNo_trans
           (fun c b s _ => eq_refl)
           (fun c c' l H => H) (fun c c' i H => H) (fun c c' i l H => H)).
  apply noNumberedListIn_Forall in Hno.
  induction Hno as [|child rest Hchild _ IH]; constructor; [|exact IH].
  now apply RenderBlock_sameListNo.
Qed.

Lemma RenderChildren_bufGrows (parents : list Block) (block : Block) :
  hookKeeps E bufGrows ->
  keeps bufGrows (RenderChildren E parents block).
Proof.
  intros Hhook. unfold RenderChildren.
  apply (keeps_RenderChildren_with
           bufGrows bufGrows_refl bufGrows_trans bufGrows_write
           (fun c c' l H => H) (fun c c' i H => H) (fun c c' i l H => H)).
  induction (Content block) as [|child rest IH]; constructor; [|exact IH].
  now apply RenderBlock_bufGrows.
Qed.

(** One numbered-list item, rendered by [RenderBlock] with no hook. *)
Lemma RenderBlock_numbered_item
      (parents : list Block) (block : Block) (c c1 : Converter)
      (b0 : string) (prev : option Block) :
  RenderBlockOverride E = None ->
  Type_ block = BlockNumberedList ->
  Buf c = Some b0 ->
  PrevBlock c = Some prev ->
  (forall p, prev = Some p -> Type_ p = BlockNumberedList ->
             (- 2 ^ 63 <= ListNo c < 2 ^ 63 - 1)%Z) ->
  RenderBlock E parents block c = Some c1 ->
  exists w,
    Buf c1 = Some (b0 ++ olItem E block (nextOrdinal c prev) w)
    /\ (noNumberedListIn (Content block) = true ->
        ListNo c1 = nextOrdinal c prev)
    /\ CurrBlocks c1 = CurrBlocks c
    /\ CurrBlockIdx c1 = CurrBlockIdx c.
Proof.
  intros Hhook Hty Hb Hprev Hrange Hrun.
  rewrite KatexFacts.RenderBlock_unfold in Hrun.
  unfold RenderBlock_body in Hrun.
  rewrite Hhook, Hty, DefaultRenderFunc_numbered in Hrun.
  rewrite (RenderNumberedList_step _ block c b0 prev Hb Hprev Hrange) in Hrun.
  rewrite andThen_assoc, run_Printf in Hrun.
  rewrite !andThen_assoc, run_RenderInlines in Hrun.
  apply andThen_inv in Hrun. destruct Hrun as (c2 & Hkids & Hclose).
  pose proof (RenderChildren_bufGrows parents block
                (hookKeeps_None bufGrows Hhook) _ _ Hkids) as Hgrow.
  pose proof (fun Hno =>
                RenderChildren_sameListNo parents block
                  (hookKeeps_None sameListNo Hhook) Hno _ _ Hkids) as Hno2.
  pose proof (RenderChildren_with_sameSiblings (RenderBlock E) parents block
                _ _ Hkids) as [Hcur Hidx].
  destruct (bufGrows_Some _ _ _ Hgrow eq_refl) as [w Hb2].
  rewrite (andThen_Printf _ _ _ c2 Hb2) in Hclose.
  rewrite run_Printf_last in Hclose. injection Hclose as <-.
  exists (inlinesHTML E (setListNo c (nextOrdinal c prev))
                      (InlineContent block) ++ w).
  cbn [Buf ListNo CurrBlocks CurrBlockIdx setBuf].
  repeat split.
  - unfold olItem. now rewrite !append_assoc.
  - exact Hno2.
  - exact Hcur.
  - exact Hidx.
Qed.

Lemma run_indentOpen (block : Block) (c : Converter) (b0 : string) :
  Buf c = Some b0 ->
  (if needsIndent block
   then Printf ("<div class=" ++ q "indented" ++ ">") else skip) c
  = Some (setBuf c (Some (b0 ++ indentOpen block))).
Proof.
  intro Hb. unfold indentOpen. destruct (needsIndent block).
  - now apply Printf_Some.
  - cbn. now rewrite append_nil_r, <- Hb, setBuf_Buf.
Qed.

Lemma run_indentClose (block : Block) (c : Converter) (b0 : string) :
  Buf c = Some b0 ->
  (if needsIndent block then Printf "</div>" else skip) c
  = Some (setBuf c (Some (b0 ++ indentClose block))).
Proof.
  intro Hb. unfold indentClose. destruct (needsIndent block).
  - now apply Printf_Some.
  - cbn. now rewrite append_nil_r, <- Hb, setBuf_Buf.
Qed.

(** The run of [RenderChildren] on a block that has children. *)
Lemma RenderChildren_inv (parents : list Block) (block : Block)
      (c c' : Converter) (b0 : string) :
  Content block <> [] ->
  Buf c = Some b0 ->
  RenderChildren E parents block c = Some c' ->
  exists c1,
    RenderChildren_loop (RenderBlock E (block :: parents)) (Content block) 0
      (setCurrBlocks (setBuf c (Some (b0 ++ indentOpen block)))
                     (Content block))
    = Some c1
    /\ forall b1, Buf c1 = Some b1 ->
                  Buf c' = Some (b1 ++ indentClose block).
Proof.
  intros Hne Hb Hrun. unfold RenderChildren, RenderChildren_with in Hrun.
  destruct (Content block) as [|child rest] eqn:Hcontent; [contradiction|].
  cbv zeta in Hrun.
  rewrite (andThen_Some _ _ c _ (run_indentOpen block c b0 Hb)) in Hrun.
  apply andThen_inv in Hrun. destruct Hrun as (c2 & Hloop & Hclose).
  destruct (RenderChildren_loop _ _ _ _) as [c1|] eqn:Hl; [|discriminate].
  injection Hloop as <-.
  exists c1. split; [reflexivity|]. intros b1 Hb1.
  rewrite (run_indentClose
             block (setCurrBlocks (setCurrBlockIdx c1 _) _) b1 Hb1)
    in Hclose.
  now injection Hclose as <-.
Qed.

(** *** The sibling that is consulted, and the ordinals of a sequence *)

(** In the middle of a sequence the block before the current one is the
    last of those that come before it. *)
Lemma PrevBlock_split (c : Converter) (pre post : list Block) (cur : Block) :
  CurrBlocks c = (pre ++ cur :: post)%list ->
  CurrBlockIdx c = length pre ->
  PrevBlock c = Some (siblingBefore pre).
Proof.
  intros Hblocks Hidx. unfold PrevBlock, siblingBefore.
  rewrite Hidx, Hblocks.
  destruct pre as [|x pre'] using rev_ind; [reflexivity|].
  rewrite length_app, rev_app_distr. cbn [length rev List.app hd_error].
  replace (length pre' + 1) with (S (length pre')) by lia.
  rewrite <- app_assoc. cbn [List.app].
  rewrite nth_error_app2 by apply le_n. now rewrite Nat.sub_diag.
Qed.

(** The step of the counter, with the increment of [int]. *)
Lemma RenderNumberedList_step_int
      (RenderChildren : Block -> Cmd) (block : Block) (c : Converter)
      (b0 : string) (prev : option Block) :
  Buf c = Some b0 ->
  PrevBlock c = Some prev ->
  RenderNumberedList E RenderChildren block c
  = ((Printf "<li>" ;;
      (RenderInlines E (InlineContent block) ;; RenderChildren block) ;;
      Printf "</li>") ;;
     Printf "</ol>")
      (setBuf (setListNo c (ordinalAfter prev (ListNo c)))
              (Some (b0 ++ olOpen E block (ordinalAfter prev (ListNo c))))).
Proof.
  intros Hb Hprev.
  unfold RenderNumberedList, IsPrevBlockOfType. rewrite Hprev.
  assert (Hn : (if match prev with
                   | Some b => Type_ b =? BlockNumberedList
                   | None => false
                   end
                then setListNo c (wrapInt (ListNo c + 1))
                else setListNo c 1)
               = setListNo c (ordinalAfter prev (ListNo c))).
  { unfold ordinalAfter. destruct prev as [p|]; [|reflexivity].
    now destruct (Type_ p =? BlockNumberedList). }
  destruct prev as [p|]; cbv zeta; rewrite Hn;
    [ rewrite (andThen_Printf
                 _ b0 _ (setListNo c (ordinalAfter (Some p) (ListNo c))) Hb)
    | rewrite (andThen_Printf
                 _ b0 _ (setListNo c (ordinalAfter None (ListNo c))) Hb) ];
    reflexivity.
Qed.

(** One numbered-list item in the middle of a sequence, rendered by
    [RenderBlock] with no hook. *)
Lemma RenderBlock_numbered_sibling
      (parents : list Block) (block : Block) (c c1 : Converter)
      (b0 : string) (pre post : list Block) (cur : Block) :
  RenderBlockOverride E = None ->
  Type_ block = BlockNumberedList ->
  Buf c = Some b0 ->
  CurrBlocks c = (pre ++ cur :: post)%list ->
  CurrBlockIdx c = length pre ->
  RenderBlock E parents block c = Some c1 ->
  exists w,
    Buf c1
    = Some (b0 ++ olItem E block
                         (ordinalAfter (siblingBefore pre) (ListNo c)) w)
    /\ (noNumberedListIn (Content block) = true ->
        ListNo c1 = ordinalAfter (siblingBefore pre) (ListNo c))
    /\ CurrBlocks c1 = CurrBlocks c.
Proof.
  intros Hhook Hty Hb Hblocks Hidx Hrun.
  pose proof (PrevBlock_split c pre post cur Hblocks Hidx) as Hprev.
  rewrite KatexFacts.RenderBlock_unfold in Hrun.
  unfold RenderBlock_body in Hrun.
  rewrite Hhook, Hty, DefaultRenderFunc_numbered in Hrun.
  rewrite (RenderNumberedList_step_int _ block c b0 _ Hb Hprev) in Hrun.
  rewrite andThen_assoc, run_Printf in Hrun.
  rewrite !andThen_assoc, run_RenderInlines in Hrun.
  apply andThen_inv in Hrun. destruct Hrun as (c2 & Hkids & Hclose).
  pose proof (RenderChildren_bufGrows parents block
                (hookKeeps_None bufGrows Hhook) _ _ Hkids) as Hgrow.
  pose proof (fun Hno =>
                RenderChildren_sameListNo parents block
                  (hookKeeps_None sameListNo Hhook) Hno _ _ Hkids) as Hno2.
  pose proof (RenderChildren_with_sameSiblings (RenderBlock E) parents block
                _ _ Hkids) as [Hcur _].
  destruct (bufGrows_Some _ _ _ Hgrow eq_refl) as [w Hb2].
  rewrite (andThen_Printf _ _ _ c2 Hb2) in Hclose.
  rewrite run_Printf_last in Hclose. injection Hclose as <-.
  exists (inlinesHTML
            E (setListNo c (ordinalAfter (siblingBefore pre) (ListNo c)))
            (InlineContent block) ++ w).
  cbn [Buf ListNo CurrBlocks setBuf].
  split; [|split].
  - unfold olItem. now rewrite !append_assoc.
  - exact Hno2.
  - exact Hcur.
Qed.

Lemma siblingBefore_last (pre : list Block) (b : Block) :
  siblingBefore (pre ++ [b]) = Some b.
Proof. unfold siblingBefore. now rewrite rev_app_distr. Qed.

(** The loop of [RenderChildren] over the siblings [rest] that follow
    [pre]; [prevOrd] is what the sibling before them has left. *)
Lemma RenderChildren_loop_ordinals (ps : list Block) (rest : list Block) :
  RenderBlockOverride E = None ->
  forall (pre : list Block) (c c1 : Converter) (b0 : string),
    CurrBlocks c = (pre ++ rest)%list ->
    Buf c = Some b0 ->
    flatItems rest = true ->
    RenderChildren_loop (RenderBlock E ps) rest (length pre) c = Some c1 ->
    exists ws,
      length ws = length rest
      /\ Buf c1
         = Some (b0 ++ siblingsHTML
                         E rest
                         (intOrdinals
                            (match siblingBefore pre with
                             | Some p =>
                               if Type_ p =? BlockNumberedList
                               then Some (ListNo c) else None
                             | None => None
                             end) rest)
                         ws).
Proof.
  intro Hhook.
  induction rest as [|child rest IH]; intros pre c c1 b0 Hblocks Hb Hflat Hrun.
  - injection Hrun as <-. exists []. split; [reflexivity|].
    cbn. now rewrite append_nil_r.
  - cbn [RenderChildren_loop] in Hrun.
    apply andThen_inv in Hrun. destruct Hrun as (c2 & Hchild & Hrest).
    cbn [flatItems forallb] in Hflat. apply andb_prop in Hflat.
    destruct Hflat as [Hflat1 Hflat].
    assert (Hblocks' : CurrBlocks (setCurrBlockIdx c (length pre))
                       = (pre ++ child :: rest)%list) by exact Hblocks.
    assert (Hlen : S (length pre) = length (pre ++ [child]))
      by (rewrite length_app; cbn; lia).
    rewrite Hlen in Hrest.
    cbn [intOrdinals siblingsHTML].
    destruct (Type_ child =? BlockNumberedList) eqn:Hty.
    + (* a numbered-list item *)
      cbn [negb orb] in Hflat1.
      destruct (RenderBlock_numbered_sibling
                  ps child (setCurrBlockIdx c (length pre)) c2 b0
                  pre rest child Hhook (proj1 (String.eqb_eq _ _) Hty)
                  Hb Hblocks' eq_refl Hchild)
        as (w & Hb2 & Hl2 & Hcur2).
      specialize (Hl2 Hflat1). cbn [ListNo setCurrBlockIdx] in Hb2, Hl2.
      cbn [CurrBlocks setCurrBlockIdx] in Hcur2.
      destruct (IH (pre ++ [child])%list c2 c1 _
                   ltac:(rewrite Hcur2, Hblocks, <- app_assoc; reflexivity)
                   Hb2 Hflat Hrest)
        as (ws & Hws & Hb1).
      rewrite siblingBefore_last, Hty, Hl2 in Hb1.
      exists (w :: ws). split; [cbn; now rewrite Hws|].
      rewrite Hb1. cbv zeta.
      assert (Hord : ordinalAfter (siblingBefore pre) (ListNo c)
                     = match
                         match siblingBefore pre with
                         | Some p =>
                           if Type_ p =? BlockNumberedList
                           then Some (ListNo c) else None
                         | None => None
                         end
                       with
                       | Some k => wrapInt (k + 1)
                       | None => 1%Z
                       end).
      { unfold ordinalAfter. destruct (siblingBefore pre) as [p|];
          [|reflexivity].
        now destruct (Type_ p =? BlockNumberedList). }
      rewrite <- Hord. now rewrite !append_assoc.
    + (* a block of another type *)
      pose proof (RenderBlock_bufGrows E ps child
                    (hookKeeps_None bufGrows Hhook) _ _ Hchild) as Hgrow.
      destruct (bufGrows_Some _ _ b0 Hgrow Hb) as [w Hb2].
      destruct (RenderBlock_sameSiblings E ps child
                  (hookKeeps_None sameSiblings Hhook) _ _ Hchild)
        as [Hcur2 _].
      cbn [CurrBlocks setCurrBlockIdx] in Hcur2.
      destruct (IH (pre ++ [child])%list c2 c1 _
                   ltac:(rewrite Hcur2, Hblocks, <- app_assoc; reflexivity)
                   Hb2 Hflat Hrest)
        as (ws & Hws & Hb1).
      rewrite siblingBefore_last, Hty in Hb1.
      exists (w :: ws). split; [cbn; now rewrite Hws|].
      rewrite Hb1. now rewrite !append_assoc.
Qed.

(** Along a sequence that an [int] can count, the increment never wraps:
    the ordinals are those of the specification. *)
Lemma intOrdinals_plain (l : list Block) :
  forall prev,
    match prev with
    | Some k => (0 <= k /\ k + Z.of_nat (length l) < 2 ^ 63)%Z
    | None => (Z.of_nat (length l) < 2 ^ 63)%Z
    end ->
    intOrdinals prev l = siblingOrdinals prev l.
Proof.
  induction l as [|b rest IH]; intros prev Hbound; [reflexivity|].
  cbn [intOrdinals siblingOrdinals length] in *.
  destruct (Type_ b =? BlockNumberedList).
  - cbv zeta. destruct prev as [k|].
    + rewrite wrapInt_id by lia. f_equal. apply IH. lia.
    + f_equal. apply IH. lia.
  - f_equal. apply IH. destruct prev as [k|]; lia.
Qed.

(** C3.  A numbered-list item takes as its ordinal the counter plus one
    when the sibling right before it, the block at the current index less
    one of the active sequence, is a numbered-list item, and 1 otherwise,
    and writes it as the [start] attribute.  The counter holds the ordinal
    written last, and plus one is the increment of [int]: one more for
    every [int] but the largest.  So, with no hook, every sequence of
    siblings whose numbered-list items have no numbered list below them is
    written with the ordinals of the specification: each numbered-list
    item has the ordinal of the sibling right before it plus one when that
    one is a numbered-list item, and 1 otherwise; along a sequence that an
    [int] can count, as every slice is, the increment never wraps.  In
    particular three numbered-list siblings in a row get 1, 2, 3 when the
    first two have no numbered list below them, and a numbered-list item
    right after a sibling of another type gets 1. *)
Theorem RenderNumberedList_ordinals :
  (forall (RenderChildren : Block -> Cmd) (block : Block) (c : Converter)
          (b0 : string) (pre post : list Block) (cur : Block),
      Buf c = Some b0 ->
      CurrBlocks c = (pre ++ cur :: post)%list ->
      CurrBlockIdx c = length pre ->
      RenderNumberedList E RenderChildren block c
      = ((Printf "<li>" ;;
          (RenderInlines E (InlineContent block) ;; RenderChildren block) ;;
          Printf "</li>") ;;
         Printf "</ol>")
          (setBuf (setListNo c (ordinalAfter (siblingBefore pre) (ListNo c)))
                  (Some (b0 ++ olOpen E block
                                      (ordinalAfter (siblingBefore pre)
                                                    (ListNo c))))))
  /\ (forall k, (- 2 ^ 63 <= k < 2 ^ 63 - 1)%Z ->
                wrapInt (k + 1) = (k + 1)%Z)
  /\ (forall (parents : list Block) (parent : Block) (c c' : Converter)
             (b0 : string),
         RenderBlockOverride E = None ->
         flatItems (Content parent) = true ->
         Buf c = Some b0 ->
         RenderChildren E parents parent c = Some c' ->
         exists ws,
           length ws = length (Content parent)
           /\ Buf c'
              = Some (b0 ++ indentOpen parent
                         ++ siblingsHTML
                              E (Content parent)
                              (intOrdinals None (Content parent)) ws
                         ++ indentClose parent))
  /\ (forall l : list Block,
         (Z.of_nat (length l) < 2 ^ 63)%Z ->
         intOrdinals None l = siblingOrdinals None l)
  /\ (forall (parents : list Block) (parent n1 n2 n3 : Block)
             (c c' : Converter) (b0 : string),
         RenderBlockOverride E = None ->
         Content parent = [n1; n2; n3] ->
         Type_ n1 = BlockNumberedList ->
         Type_ n2 = BlockNumberedList ->
         Type_ n3 = BlockNumberedList ->
         noNumberedListIn (Content n1) = true ->
         noNumberedListIn (Content n2) = true ->
         Buf c = Some b0 ->
         RenderChildren E parents parent c = Some c' ->
         exists w1 w2 w3,
           Buf c' = Some (b0 ++ indentOpen parent
                             ++ olItem E n1 1 w1 ++ olItem E n2 2 w2
                             ++ olItem E n3 3 w3 ++ indentClose parent))
  /\ (forall (parents : list Block) (parent other n : Block)
             (c c' : Converter) (b0 : string),
         RenderBlockOverride E = None ->
         Content parent = [other; n] ->
         Type_ other <> BlockNumberedList ->
         Type_ n = BlockNumberedList ->
         Buf c = Some b0 ->
         RenderChildren E parents parent c = Some c' ->
         exists w0 w,
           Buf c' = Some (b0 ++ indentOpen parent ++ w0
                             ++ olItem E n 1 w ++ indentClose parent)).
Proof.
  split.
  { intros RC block c b0 pre post cur Hb Hblocks Hidx.
    apply RenderNumberedList_step_int; [exact Hb|].
    now apply (PrevBlock_split c pre post cur). }
  split; [intros k Hk; apply wrapInt_id; lia|].
  split.
  { intros parents parent c c' b0 Hhook Hflat Hb Hrun.
    destruct (Content parent) as [|child rest] eqn:Hcontent.
    - unfold RenderChildren, RenderChildren_with in Hrun.
      rewrite Hcontent in Hrun. injection Hrun as <-.
      exists []. split; [reflexivity|].
      unfold indentOpen, indentClose, needsIndent. rewrite Hcontent.
      cbn. now rewrite append_nil_r.
    - destruct (RenderChildren_inv parents parent c c' b0)
        as (c1 & Hloop & Hc');
        [rewrite Hcontent; discriminate | exact Hb | exact Hrun |].
      rewrite Hcontent in Hloop.
      destruct ((fun Hblocks Hbuf =>
                   RenderChildren_loop_ordinals
                     (parent :: parents) (child :: rest) Hhook []
                     (setCurrBlocks
                        (setBuf c (Some (b0 ++ indentOpen parent)))
                        (child :: rest))
                     c1 (b0 ++ indentOpen parent) Hblocks Hbuf Hflat Hloop)
                  eq_refl eq_refl)
        as (ws & Hws & Hb1).
      exists ws. split; [exact Hws|].
      rewrite (Hc' _ Hb1). cbn [siblingBefore rev hd_error].
      now rewrite !append_assoc. }
  split; [intros l Hl; now apply (intOrdinals_plain l None)|].
  split.
  - intros parents parent n1 n2 n3 c c' b0 Hhook Hcontent T1 T2 T3 N1 N2
           Hb Hrun.
    destruct (RenderChildren_inv parents parent c c' b0) as (c3 & Hloop & Hc');
      [rewrite Hcontent; discriminate | exact Hb | exact Hrun |].
    rewrite Hcontent in Hloop. cbn [RenderChildren_loop] in Hloop.
    apply andThen_inv in Hloop. destruct Hloop as (c1 & H1 & Hloop).
    apply andThen_inv in Hloop. destruct Hloop as (c2 & H2 & Hloop).
    apply andThen_inv in Hloop. destruct Hloop as (c3' & H3 & Hloop).
    injection Hloop as ->.
    (* the first item *)
    destruct ((fun Hbuf Hprev Hrange =>
                 RenderBlock_numbered_item
                   _ n1 _ c1 (b0 ++ indentOpen parent) None Hhook T1
                   Hbuf Hprev Hrange H1) eq_refl eq_refl
                (fun p Hp => ltac:(discriminate Hp)))
      as (w1 & Hb1 & Hl1 & Hcur1 & _).
    specialize (Hl1 N1). cbn [nextOrdinal] in Hb1, Hl1.
    cbn [CurrBlocks setCurrBlocks setCurrBlockIdx] in Hcur1.
    (* the second item *)
    assert (Hprev2 : PrevBlock (setCurrBlockIdx c1 1) = Some (Some n1)).
    { unfold PrevBlock. cbn [CurrBlockIdx CurrBlocks setCurrBlockIdx].
      now rewrite Hcur1. }
    destruct (RenderBlock_numbered_item
                _ n2 (setCurrBlockIdx c1 1) c2 _ (Some n1) Hhook T2
                Hb1 Hprev2
                (fun p _ _ => ltac:(cbn [ListNo setCurrBlockIdx];
                                   rewrite Hl1; lia)) H2)
      as (w2 & Hb2 & Hl2 & Hcur2 & _).
    specialize (Hl2 N2). unfold nextOrdinal in Hb2, Hl2.
    rewrite T1 in Hb2, Hl2.
    cbn [String.eqb Ascii.eqb Bool.eqb BlockNumberedList ListNo
         setCurrBlockIdx] in Hb2, Hl2.
    rewrite Hl1 in Hb2, Hl2. cbn [Z.add Pos.add Pos.succ] in Hb2, Hl2.
    cbn [CurrBlocks setCurrBlockIdx] in Hcur2. rewrite Hcur1 in Hcur2.
    (* the third item *)
    assert (Hprev3 : PrevBlock (setCurrBlockIdx c2 2) = Some (Some n2)).
    { unfold PrevBlock. cbn [CurrBlockIdx CurrBlocks setCurrBlockIdx].
      now rewrite Hcur2. }
    destruct (RenderBlock_numbered_item
                _ n3 (setCurrBlockIdx c2 2) c3 _ (Some n2) Hhook T3
                Hb2 Hprev3
                (fun p _ _ => ltac:(cbn [ListNo setCurrBlockIdx];
                                   rewrite Hl2; lia)) H3)
      as (w3 & Hb3 & _).
    unfold nextOrdinal in Hb3. rewrite T2 in Hb3.
    cbn [String.eqb Ascii.eqb Bool.eqb BlockNumberedList ListNo
         setCurrBlockIdx] in Hb3.
    rewrite Hl2 in Hb3. cbn [Z.add Pos.add Pos.succ] in Hb3.
    exists w1, w2, w3. rewrite (Hc' _ Hb3). now rewrite !append_assoc.
  - intros parents parent other n c c' b0 Hhook Hcontent Tother Tn Hb Hrun.
    destruct (RenderChildren_inv parents parent c c' b0) as (c2 & Hloop & Hc');
      [rewrite Hcontent; discriminate | exact Hb | exact Hrun |].
    rewrite Hcontent in Hloop. cbn [RenderChildren_loop] in Hloop.
    apply andThen_inv in Hloop. destruct Hloop as (c1 & H1 & Hloop).
    apply andThen_inv in Hloop. destruct Hloop as (c2' & H2 & Hloop).
    injection Hloop as ->.
    pose proof (RenderBlock_bufGrows E _ other
                  (hookKeeps_None bufGrows Hhook) _ _ H1) as Hgrow.
    destruct (bufGrows_Some _ _ _ Hgrow eq_refl) as [w0 Hb1].
    destruct (RenderBlock_sameSiblings E _ other
                (hookKeeps_None sameSiblings Hhook) _ _ H1) as [Hcur1 _].
    cbn [CurrBlocks setCurrBlocks setCurrBlockIdx] in Hcur1.
    assert (Hprev2 : PrevBlock (setCurrBlockIdx c1 1) = Some (Some other)).
    { unfold PrevBlock. cbn [CurrBlockIdx CurrBlocks setCurrBlockIdx].
      now rewrite Hcur1. }
    destruct (RenderBlock_numbered_item
                _ n (setCurrBlockIdx c1 1) c2 _ (Some other) Hhook Tn
                Hb1 Hprev2
                (fun p Hp Hty => ltac:(injection Hp as <-;
                                       contradiction)) H2)
      as (w & Hb2 & _).
    unfold nextOrdinal in Hb2.
    destruct (String.eqb_spec (Type_ other) BlockNumberedList) as [Heq|_];
      [contradiction|].
    exists w0, w. rewrite (Hc' _ Hb2). now rewrite !append_assoc.
Qed.

End Facts.

Lemma RenderChildren_restores_siblings_witness :
  exists c',
    RenderChildren Examples.env [] Examples.listPage Examples.converter
    = Some c'
    /\ CurrBlocks c' = CurrBlocks Examples.converter
    /\ CurrBlockIdx c' = CurrBlockIdx Examples.converter.
Proof.
  destruct (RenderChildren Examples.env [] Examples.listPage
                           Examples.converter) as [c'|] eqn:Hrun.
  - exists c'. split; [reflexivity|].
    exact (proj1 (RenderChildren_restores_siblings
                    Examples.env [] Examples.listPage Examples.converter
                    c' Hrun)).
  - vm_compute in Hrun. discriminate.
Defined.

Lemma RenderNumberedList_ordinals_witness :
  (exists c' ws,
      RenderChildren Examples.env [] Examples.mixedPage Examples.converter
      = Some c'
      /\ Buf c'
         = Some ("" ++ indentOpen Examples.mixedPage
                    ++ siblingsHTML
                         Examples.env
                         [Examples.item1; Examples.between; Examples.item3]
                         [Some 1%Z; None; Some 1%Z] ws
                    ++ indentClose Examples.mixedPage))
  /\ (exists c' w1 w2 w3,
        RenderChildren Examples.env [] Examples.listPage Examples.converter
        = Some c'
        /\ Buf c'
           = Some ("" ++ indentOpen Examples.listPage
                      ++ olItem Examples.env Examples.item1 1 w1
                      ++ olItem Examples.env Examples.item2 2 w2
                      ++ olItem Examples.env Examples.item3 3 w3
                      ++ indentClose Examples.listPage))
  /\ bufAfter (RenderChildren Examples.env [] Examples.mixedPage
                              Examples.converter)
     = Some (Some ("<ol id=" ++ q "n1" ++ " class=" ++ q "numbered-list"
                   ++ " start=" ++ q "1" ++ "><li>one</li></ol>"
                   ++ "<p id=" ++ q "t2" ++ " class=" ++ q ""
                   ++ ">between</p>"
                   ++ "<ol id=" ++ q "n3" ++ " class=" ++ q "numbered-list"
                   ++ " start=" ++ q "1" ++ "><li>three</li></ol>")).
Proof.
  split; [|split; [|reflexivity]].
  - destruct (RenderChildren Examples.env [] Examples.mixedPage
                             Examples.converter) as [c'|] eqn:Hrun.
    + destruct (proj1 (proj2 (proj2
                                (RenderNumberedList_ordinals Examples.env)))
                      [] Examples.mixedPage Examples.converter c' ""
                      eq_refl eq_refl eq_refl Hrun)
        as (ws & _ & Hbuf).
      exists c', ws. split; [reflexivity | exact Hbuf].
    + vm_compute in Hrun. discriminate.
  - destruct (RenderChildren Examples.env [] Examples.listPage
                             Examples.converter) as [c'|] eqn:Hrun.
    + destruct (proj1 (proj2 (proj2 (proj2 (proj2
                  (RenderNumberedList_ordinals Examples.env)))))
                      [] Examples.listPage Examples.item1 Examples.item2
                      Examples.item3 Examples.converter c' ""
                      eq_refl eq_refl eq_refl eq_refl eq_refl eq_refl eq_refl
                      eq_refl Hrun)
        as (w1 & w2 & w3 & Hbuf).
      exists c', w1, w2, w3. now split.
    + vm_compute in Hrun. discriminate.
Defined.

End SiblingFacts.

(** ** More on the inline-token parser *)
Module ParserFacts.
Import Inline TokenShapes.

Section Facts.

Variable unmarshalDate : list (string * JSON) -> option Date.

Lemma parseAttribute_no_date_no_panic (b : InlineBlock) (a : list JSON) :
  isDateTuple a = false -> parseAttribute unmarshalDate b a <> Panic.
Proof.
  intro Hd. destruct a as [|a0 rest]; [discriminate|].
  destruct a0 as [| | |s| |]; try discriminate.
  destruct rest as [|a1 rest]; cbn [parseAttribute].
  - destruct (s =? "b"); [discriminate|].
    destruct (s =? "i"); [discriminate|].
    destruct (s =? "s"); [discriminate|].
    destruct (s =? "c"); discriminate.
  - destruct rest as [|a2 rest]; [|discriminate].
    cbn [isDateTuple] in Hd. rewrite Hd.
    destruct (s =? "a") eqn:Ha; cbn [orb].
    + destruct a1; discriminate.
    + destruct (s =? "u") eqn:Hu; cbn [orb].
      * destruct a1; discriminate.
      * destruct (s =? "m") eqn:Hm; [|discriminate].
        destruct a1; discriminate.
Qed.

Lemma parseAttributes_no_date_no_panic (attrs : list JSON) :
  noDateAttrs attrs = true ->
  forall b, parseAttributes unmarshalDate b attrs <> Panic.
Proof.
  induction attrs as [|rawAttr rest IH]; intros Hno b; [discriminate|].
  cbn [noDateAttrs forallb] in Hno. apply andb_prop in Hno.
  destruct Hno as [Hhead Hrest]. cbn [parseAttributes].
  destruct rawAttr as [| | | |a|]; try discriminate.
  destruct (parseAttribute unmarshalDate b a) as [b'| |] eqn:Hp.
  - now apply IH.
  - discriminate.
  - exfalso. apply (parseAttribute_no_date_no_panic b a); [|exact Hp].
    now destruct (isDateTuple a).
Qed.

Lemma parseInlineBlock_no_date_no_panic (a : list JSON) :
  noDateSpan (JArr a) = true -> attrsInArray (JArr a) = true ->
  parseInlineBlock unmarshalDate a <> Panic.
Proof.
  intros Hno Harr. destruct a as [|a0 [|a1 [|a2 rest]]]; try discriminate.
  - destruct a0; discriminate.
  - destruct a0 as [| | |s| |]; try discriminate.
    destruct a1 as [| | | |attrs|]; try discriminate.
    cbn [parseInlineBlock]. now apply parseAttributes_no_date_no_panic.
Qed.

Lemma parseInlineBlocks_loop_no_date_no_panic (a : list JSON) :
  forallb noDateSpan a = true -> forallb attrsInArray a = true ->
  forall res, parseInlineBlocks_loop unmarshalDate res a <> Panic.
Proof.
  induction a as [|v rest IH]; intros Hno Harr res; [discriminate|].
  cbn [forallb] in Hno, Harr.
  apply andb_prop in Hno. destruct Hno as [Hv Hrest].
  apply andb_prop in Harr. destruct Harr as [Hav Harest].
  cbn [parseInlineBlocks_loop]. destruct v as [| | | |a2|]; try discriminate.
  destruct (parseInlineBlock unmarshalDate a2) as [blk| |] eqn:Hp.
  - now apply IH.
  - discriminate.
  - exfalso. now apply (parseInlineBlock_no_date_no_panic a2).
Qed.

(** The two places where the parser panics.  An input with no [d]
    attribute tuple, and with an array in the second place of every
    two-element span that starts with a text, is parsed or rejected with
    an error, whatever else its shape is.  A two-element span that starts
    with a text and has something else than an array in the second place
    makes the parser panic when it comes first: the error message that was
    meant to report it indexes the array that the failed assertion has
    just set to nil. *)
Theorem parseInlineBlocks_no_date_never_panics (raw : JSON) :
  (noDate raw = true -> attrsInArrays raw = true ->
   parseInlineBlocks unmarshalDate raw <> Panic)
  /\ (forall s a1 rest,
        isJArr a1 = false ->
        parseInlineBlocks unmarshalDate (JArr (JArr [JStr s; a1] :: rest))
        = Panic).
Proof.
  split.
  - intros Hno Harr. destruct raw as [| | | |a|]; try discriminate.
    destruct a as [|v rest]; [discriminate|].
    unfold parseInlineBlocks.
    now apply parseInlineBlocks_loop_no_date_no_panic.
  - intros s a1 rest Ha1.
    cbn [parseInlineBlocks parseInlineBlocks_loop parseInlineBlock].
    now destruct a1.
Qed.

(** *** The text of each span is kept, in order *)

Lemma parseAttribute_Text (b b' : InlineBlock) (a : list JSON) :
  parseAttribute unmarshalDate b a = Ok b' -> Text b' = Text b.
Proof.
  unfold parseAttribute.
  repeat match goal with
         | |- match ?x with _ => _ end = _ -> _ => destruct x
         | |- (if ?x then _ else _) = _ -> _ => destruct x
         end;
    intro H; try discriminate; injection H as <-; reflexivity.
Qed.

Lemma parseAttributes_Text (attrs : list JSON) :
  forall b b', parseAttributes unmarshalDate b attrs = Ok b' ->
               Text b' = Text b.
Proof.
  induction attrs as [|rawAttr rest IH]; intros b b' H; cbn in H.
  - now injection H as <-.
  - destruct rawAttr as [| | | |a|]; try discriminate.
    destruct (parseAttribute unmarshalDate b a) as [b1| |] eqn:Hp;
      try discriminate.
    rewrite (IH _ _ H). now apply (parseAttribute_Text b b1 a).
Qed.

Lemma parseInlineBlock_Text (a : list JSON) (blk : InlineBlock) :
  parseInlineBlock unmarshalDate a = Ok blk -> Text blk = spanText (JArr a).
Proof.
  destruct a as [|a0 [|a1 [|a2 rest]]]; try discriminate.
  - destruct a0; try discriminate. intro H. now injection H as <-.
  - destruct a0 as [| | |s| |]; try discriminate.
    destruct a1 as [| | | |attrs|]; try discriminate.
    cbn [parseInlineBlock spanText]. intro H.
    now rewrite (parseAttributes_Text _ _ _ H).
Qed.

Lemma parseInlineBlocks_loop_Text (a : list JSON) :
  forall res spans,
    parseInlineBlocks_loop unmarshalDate res a = Ok spans ->
    map Text spans = (map Text res ++ map spanText a)%list.
Proof.
  induction a as [|v rest IH]; intros res spans H; cbn in H.
  - injection H as <-. now rewrite app_nil_r.
  - destruct v as [| | | |a2|]; try discriminate.
    destruct (parseInlineBlock unmarshalDate a2) as [blk| |] eqn:Hp;
      try discriminate.
    rewrite (IH _ _ H), map_app, <- app_assoc. cbn [map app].
    now rewrite (parseInlineBlock_Text a2 blk Hp).
Qed.

(** A successful parse gives one block per span of the input, in the
    order of the input, each with the text of its span. *)
Theorem parseInlineBlocks_keeps_texts (raw : JSON)
        (spans : list InlineBlock) :
  parseInlineBlocks unmarshalDate raw = Ok spans ->
  exists a, raw = JArr a /\ map Text spans = map spanText a.
Proof.
  destruct raw as [| | | |a|]; try discriminate.
  destruct a as [|v rest]; [discriminate|].
  unfold parseInlineBlocks. intro H. exists (v :: rest). split; [reflexivity|].
  now apply (parseInlineBlocks_loop_Text (v :: rest) [] spans).
Qed.

(** *** A span that fails makes the whole parse fail *)

Lemma parseInlineBlocks_loop_app (pre rest : list JSON) :
  forall res,
    parseInlineBlocks_loop unmarshalDate res (pre ++ rest)
    = match parseInlineBlocks_loop unmarshalDate res pre with
      | Ok res' => parseInlineBlocks_loop unmarshalDate res' rest
      | Err e => Err e
      | Panic => Panic
      end.
Proof.
  induction pre as [|v pre IH]; intro res; [reflexivity|].
  cbn [app parseInlineBlocks_loop].
  destruct v as [| | | |a2|]; try reflexivity.
  destruct (parseInlineBlock unmarshalDate a2); auto.
Qed.

(** When the spans before it parse, a span that is rejected makes the
    parse return that error, and one that panics makes it panic: the
    blocks parsed so far are not returned, and the spans after it are not
    looked at. *)
Theorem parseInlineBlocks_first_failure
        (pre post bad : list JSON) (blocks : list InlineBlock) :
  parseInlineBlocks_loop unmarshalDate [] pre = Ok blocks ->
  (forall e, parseInlineBlock unmarshalDate bad = Err e ->
             parseInlineBlocks unmarshalDate
               (JArr (pre ++ JArr bad :: post)) = Err e)
  /\ (parseInlineBlock unmarshalDate bad = Panic ->
      parseInlineBlocks unmarshalDate (JArr (pre ++ JArr bad :: post))
      = Panic).
Proof.
  intro Hpre.
  assert (Hloop : parseInlineBlocks unmarshalDate
                    (JArr (pre ++ JArr bad :: post))
                  = match parseInlineBlock unmarshalDate bad with
                    | Ok block =>
                      parseInlineBlocks_loop unmarshalDate
                        (blocks ++ [block]) post
                    | Err e => Err e
                    | Panic => Panic
                    end).
  { unfold parseInlineBlocks.
    destruct (pre ++ JArr bad :: post)%list as [|v l] eqn:Heq.
    - now destruct pre.
    - rewrite <- Heq, parseInlineBlocks_loop_app, Hpre. reflexivity. }
  split.
  - intros e He. now rewrite Hloop, He.
  - intro Hp. now rewrite Hloop, Hp.
Qed.

(** *** Attributes accumulate on the block *)

Lemma parseAttributes_app (l1 l2 : list JSON) :
  forall b,
    parseAttributes unmarshalDate b (l1 ++ l2)
    = match parseAttributes unmarshalDate b l1 with
      | Ok b' => parseAttributes unmarshalDate b' l2
      | Err e => Err e
      | Panic => Panic
      end.
Proof.
  induction l1 as [|rawAttr l1 IH]; intro b; [reflexivity|].
  cbn [app parseAttributes].
  destruct rawAttr as [| | | |a|]; try reflexivity.
  destruct (parseAttribute unmarshalDate b a); auto.
Qed.

(** Attributes are applied one after the other to the same block, so a
    link, user or comment attribute that comes later replaces the value of
    an earlier one of its kind. *)
Theorem parseAttributes_later_value_wins
        (attrs : list JSON) (b b' : InlineBlock) (v : string) :
  parseAttributes unmarshalDate b attrs = Ok b' ->
  parseAttributes unmarshalDate b (attrs ++ [JArr [JStr "a"; JStr v]])
  = Ok (setLink b' v)
  /\ parseAttributes unmarshalDate b (attrs ++ [JArr [JStr "u"; JStr v]])
     = Ok (setUserID b' v)
  /\ parseAttributes unmarshalDate b (attrs ++ [JArr [JStr "m"; JStr v]])
     = Ok (setCommentID b' v).
Proof.
  intro H. rewrite !parseAttributes_app, H. repeat split.
Qed.

(** *** Flag attributes *)

Lemma orFlag_0 (b : InlineBlock) : orFlag b 0 = b.
Proof. destruct b. unfold orFlag. cbn. now rewrite Z.lor_0_r. Qed.

Lemma orFlag_orFlag (b : InlineBlock) (f g : Z) :
  orFlag (orFlag b f) g = orFlag b (Z.lor f g).
Proof. unfold orFlag. cbn. now rewrite Z.lor_assoc. Qed.

Lemma parseAttribute_flag (b : InlineBlock) (s : string) :
  isFlagCode s = true ->
  parseAttribute unmarshalDate b [JStr s] = Ok (orFlag b (flagOfCode s)).
Proof.
  unfold isFlagCode, flagOfCode. cbn [parseAttribute].
  destruct (s =? "b"); [reflexivity|].
  destruct (s =? "i"); [reflexivity|].
  destruct (s =? "s"); [reflexivity|].
  destruct (s =? "c"); [reflexivity|discriminate].
Qed.

Lemma parseAttributes_flags (codes : list string) :
  forallb isFlagCode codes = true ->
  forall b,
    parseAttributes unmarshalDate b (map flagTuple codes)
    = Ok (orFlag b (flagsOf codes)).
Proof.
  induction codes as [|s codes IH]; intros Hall b.
  - cbn. now rewrite orFlag_0.
  - cbn [forallb] in Hall. apply andb_prop in Hall.
    destruct Hall as [Hs Hrest].
    cbn [map flagTuple parseAttributes]. fold (flagTuple s).
    rewrite (parseAttribute_flag b s Hs), (IH Hrest), orFlag_orFlag.
    reflexivity.
Qed.

Lemma flagsOf_testbit (codes : list string) (n : Z) :
  Z.testbit (flagsOf codes) n
  = existsb (fun s => Z.testbit (flagOfCode s) n) codes.
Proof.
  induction codes as [|s codes IH]; cbn [flagsOf fold_right existsb].
  - apply Z.testbit_0_l.
  - rewrite Z.lor_spec. now rewrite <- IH.
Qed.

Lemma flagsOf_same_codes (codes codes' : list string) :
  (forall s, In s codes <-> In s codes') ->
  flagsOf codes = flagsOf codes'.
Proof.
  intro Hsame. apply Z.bits_inj. intro n. rewrite !flagsOf_testbit.
  apply eq_true_iff_eq. rewrite !existsb_exists.
  split; intros (s & Hin & Hbit); exists s; split; auto; now apply Hsame.
Qed.

(** The flag attributes [b], [i], [s], [c] are or-ed into [AttrFlags] and
    touch nothing else, so two attribute lists that name the same flags, in
    any order and any number of times, give the same block. *)
Theorem parseAttributes_flags_as_set
        (codes codes' : list string) (b : InlineBlock) :
  forallb isFlagCode codes = true ->
  (forall s, In s codes <-> In s codes') ->
  parseAttributes unmarshalDate b (map flagTuple codes)
  = Ok (orFlag b (flagsOf codes))
  /\ parseAttributes unmarshalDate b (map flagTuple codes')
     = parseAttributes unmarshalDate b (map flagTuple codes).
Proof.
  intros Hall Hsame.
  assert (Hall' : forallb isFlagCode codes' = true).
  { apply forallb_forall. intros s Hs.
    rewrite forallb_forall in Hall. now apply Hall, Hsame. }
  rewrite !parseAttributes_flags by assumption.
  split; [reflexivity|]. now rewrite (flagsOf_same_codes codes codes').
Qed.

End Facts.

Lemma parseInlineBlocks_no_date_never_panics_witness :
  Inline.parseInlineBlocks Examples.unmarshalDate
    (JArr [JArr [JStr "x"; JArr [JArr [JStr "a"; JNum 3]]]])
  <> Panic
  /\ Inline.parseInlineBlocks Examples.unmarshalDate
       (JArr [JArr [JStr "t"; JStr "b"]])
     = Panic.
Proof.
  split.
  - apply (proj1 (parseInlineBlocks_no_date_never_panics
                    Examples.unmarshalDate
                    (JArr [JArr [JStr "x";
                                 JArr [JArr [JStr "a"; JNum 3]]]])));
      reflexivity.
  - apply (proj2 (parseInlineBlocks_no_date_never_panics
                    Examples.unmarshalDate JNull)).
    reflexivity.
Defined.

Lemma parseInlineBlocks_keeps_texts_witness :
  exists a,
    JArr [JArr [JStr "Hello "]; JArr [JStr "world"; JArr [JArr [JStr "b"]]]]
    = JArr a
    /\ map Text [mkInlineBlock "Hello " 0 "" "" "" None;
                 mkInlineBlock "world" 1 "" "" "" None]
       = map spanText a.
Proof.
  apply (parseInlineBlocks_keeps_texts Examples.unmarshalDate).
  reflexivity.
Defined.

Lemma parseInlineBlocks_first_failure_witness :
  Inline.parseInlineBlocks Examples.unmarshalDate
    (JArr ([JArr [JStr "ok"]]
             ++ JArr [JStr "bad"; JArr [JArr [JStr "x"]]]
             :: [JArr [JNum 1]]))
  = Err "unexpected attribute 'x'".
Proof.
  apply (proj1 (parseInlineBlocks_first_failure
                  Examples.unmarshalDate [JArr [JStr "ok"]] [JArr [JNum 1]]
                  [JStr "bad"; JArr [JArr [JStr "x"]]]
                  [mkInlineBlock "ok" 0 "" "" "" None] eq_refl)).
  reflexivity.
Defined.

Lemma parseAttributes_later_value_wins_witness :
  Inline.parseAttributes Examples.unmarshalDate (newInlineBlock "t")
    ([JArr [JStr "a"; JStr "https://old"]]
       ++ [JArr [JStr "a"; JStr "https://new"]])
  = Ok (setLink (setLink (newInlineBlock "t") "https://old") "https://new").
Proof.
  apply (proj1 (parseAttributes_later_value_wins
                  Examples.unmarshalDate
                  [JArr [JStr "a"; JStr "https://old"]]
                  (newInlineBlock "t")
                  (setLink (newInlineBlock "t") "https://old")
                  "https://new" eq_refl)).
Defined.

Lemma parseAttributes_flags_as_set_witness :
  Inline.parseAttributes Examples.unmarshalDate (newInlineBlock "t")
    (map flagTuple ["i"; "b"; "i"])
  = Inline.parseAttributes Examples.unmarshalDate (newInlineBlock "t")
      (map flagTuple ["b"; "i"]).
Proof.
  apply (proj2 (parseAttributes_flags_as_set
                  Examples.unmarshalDate ["b"; "i"] ["i"; "b"; "i"]
                  (newInlineBlock "t") eq_refl
                  ltac:(intro s; cbn [In]; tauto))).
Defined.

End ParserFacts.

(** ** Escaping *)
Module EscapeFacts.
Import GoStrings Notionapi Tohtml2 Notions StringFacts.

Lemma mapBytes_app (f : ascii -> string) (s1 s2 : string) :
  mapBytes f (s1 ++ s2) = mapBytes f s1 ++ mapBytes f s2.
Proof.
  induction s1 as [|ch s1 IH]; cbn [append mapBytes]; [reflexivity|].
  now rewrite IH, append_assoc.
Qed.

Lemma html_EscapeString_mapBytes (s : string) :
  html_EscapeString s = mapBytes escapeByte s.
Proof. induction s as [|ch s IH]; cbn; [reflexivity | now rewrite IH]. Qed.

Lemma prefix_other_head (old : string) (o ch : ascii) (r : string) :
  Ascii.eqb ch o = false -> prefix (String o old) (String ch r) = false.
Proof.
  intro H. cbn [prefix]. destruct (ascii_dec o ch) as [->|]; [|reflexivity].
  now rewrite Ascii.eqb_refl in H.
Qed.

Lemma Replace_from_apostrophe (X : string) :
  Replace_from "&#39;" "&#x27;" 0 ("&#39;" ++ X)
  = "&#x27;" ++ Replace_from "&#39;" "&#x27;" 0 X.
Proof. cbn. now destruct X. Qed.

Lemma Replace_from_quote (X : string) :
  Replace_from "&#34;" "&quot;" 0 ("&#34;" ++ X)
  = "&quot;" ++ Replace_from "&#34;" "&quot;" 0 X.
Proof. cbn. now destruct X. Qed.

(** The first replacement of [EscapeHTML], on an escaped string. *)
Lemma Replace_apostrophe (s : string) :
  Replace (mapBytes escapeByte s) "&#39;" "&#x27;"
  = mapBytes apostropheFixed s.
Proof.
  unfold Replace. induction s as [|ch s IH]; [reflexivity|].
  cbn [mapBytes]. unfold apostropheFixed at 1. unfold escapeByte at 1 3.
  destruct (Ascii.eqb ch "&") eqn:Hamp.
  { apply Ascii.eqb_eq in Hamp. subst ch. cbn [Ascii.eqb Bool.eqb].
    rewrite <- IH. reflexivity. }
  destruct (Ascii.eqb ch "'") eqn:Hapo.
  { rewrite Replace_from_apostrophe. now rewrite IH. }
  destruct (Ascii.eqb ch "<") eqn:Hlt.
  { rewrite <- IH. reflexivity. }
  destruct (Ascii.eqb ch ">") eqn:Hgt.
  { rewrite <- IH. reflexivity. }
  destruct (Ascii.eqb ch (ascii_of_nat 34)) eqn:Hq.
  { rewrite <- IH. reflexivity. }
  cbn [append Replace_from].
  rewrite (prefix_other_head _ "&" ch _ Hamp). now rewrite IH.
Qed.

(** The second one, on the result of the first. *)
Lemma Replace_quote (s : string) :
  Replace (mapBytes apostropheFixed s) "&#34;" "&quot;"
  = mapBytes notionEscapeByte s.
Proof.
  unfold Replace. induction s as [|ch s IH]; [reflexivity|].
  cbn [mapBytes]. unfold apostropheFixed at 1, notionEscapeByte at 1,
                  escapeByte at 1.
  destruct (Ascii.eqb ch "&") eqn:Hamp.
  { apply Ascii.eqb_eq in Hamp. subst ch. cbn [Ascii.eqb Bool.eqb].
    rewrite <- IH. reflexivity. }
  destruct (Ascii.eqb ch "'") eqn:Hapo.
  { rewrite <- IH. reflexivity. }
  destruct (Ascii.eqb ch "<") eqn:Hlt.
  { rewrite <- IH. reflexivity. }
  destruct (Ascii.eqb ch ">") eqn:Hgt.
  { rewrite <- IH. reflexivity. }
  destruct (Ascii.eqb ch (ascii_of_nat 34)) eqn:Hq.
  { rewrite Replace_from_quote. now rewrite IH. }
  cbn [append Replace_from].
  rewrite (prefix_other_head _ "&" ch _ Hamp). now rewrite IH.
Qed.

Lemma EscapeHTML_mapBytes (s : string) :
  EscapeHTML s = mapBytes notionEscapeByte s.
Proof.
  unfold EscapeHTML. cbv zeta.
  now rewrite html_EscapeString_mapBytes, Replace_apostrophe, Replace_quote.
Qed.

Lemma hasByte_app (b : ascii) (s1 s2 : string) :
  hasByte b (s1 ++ s2) = hasByte b s1 || hasByte b s2.
Proof.
  induction s1 as [|ch s1 IH]; cbn [append hasByte]; [reflexivity|].
  now rewrite IH, orb_assoc.
Qed.

Lemma hasByte_mapBytes (b : ascii) (f : ascii -> string) (s : string) :
  (forall ch, hasByte b (f ch) = false) -> hasByte b (mapBytes f s) = false.
Proof.
  intro H. induction s as [|ch s IH]; [reflexivity|].
  cbn [mapBytes]. now rewrite hasByte_app, H, IH.
Qed.

Lemma notionEscapeByte_cases (ch : ascii) :
  (isMarkupByte ch = true /\
   (notionEscapeByte ch = "&amp;" \/ notionEscapeByte ch = "&#x27;" \/
    notionEscapeByte ch = "&lt;" \/ notionEscapeByte ch = "&gt;" \/
    notionEscapeByte ch = "&quot;"))
  \/ (isMarkupByte ch = false /\ notionEscapeByte ch = String ch "").
Proof.
  unfold isMarkupByte, notionEscapeByte.
  destruct (Ascii.eqb ch "&"); [left; split; [reflexivity | tauto]|].
  destruct (Ascii.eqb ch "'"); [left; split; [reflexivity | tauto]|].
  destruct (Ascii.eqb ch "<"); [left; split; [reflexivity | tauto]|].
  destruct (Ascii.eqb ch ">"); [left; split; [reflexivity | tauto]|].
  destruct (Ascii.eqb ch (ascii_of_nat 34));
    [left; split; [reflexivity | tauto]|].
  now right.
Qed.

Lemma notionEscapeByte_no_markup (b ch : ascii) :
  isMarkupByte b = true -> b <> "&"%char ->
  hasByte b (notionEscapeByte ch) = false.
Proof.
  intros Hb Hamp.
  destruct (notionEscapeByte_cases ch) as [[_ H]|[Hch ->]].
  - assert (Hne : Ascii.eqb "&" b = false).
    { apply Ascii.eqb_neq. congruence. }
    unfold isMarkupByte in Hb.
    destruct H as [->|[->|[->|[->| ->]]]]; cbn [hasByte]; rewrite Hne;
      destruct b as [[] [] [] [] [] [] [] []]; try reflexivity;
      discriminate.
  - cbn [hasByte]. rewrite orb_false_r. apply Ascii.eqb_neq. intros ->.
    congruence.
Qed.

Lemma length_append (s1 s2 : string) :
  String.length (s1 ++ s2) = String.length s1 + String.length s2.
Proof. induction s1 as [|ch s1 IH]; cbn; [reflexivity | now rewrite IH]. Qed.

Lemma length_mapBytes_escape (s : string) :
  String.length s <= String.length (mapBytes notionEscapeByte s)
  /\ (allBytes (fun ch => negb (isMarkupByte ch)) s = false ->
      String.length s < String.length (mapBytes notionEscapeByte s)).
Proof.
  induction s as [|ch s [IH1 IH2]]; [split; [apply le_n | discriminate]|].
  cbn [mapBytes allBytes]. rewrite length_append. cbn [String.length].
  destruct (notionEscapeByte_cases ch) as [[Hch H]|[Hch ->]]; rewrite Hch.
  - assert (2 <= String.length (notionEscapeByte ch)).
    { destruct H as [->|[->|[->|[->| ->]]]]; cbn; lia. }
    split; [lia | intros _; lia].
  - cbn [negb andb String.length]. split; [lia|].
    intro H. specialize (IH2 H). lia.
Qed.

(** [EscapeHTML] rewrites its argument byte by byte: [&], ['], [<], [>]
    and the double quote become [&amp;], [&#x27;], [&lt;], [&gt;] and
    [&quot;], every other byte stays; the two replacements that follow the
    standard escaping never match across the entities it wrote.  So the
    escaping of a concatenation is the concatenation of the escapings. *)
Theorem EscapeHTML_bytewise (s1 s2 : string) :
  EscapeHTML s1 = mapBytes notionEscapeByte s1
  /\ EscapeHTML (s1 ++ s2) = EscapeHTML s1 ++ EscapeHTML s2.
Proof.
  split; [apply EscapeHTML_mapBytes|].
  now rewrite !EscapeHTML_mapBytes, mapBytes_app.
Qed.

(** The result of [EscapeHTML] holds no [<], no [>], no double quote and
    no apostrophe, whatever the argument: it can be written into an element
    or into a quoted attribute without ending it. *)
Theorem EscapeHTML_no_markup (s : string) :
  hasByte "<" (EscapeHTML s) = false
  /\ hasByte ">" (EscapeHTML s) = false
  /\ hasByte (ascii_of_nat 34) (EscapeHTML s) = false
  /\ hasByte "'" (EscapeHTML s) = false.
Proof.
  rewrite EscapeHTML_mapBytes.
  repeat split; apply hasByte_mapBytes; intro ch;
    apply notionEscapeByte_no_markup; (reflexivity || discriminate).
Qed.

(** [EscapeHTML] returns its argument unchanged exactly when the argument
    holds none of the five bytes [&], ['], [<], [>] and the double quote;
    otherwise the result is strictly longer. *)
Theorem EscapeHTML_unchanged_iff (s : string) :
  (EscapeHTML s = s <-> allBytes (fun ch => negb (isMarkupByte ch)) s = true)
  /\ String.length s <= String.length (EscapeHTML s).
Proof.
  rewrite EscapeHTML_mapBytes. split; [|apply length_mapBytes_escape].
  split.
  - intro H. destruct (allBytes _ s) eqn:Hall; [reflexivity|].
    apply (proj2 (length_mapBytes_escape s)) in Hall. rewrite H in Hall. lia.
  - induction s as [|ch s IH]; [reflexivity|]. cbn [allBytes mapBytes].
    intro H. apply andb_true_iff in H. destruct H as [Hch Hs].
    rewrite (IH Hs). apply negb_true_iff in Hch.
    destruct (notionEscapeByte_cases ch) as [[Hm _]|[_ ->]];
      [congruence | reflexivity].
Qed.

End EscapeFacts.

(** ** Replacing until nothing is left to replace *)
Module ReplaceFacts.
Import GoStrings Notionapi Tohtml2 Notions StringFacts EscapeFacts.

Lemma prefix_length (old s : string) :
  prefix old s = true -> String.length old <= String.length s.
Proof.
  revert s. induction old as [|o old IH]; intros s H; cbn; [lia|].
  destruct s as [|ch s]; [discriminate|]. cbn in H.
  destruct (ascii_dec o ch); [|discriminate]. specialize (IH s H).
  cbn. lia.
Qed.

Lemma Replace_from_length (old new : string) :
  String.length new <= String.length old ->
  forall s k,
    String.length (Replace_from old new k s) + Nat.min k (String.length s)
    <= String.length s.
Proof.
  intros Hle s. induction s as [|ch rest IH]; intro k; [cbn; lia|].
  cbn [Replace_from]. destruct k as [|k].
  - destruct (prefix old (String ch rest)) eqn:Hp.
    + apply prefix_length in Hp. rewrite length_append.
      specialize (IH (String.length old - 1)). cbn [String.length] in *. lia.
    + specialize (IH 0). cbn [String.length] in *. lia.
  - specialize (IH k). cbn [String.length]. lia.
Qed.

Lemma Replace_shortens (old new s : string) :
  String.length new < String.length old ->
  Contains s old = true ->
  String.length (Replace s old new) < String.length s.
Proof.
  intros Hlt. unfold Replace. induction s as [|ch rest IH]; intro Hc.
  - destruct old; [cbn in Hlt; lia | discriminate].
  - cbn [Replace_from]. destruct (prefix old (String ch rest)) eqn:Hp.
    + apply prefix_length in Hp. rewrite length_append.
      pose proof (Replace_from_length old new (Nat.lt_le_incl _ _ Hlt) rest
                    (String.length old - 1)).
      cbn [String.length] in *. lia.
    + cbn [Contains] in Hc. rewrite Hp in Hc. cbn [orb] in Hc.
      specialize (IH Hc). cbn [String.length]. lia.
Qed.

(** The loop has run to its end when the fuel is the length of the string. *)
Lemma replaceWhileContains_done (old new : string) :
  String.length new < String.length old ->
  forall fuel res,
    String.length res <= fuel ->
    Contains (replaceWhileContains fuel res old new) old = false.
Proof.
  intros Hlt fuel. induction fuel as [|fuel IH]; intros res Hlen.
  - destruct res; [|cbn in Hlen; lia].
    destruct old; [cbn in Hlt; lia | reflexivity].
  - cbn [replaceWhileContains]. destruct (Contains res old) eqn:Hc; [|exact Hc].
    apply IH. pose proof (Replace_shortens old new res Hlt Hc). lia.
Qed.

Lemma replaceWhileContains_fixed (old new res : string) (fuel : nat) :
  Contains res old = false -> replaceWhileContains fuel res old new = res.
Proof. intro H. destruct fuel; cbn; [reflexivity | now rewrite H]. Qed.

Lemma allBytes_app (p : ascii -> bool) (s1 s2 : string) :
  allBytes p (s1 ++ s2) = allBytes p s1 && allBytes p s2.
Proof.
  induction s1 as [|ch s1 IH]; cbn [append allBytes]; [reflexivity|].
  now rewrite IH, andb_assoc.
Qed.

Lemma allBytes_Replace_from (p : ascii -> bool) (old new : string) :
  allBytes p new = true ->
  forall s k, allBytes p s = true ->
              allBytes p (Replace_from old new k s) = true.
Proof.
  intros Hnew s. induction s as [|ch rest IH]; intros k Hs; [reflexivity|].
  cbn [allBytes] in Hs. apply andb_true_iff in Hs. destruct Hs as [Hch Hs].
  cbn [Replace_from]. destruct k as [|k]; [|now apply IH].
  destruct (prefix old (String ch rest)).
  - rewrite allBytes_app, Hnew. now apply IH.
  - cbn [allBytes]. rewrite Hch. now apply IH.
Qed.

Lemma allBytes_replaceWhileContains (p : ascii -> bool) (old new : string) :
  allBytes p new = true ->
  forall fuel res, allBytes p res = true ->
                   allBytes p (replaceWhileContains fuel res old new) = true.
Proof.
  intros Hnew fuel. induction fuel as [|fuel IH]; intros res Hres; [exact Hres|].
  cbn [replaceWhileContains]. destruct (Contains res old); [|exact Hres].
  apply IH. now apply allBytes_Replace_from.
Qed.

End ReplaceFacts.

(** ** File-system safe names *)
Module NameFacts.
Import GoStrings Notionapi Tohtml2 Notions StringFacts EscapeFacts ReplaceFacts.

Lemma isSafeChar_space : isSafeChar " " = false.
Proof. reflexivity. Qed.

Lemma isSpace_eq (ch : ascii) : isSpace ch = true -> ch = " "%char.
Proof. apply Ascii.eqb_eq. Qed.

Lemma TrimLeftSpace_eq (ch : ascii) (rest : string) :
  TrimLeftSpace (String ch rest)
  = if isSpace ch then TrimLeftSpace rest else String ch rest.
Proof. destruct ch as [[] [] [] [] [] [] [] []]; reflexivity. Qed.

Lemma prefix_two (a b c d : ascii) (x : string) :
  prefix (String a (String b "")) (String c (String d x))
  = Ascii.eqb c a && Ascii.eqb d b.
Proof.
  cbn [prefix]. destruct (ascii_dec a c) as [->|Hac].
  - rewrite Ascii.eqb_refl. destruct (ascii_dec b d) as [->|Hbd].
    + rewrite Ascii.eqb_refl. now destruct x.
    + symmetry. apply andb_false_iff. right. apply Ascii.eqb_neq. congruence.
  - symmetry. apply andb_false_iff. left. apply Ascii.eqb_neq. congruence.
Qed.

Lemma prefix_two_short (a b c : ascii) :
  prefix (String a (String b "")) (String c "") = false.
Proof. cbn [prefix]. now destruct (ascii_dec a c). Qed.

(** *** The bytes of the result *)

Lemma allBytes_safeName_chars (s : string) :
  allBytes safeOrSpace (safeName_chars s) = true.
Proof.
  induction s as [|ch s IH]; [reflexivity|]. cbn [safeName_chars].
  rewrite allBytes_app, IH, andb_true_r. unfold safeOrSpace.
  destruct (isSafeChar ch) eqn:Hch; cbn [allBytes]; [now rewrite Hch|].
  reflexivity.
Qed.

Lemma allBytes_TrimLeftSpace (p : ascii -> bool) (s : string) :
  allBytes p s = true -> allBytes p (TrimLeftSpace s) = true.
Proof.
  induction s as [|ch s IH]; [trivial|]. rewrite TrimLeftSpace_eq.
  intro H. destruct (isSpace ch); [|exact H].
  cbn [allBytes] in H. apply andb_true_iff in H. now apply IH.
Qed.

Lemma TrimRightSpace_head (s r : string) (c : ascii) :
  TrimRightSpace s = String c r -> exists rest, s = String c rest.
Proof.
  destruct s as [|ch rest]; [discriminate|]. cbn [TrimRightSpace].
  destruct (TrimRightSpace rest).
  - destruct (Ascii.eqb ch " "); [discriminate|]. intros [= <- _]. eauto.
  - intros [= <- _]. eauto.
Qed.

Lemma allBytes_TrimRightSpace (p : ascii -> bool) (s : string) :
  allBytes p s = true -> allBytes p (TrimRightSpace s) = true.
Proof.
  induction s as [|ch s IH]; [trivial|]. cbn [allBytes TrimRightSpace].
  intro H. apply andb_true_iff in H. destruct H as [Hch Hs].
  specialize (IH Hs). destruct (TrimRightSpace s).
  - destruct (Ascii.eqb ch " "); [reflexivity|]. cbn [allBytes].
    now rewrite Hch.
  - cbn [allBytes] in *. now rewrite Hch, IH.
Qed.

(** *** Runs of spaces *)

Lemma Contains_tail (ch : ascii) (rest sub : string) :
  Contains (String ch rest) sub = false -> Contains rest sub = false.
Proof. cbn [Contains]. intro H. now apply orb_false_iff in H. Qed.

Lemma Contains_TrimLeftSpace (s sub : string) :
  Contains s sub = false -> Contains (TrimLeftSpace s) sub = false.
Proof.
  induction s as [|ch s IH]; [trivial|]. rewrite TrimLeftSpace_eq.
  intro H. destruct (isSpace ch); [|exact H].
  apply IH. now apply Contains_tail in H.
Qed.

Lemma Contains_TrimRightSpace (s : string) :
  Contains s "  " = false -> Contains (TrimRightSpace s) "  " = false.
Proof.
  induction s as [|ch s IH]; [trivial|]. intro H.
  pose proof (Contains_tail _ _ _ H) as Hs. specialize (IH Hs).
  cbn [TrimRightSpace]. destruct (TrimRightSpace s) as [|c r] eqn:Ht.
  - destruct (Ascii.eqb ch " "); [reflexivity|]. cbn [Contains].
    now rewrite prefix_two_short.
  - destruct (TrimRightSpace_head _ _ _ Ht) as [rest ->].
    cbn [Contains] in H |- *. apply orb_false_iff in H. destruct H as [H _].
    rewrite prefix_two in *. rewrite H. exact IH.
Qed.

(** *** The ends of the result *)

Lemma firstByte_TrimLeftSpace (s : string) :
  firstByte (TrimLeftSpace s) <> Some " "%char.
Proof.
  induction s as [|ch s IH]; [discriminate|]. rewrite TrimLeftSpace_eq.
  destruct (isSpace ch) eqn:Hch; [exact IH|]. cbn [firstByte].
  intros [= ->]. discriminate.
Qed.

Lemma firstByte_TrimRightSpace (s : string) :
  firstByte s <> Some " "%char ->
  firstByte (TrimRightSpace s) <> Some " "%char.
Proof.
  destruct s as [|ch rest]; [trivial|]. cbn [firstByte TrimRightSpace].
  intro H. destruct (TrimRightSpace rest).
  - destruct (Ascii.eqb ch " "); [discriminate | exact H].
  - exact H.
Qed.

Lemma lastByte_TrimRightSpace (s : string) :
  lastByte (TrimRightSpace s) <> Some " "%char.
Proof.
  induction s as [|ch s IH]; [discriminate|]. cbn [TrimRightSpace].
  destruct (TrimRightSpace s) as [|c r].
  - destruct (Ascii.eqb ch " ") eqn:Hch; [discriminate|]. cbn.
    intros [= ->]. discriminate.
  - exact IH.
Qed.

Lemma TrimLeftSpace_fixed (s : string) :
  firstByte s <> Some " "%char -> TrimLeftSpace s = s.
Proof.
  destruct s as [|ch rest]; [trivial|]. rewrite TrimLeftSpace_eq.
  cbn [firstByte]. intro H. destruct (isSpace ch) eqn:Hch; [|reflexivity].
  apply isSpace_eq in Hch. now subst.
Qed.

Lemma TrimRightSpace_fixed (s : string) :
  lastByte s <> Some " "%char -> TrimRightSpace s = s.
Proof.
  induction s as [|ch s IH]; [trivial|]. intro H. cbn [TrimRightSpace].
  destruct s as [|c r].
  - cbn in *. destruct (Ascii.eqb ch " ") eqn:Hch; [|reflexivity].
    apply Ascii.eqb_eq in Hch. now subst.
  - rewrite IH; [reflexivity | exact H].
Qed.

Lemma safeName_chars_fixed (s : string) :
  allBytes safeOrSpace s = true -> safeName_chars s = s.
Proof.
  induction s as [|ch s IH]; [trivial|]. cbn [allBytes safeName_chars].
  intro H. apply andb_true_iff in H. destruct H as [Hch Hs]. rewrite (IH Hs).
  unfold safeOrSpace in Hch. destruct (isSafeChar ch); [reflexivity|].
  cbn [orb] in Hch. apply isSpace_eq in Hch. now subst.
Qed.

(** *** The letters and digits of the argument *)

Lemma filterBytes_app (p : ascii -> bool) (s1 s2 : string) :
  filterBytes p (s1 ++ s2) = filterBytes p s1 ++ filterBytes p s2.
Proof.
  induction s1 as [|ch s1 IH]; [reflexivity|]. cbn [append filterBytes].
  destruct (p ch); [cbn [append]|]; now rewrite IH.
Qed.

Lemma filterBytes_safeName_chars (s : string) :
  filterBytes isSafeChar (safeName_chars s) = filterBytes isSafeChar s.
Proof.
  induction s as [|ch s IH]; [reflexivity|]. cbn [safeName_chars].
  rewrite filterBytes_app, IH. cbn [filterBytes].
  destruct (isSafeChar ch) eqn:Hch; cbn [filterBytes]; [now rewrite Hch|].
  now rewrite isSafeChar_space.
Qed.

Lemma prefix_dsp_inv (ch : ascii) (rest : string) :
  prefix "  " (String ch rest) = true ->
  ch = " "%char /\ exists r, rest = String " " r.
Proof.
  destruct rest as [|c r]; [now rewrite prefix_two_short|].
  rewrite prefix_two. intro H. apply andb_true_iff in H. destruct H as [H1 H2].
  apply Ascii.eqb_eq in H1, H2. subst. eauto.
Qed.

(** One round of the loop of [safeName] drops spaces only: the bytes it
    skips after a match are the second space of the pair. *)
Lemma filterBytes_Replace_dsp (s : string) :
  filterBytes isSafeChar (Replace_from "  " " " 0 s) = filterBytes isSafeChar s
  /\ (firstByte s = Some " "%char ->
      filterBytes isSafeChar (Replace_from "  " " " 1 s)
      = filterBytes isSafeChar s).
Proof.
  induction s as [|ch rest [IH0 IH1]]; [now split|]. split.
  - cbn [Replace_from]. destruct (prefix "  " (String ch rest)) eqn:Hp.
    + apply prefix_dsp_inv in Hp. destruct Hp as [-> [r ->]].
      rewrite filterBytes_app. cbn [String.length Nat.sub].
      rewrite IH1 by reflexivity. reflexivity.
    + cbn [filterBytes]. now rewrite IH0.
  - cbn [firstByte]. intros [= ->]. cbn [Replace_from]. rewrite IH0.
    reflexivity.
Qed.

Lemma filterBytes_replaceWhileContains (fuel : nat) (res : string) :
  filterBytes isSafeChar (replaceWhileContains fuel res "  " " ")
  = filterBytes isSafeChar res.
Proof.
  revert res. induction fuel as [|fuel IH]; intro res; [reflexivity|].
  cbn [replaceWhileContains]. destruct (Contains res "  "); [|reflexivity].
  rewrite IH. apply filterBytes_Replace_dsp.
Qed.

Lemma filterBytes_TrimLeftSpace (s : string) :
  filterBytes isSafeChar (TrimLeftSpace s) = filterBytes isSafeChar s.
Proof.
  induction s as [|ch s IH]; [reflexivity|]. rewrite TrimLeftSpace_eq.
  destruct (isSpace ch) eqn:Hch; [|reflexivity].
  apply isSpace_eq in Hch. subst. now rewrite IH.
Qed.

Lemma filterBytes_TrimRightSpace (s : string) :
  filterBytes isSafeChar (TrimRightSpace s) = filterBytes isSafeChar s.
Proof.
  induction s as [|ch s IH]; [reflexivity|]. cbn [TrimRightSpace].
  destruct (TrimRightSpace s) as [|c r].
  - cbn [filterBytes] in *. rewrite <- IH.
    destruct (Ascii.eqb ch " ") eqn:Hch; [|reflexivity].
    apply Ascii.eqb_eq in Hch. now subst.
  - cbn [filterBytes] in *. now rewrite IH.
Qed.

Lemma safeName_letters (s : string) :
  filterBytes isSafeChar (safeName s) = filterBytes isSafeChar s.
Proof.
  unfold safeName. cbv zeta.
  now rewrite filterBytes_TrimRightSpace, filterBytes_TrimLeftSpace,
    filterBytes_replaceWhileContains, filterBytes_safeName_chars.
Qed.

Lemma safeName_shape (s : string) :
  allBytes safeOrSpace (safeName s) = true
  /\ Contains (safeName s) "  " = false
  /\ firstByte (safeName s) <> Some " "%char
  /\ lastByte (safeName s) <> Some " "%char.
Proof.
  unfold safeName. cbv zeta. repeat split.
  - apply allBytes_TrimRightSpace, allBytes_TrimLeftSpace,
      allBytes_replaceWhileContains; [reflexivity|].
    apply allBytes_safeName_chars.
  - apply Contains_TrimRightSpace, Contains_TrimLeftSpace,
      replaceWhileContains_done; [cbn; lia | apply le_n].
  - apply firstByte_TrimRightSpace, firstByte_TrimLeftSpace.
  - apply lastByte_TrimRightSpace.
Qed.

Lemma safeName_fixed (t : string) :
  allBytes safeOrSpace t = true -> Contains t "  " = false ->
  firstByte t <> Some " "%char -> lastByte t <> Some " "%char ->
  safeName t = t.
Proof.
  intros Hall Hdsp Hfirst Hlast. unfold safeName. cbv zeta.
  rewrite (safeName_chars_fixed t Hall).
  rewrite (replaceWhileContains_fixed _ _ _ _ Hdsp).
  rewrite (TrimLeftSpace_fixed t Hfirst). now apply TrimRightSpace_fixed.
Qed.

(** Every byte of [safeName s] is an ASCII letter, a digit or a space; the
    name holds no two spaces in a row and neither starts nor ends with a
    space.  In particular the loop that collapses the runs of spaces has
    run to its end: nothing is left for it to replace. *)
Theorem safeName_well_formed (s : string) :
  allBytes safeOrSpace (safeName s) = true
  /\ Contains (safeName s) "  " = false
  /\ firstByte (safeName s) <> Some " "%char
  /\ lastByte (safeName s) <> Some " "%char.
Proof.
  unfold safeName. cbv zeta. split; [|split; [|split]].
  - apply allBytes_TrimRightSpace, allBytes_TrimLeftSpace.
    apply allBytes_replaceWhileContains; [reflexivity|].
    apply allBytes_safeName_chars.
  - apply Contains_TrimRightSpace, Contains_TrimLeftSpace.
    apply replaceWhileContains_done; [cbn; lia | apply le_n].
  - apply firstByte_TrimRightSpace, firstByte_TrimLeftSpace.
  - apply lastByte_TrimRightSpace.
Qed.

(** [safeName] keeps the letters and digits of its argument, all of them
    and in their order: it only turns the other bytes into spaces and
    drops spaces.  So the name is empty exactly when the argument holds no
    ASCII letter or digit. *)
Theorem safeName_keeps_letters (s : string) :
  filterBytes isSafeChar (safeName s) = filterBytes isSafeChar s
  /\ (safeName s = "" <-> filterBytes isSafeChar s = "").
Proof.
  split; [apply safeName_letters|]. rewrite <- safeName_letters. split.
  - now intros ->.
  - destruct (safeName_shape s) as (Hall & _ & Hfirst & _).
    destruct (safeName s) as [|c r]; [reflexivity|].
    cbn [filterBytes allBytes firstByte] in *.
    apply andb_true_iff in Hall. destruct Hall as [Hc _].
    unfold safeOrSpace in Hc. destruct (isSafeChar c); [discriminate|].
    cbn [orb] in Hc. apply isSpace_eq in Hc. now subst.
Qed.

(** [safeName] is idempotent: a name it returned is returned unchanged. *)
Theorem safeName_idempotent (s : string) :
  safeName (safeName s) = safeName s.
Proof.
  destruct (safeName_shape s) as (Hall & Hdsp & Hfirst & Hlast).
  now apply safeName_fixed.
Qed.

End NameFacts.

(** ** Paths of the files written *)
Module PathFacts.
Import GoStrings Notionapi Tohtml2 Notions StringFacts EscapeFacts ReplaceFacts
       NameFacts.

Lemma concat_app (l1 l2 : list string) :
  concat (l1 ++ l2)%list = concat l1 ++ concat l2.
Proof.
  induction l1 as [|x l1 IH]; [reflexivity|]. cbn [List.app concat].
  now rewrite IH, append_assoc.
Qed.

Lemma prependPageTitles_underDirs (parents : list Block) :
  forall name,
    prependPageTitles parents name
    = underDirs (rev (pageTitles parents)) name.
Proof.
  unfold underDirs, pageTitles.
  induction parents as [|p rest IH]; intro name; [reflexivity|].
  cbn [prependPageTitles filter]. destruct (Type_ p =? BlockPage).
  - rewrite IH. cbn [map rev]. rewrite map_app, concat_app. cbn [map concat].
    now rewrite !append_assoc.
  - apply IH.
Qed.

Lemma countByte_app (b : ascii) (s1 s2 : string) :
  countByte b (s1 ++ s2) = countByte b s1 + countByte b s2.
Proof.
  induction s1 as [|ch s1 IH]; [reflexivity|]. cbn [append countByte].
  rewrite IH. lia.
Qed.

Lemma countByte_allBytes (b : ascii) (p : ascii -> bool) (s : string) :
  p b = false -> allBytes p s = true -> countByte b s = 0.
Proof.
  intro Hb. induction s as [|ch s IH]; [reflexivity|]. cbn [allBytes countByte].
  intro H. apply andb_true_iff in H. destruct H as [Hch Hs]. rewrite (IH Hs).
  destruct (Ascii.eqb_spec ch b) as [->|]; [congruence | reflexivity].
Qed.

Lemma countByte_safeName (s : string) : countByte "/" (safeName s) = 0.
Proof.
  apply (countByte_allBytes _ safeOrSpace); [reflexivity|].
  apply safeName_shape.
Qed.

Lemma countByte_dirs (dirs : list string) :
  Forall (fun d => countByte "/" d = 0) dirs ->
  countByte "/" (concat (map (fun d => d ++ "/") dirs)) = length dirs.
Proof.
  induction 1 as [|d dirs Hd _ IH]; [reflexivity|]. cbn [map concat length].
  rewrite !countByte_app, IH, Hd. reflexivity.
Qed.

Lemma pageTitles_safe (parents : list Block) :
  Forall (fun d => countByte "/" d = 0) (rev (pageTitles parents)).
Proof.
  apply Forall_rev. unfold pageTitles. apply Forall_map, Forall_forall.
  intros p _. apply countByte_safeName.
Qed.

(** The path of the HTML file of a page: the safe names of the enclosing
    pages as directories, the outermost first, then the safe name of the
    page with [.html]; ancestors that are not pages add nothing.  The path
    has one [/] for each enclosing page, whatever the titles are. *)
Theorem filePathForPage_dirs (parents : list Block) (block : Block) :
  filePathForPage parents block
  = underDirs (rev (pageTitles parents)) (safeName (Title block) ++ ".html")
  /\ countByte "/" (filePathForPage parents block)
     = length (pageTitles parents).
Proof.
  unfold filePathForPage. rewrite prependPageTitles_underDirs.
  split; [reflexivity|]. unfold underDirs.
  rewrite !countByte_app, countByte_dirs by apply pageTitles_safe.
  rewrite countByte_safeName, length_rev. cbn. lia.
Qed.

(** A source that is not a file stored by Notion is returned unchanged;
    for one that is, the local name built for it holds no [//]: the loop
    that collapses them has run to its end. *)
Theorem getDownloadedFileName_shape
        (uri : string) (parents : list Block) (block : Block) :
  if HasPrefix uri
       "https://s3-us-west-2.amazonaws.com/secure.notion-static.com/"
  then Contains (getDownloadedFileName uri parents block) "//" = false
  else getDownloadedFileName uri parents block = uri.
Proof.
  unfold getDownloadedFileName. cbv zeta.
  destruct (HasPrefix uri _); cbn [negb]; [|reflexivity].
  apply replaceWhileContains_done; [cbn; lia | apply le_n].
Qed.

Lemma Replace_from_no_match (old new s : string) :
  Contains s old = false -> Replace_from old new 0 s = s.
Proof.
  induction s as [|ch rest IH]; [reflexivity|]. cbn [Contains Replace_from].
  intro H. apply orb_false_iff in H. destruct H as [-> H]. now rewrite IH.
Qed.

Lemma cleanAttr_loop_done (fuel : nat) :
  forall v, String.length v <= fuel ->
            Contains (cleanAttr_loop fuel v) "  " = false.
Proof.
  induction fuel as [|fuel IH]; intros v Hlen.
  - destruct v; [reflexivity | cbn in Hlen; lia].
  - cbn [cleanAttr_loop]. cbv zeta.
    destruct (Contains v "  ") eqn:Hc.
    + assert (Hs : String.length (Replace v "  " " ") < String.length v)
        by (apply Replace_shortens; [cbn; lia | exact Hc]).
      destruct (String.eqb_spec (Replace v "  " " ") v) as [Heq|_].
      * rewrite Heq in Hs. lia.
      * apply IH. lia.
    + unfold Replace. rewrite (Replace_from_no_match _ _ _ Hc).
      now rewrite String.eqb_refl.
Qed.

(** The value [cleanAttr] returns holds no two spaces in a row, whatever
    [strings.TrimSpace] made of the argument; it is the trimmed argument
    exactly when that holds no such pair. *)
Theorem cleanAttr_no_double_space (E : Env) (v : string) :
  Contains (cleanAttr E v) "  " = false
  /\ (cleanAttr E v = strings_TrimSpace E v
      <-> Contains (strings_TrimSpace E v) "  " = false).
Proof.
  unfold cleanAttr. cbv zeta.
  assert (Hdone := cleanAttr_loop_done _ _ (le_n (String.length
                                                   (strings_TrimSpace E v)))).
  split; [exact Hdone|]. split; [intro H; now rewrite H in Hdone|].
  intro Hc. destruct (String.length (strings_TrimSpace E v)); [reflexivity|].
  cbn [cleanAttr_loop]. cbv zeta. unfold Replace.
  rewrite (Replace_from_no_match _ _ _ Hc). now rewrite String.eqb_refl.
Qed.

End PathFacts.

(** ** Buffers and inline content *)
Module BufferFacts.
Import GoStrings Notionapi Tohtml2 Derived Notions StringFacts ListFacts
       CmdFacts EscapeFacts.

Section Facts.

Variable E : Env.

Lemma forEach_Printf (ws : list string) :
  forall (c : Converter) (b : string),
    forEach Printf ws (setBuf c (Some b))
    = Some (setBuf c (Some (b ++ concat ws))).
Proof.
  induction ws as [|w ws IH]; intros c b; cbn [forEach concat].
  - now rewrite append_nil_r.
  - rewrite run_Printf, IH. now rewrite append_assoc.
Qed.

Lemma PopBuffer_pushed (c : Converter) (b : string) :
  PopBuffer (setBuf (setBufs c (bufs c ++ [Buf c])%list) (Some b))
  = Some (Some b, c).
Proof.
  unfold PopBuffer. cbn [bufs setBuf setBufs Buf].
  rewrite rev_app_distr. cbn [rev List.app]. rewrite removelast_last.
  now destruct c.
Qed.

(** What is written between [PushNewBuffer] and [PopBuffer] is what
    [PopBuffer] returns, and the converter is afterwards as it was before
    the push, also when it had no buffer at all.  [PopBuffer] panics
    exactly when no buffer has been set aside. *)
Theorem PushNewBuffer_PopBuffer (c : Converter) (ws : list string) :
  (exists c1,
      (PushNewBuffer ;; forEach Printf ws) c = Some c1
      /\ PopBuffer c1 = Some (Some (concat ws), c))
  /\ (PopBuffer c = None <-> bufs c = []).
Proof.
  split.
  - exists (setBuf (setBufs c (bufs c ++ [Buf c])%list) (Some (concat ws))).
    split; [|apply PopBuffer_pushed].
    rewrite (andThen_Some PushNewBuffer _ c _ eq_refl).
    now rewrite forEach_Printf.
  - unfold PopBuffer. split.
    + destruct (rev (bufs c)) as [|top rest] eqn:Hrev; [|discriminate].
      intros _. apply (f_equal (@rev _)) in Hrev.
      now rewrite rev_involutive in Hrev.
    + now intros ->.
Qed.

(** [GetInlineContent] returns what [RenderInlines] would append to the
    buffer, and leaves the converter as it found it.  It needs no buffer:
    on a converter without one, where [RenderInlines] panics at the first
    span, it still returns the rendering. *)
Theorem GetInlineContent_as_RenderInlines
        (spans : list TextSpan) (c : Converter) :
  exists html,
    GetInlineContent E spans c = Some (html, c)
    /\ (forall b, Buf c = Some b ->
                  RenderInlines E spans c = Some (setBuf c (Some (b ++ html))))
    /\ (Buf c = None -> spans <> [] -> RenderInlines E spans c = None).
Proof.
  exists (inlinesHTML E c spans). split; [apply GetInlineContent_spec|]. split.
  - intros b Hb. now apply RenderInlines_spec.
  - intros Hnil Hspans. destruct spans as [|span rest]; [congruence|].
    cbn [RenderInlines]. unfold andThen, RenderInline, Printf.
    now rewrite Hnil.
Qed.

End Facts.

End BufferFacts.

(** ** Spans: text that is replaced, marks that are ignored *)
Module SpanFacts.
Import GoStrings Notionapi Tohtml2 Derived Notions StringFacts ListFacts
       CmdFacts EscapeFacts InlineRenderFacts.

Section Facts.

Variable E : Env.
Variable c : Converter.

(** A round decides on [start] and [close] without looking at the text,
    and either keeps the text or drops it. *)
Lemma applyAttr_text (a : TextAttr) (s cl t : string) :
  applyAttr E c (s, cl, t) a
  = let '(s', cl', _) := applyAttr E c (s, cl, "") a in
    (s', cl', if replacesText a then "" else t).
Proof.
  destruct a; cbn [applyAttr replacesText]; try reflexivity.
  destruct (match RewriteURL c with Some f => f uri | None => uri end =? "");
    reflexivity.
Qed.

Lemma fold_applyAttr_text (l : list TextAttr) :
  forall s cl t,
    fold_left (applyAttr E c) l (s, cl, t)
    = let '(s', cl', _) := fold_left (applyAttr E c) l (s, cl, "") in
      (s', cl', if existsb replacesText l then "" else t).
Proof.
  induction l as [|a l IH]; intros s cl t; [reflexivity|].
  cbn [fold_left existsb]. rewrite (applyAttr_text a s cl t).
  destruct (applyAttr E c (s, cl, "") a) as [[s1 cl1] t1] eqn:Ha.
  rewrite (IH s1 cl1 (if replacesText a then "" else t)), (IH s1 cl1 t1).
  destruct (fold_left (applyAttr E c) l (s1, cl1, "")) as [[s2 cl2] t2].
  destruct (replacesText a) eqn:Hr; cbn [orb].
  - assert (t1 = "") as ->.
    { rewrite (applyAttr_text a s cl "") in Ha. rewrite Hr in Ha.
      destruct (applyAttr E c (s, cl, "") a) as [[? ?] ?]. congruence. }
    now destruct (existsb replacesText l).
  - assert (t1 = "") as ->.
    { rewrite (applyAttr_text a s cl "") in Ha. rewrite Hr in Ha.
      destruct (applyAttr E c (s, cl, "") a) as [[? ?] ?]. congruence. }
    reflexivity.
Qed.

Lemma existsb_rev_eq {A : Type} (p : A -> bool) (l : list A) :
  existsb p (rev l) = existsb p l.
Proof.
  induction l as [|a l IH]; [reflexivity|]. cbn [rev existsb].
  rewrite existsb_app, IH. cbn [existsb]. rewrite orb_false_r.
  apply orb_comm.
Qed.

Lemma RenderInline_html_text (text : string) (attrs : list TextAttr) :
  RenderInline_html E c (mkTextSpan text attrs)
  = let '(s, cl, _) := RenderInline_loop E c attrs "" in
    s ++ EscapeHTML (if existsb replacesText attrs then "" else text) ++ cl.
Proof.
  unfold RenderInline_html. cbn [Attrs Text].
  rewrite !RenderInline_loop_rev, fold_applyAttr_text, existsb_rev_eq.
  now destruct (fold_left _ _ _) as [[s cl] t].
Qed.

(** A span with a user, a date or a page attribute, wherever it stands
    among the attributes, is rendered without its text: the mention takes
    its place, and two such spans that differ in the text only are
    rendered alike. *)
Theorem RenderInline_text_replaced
        (text1 text2 : string) (attrs : list TextAttr) :
  existsb replacesText attrs = true ->
  RenderInline_html E c (mkTextSpan text1 attrs)
  = RenderInline_html E c (mkTextSpan text2 attrs).
Proof.
  intro H. rewrite !RenderInline_html_text, H. reflexivity.
Qed.

Lemma fold_left_filter {A B : Type} (f : B -> A -> B) (p : A -> bool)
      (l : list A) :
  (forall st a, p a = false -> f st a = st) ->
  forall st, fold_left f (filter p l) st = fold_left f l st.
Proof.
  intro H. induction l as [|a l IH]; intro st; [reflexivity|].
  cbn [filter fold_left]. destruct (p a) eqn:Hp; cbn [fold_left].
  - apply IH.
  - now rewrite (H st a Hp).
Qed.

(** Comment marks leave no trace: a span is rendered as it is without
    them. *)
Theorem RenderInline_ignores_comments (text : string) (attrs : list TextAttr) :
  RenderInline_html E c (mkTextSpan text attrs)
  = RenderInline_html E c
      (mkTextSpan text (filter (fun a => negb (isComment a)) attrs)).
Proof.
  unfold RenderInline_html. cbn [Attrs Text].
  rewrite !RenderInline_loop_rev, <- filter_rev.
  rewrite fold_left_filter; [reflexivity|].
  intros st a Ha. destruct a; try discriminate.
  now destruct st as [[start close] t].
Qed.

Lemma RenderInline_html_plain (b : TextSpan) :
  isPlainSpan b = true -> RenderInline_html E c b = EscapeHTML (Text b).
Proof.
  unfold isPlainSpan, RenderInline_html. destruct (Attrs b); [|discriminate].
  intros _. cbn. now rewrite append_nil_r.
Qed.

(** Spans without attributes are rendered as their texts, escaped and put
    together; this is the escaping of the whole text, so how a plain text
    is cut into spans does not show in the output. *)
Theorem GetInlineContent_plain (spans : list TextSpan) :
  forallb isPlainSpan spans = true ->
  GetInlineContent E spans c
  = Some (EscapeHTML (concat (map Text spans)), c).
Proof.
  intro H. rewrite GetInlineContent_spec. f_equal. f_equal.
  unfold inlinesHTML. induction spans as [|b rest IH]; [reflexivity|].
  cbn [forallb] in H. apply andb_true_iff in H. destruct H as [Hb Hrest].
  cbn [map concat]. rewrite (RenderInline_html_plain b Hb), (IH Hrest).
  now rewrite !EscapeHTML_mapBytes, mapBytes_app.
Qed.

End Facts.

Lemma RenderInline_text_replaced_witness :
  existsb replacesText [AttrBold; AttrUser "u1"] = true
  /\ RenderInline_html Examples.env Examples.converter
       (mkTextSpan "x" [AttrBold; AttrUser "u1"])
     = RenderInline_html Examples.env Examples.converter
         (mkTextSpan "y" [AttrBold; AttrUser "u1"]).
Proof.
  split; [reflexivity|].
  apply (RenderInline_text_replaced Examples.env Examples.converter
           "x" "y" [AttrBold; AttrUser "u1"]).
  reflexivity.
Defined.

Lemma GetInlineContent_plain_witness :
  forallb isPlainSpan [mkTextSpan "a<" []; mkTextSpan "b" []] = true
  /\ GetInlineContent Examples.env [mkTextSpan "a<" []; mkTextSpan "b" []]
       Examples.converter
     = Some (EscapeHTML (concat (map Text [mkTextSpan "a<" [];
                                           mkTextSpan "b" []])),
             Examples.converter).
Proof.
  split; [reflexivity|].
  apply (GetInlineContent_plain Examples.env Examples.converter
           [mkTextSpan "a<" []; mkTextSpan "b" []]).
  reflexivity.
Defined.

End SpanFacts.

(** ** The headers of the table of contents and their indents *)
Module IndentFacts.
Import GoStrings Notionapi Tohtml2 Derived Notions ListFacts FrameFacts.

Lemma getHeaderBlocks_block_eq (b : Block) :
  getHeaderBlocks_block b
  = if isHeaderBlock b then [b] else getHeaderBlocks (Content b).
Proof. now destruct b. Qed.

Lemma getHeaderBlocks_app (l1 l2 : list Block) :
  getHeaderBlocks (l1 ++ l2) = (getHeaderBlocks l1 ++ getHeaderBlocks l2)%list.
Proof.
  induction l1 as [|b l1 IH]; [reflexivity|]. cbn [List.app getHeaderBlocks].
  now rewrite IH, app_assoc.
Qed.

Lemma getHeaderBlocks_block_headers (b : Block) :
  Forall (fun h => isHeaderBlock h = true) (getHeaderBlocks_block b).
Proof.
  induction b as [b IH] using Block_tree_ind.
  rewrite getHeaderBlocks_block_eq.
  destruct (isHeaderBlock b) eqn:Hb; [now repeat constructor|].
  induction IH as [|child rest Hchild _ IHrest]; [constructor|].
  cbn [getHeaderBlocks]. apply Forall_app. now split.
Qed.

Lemma getHeaderBlocks_of_headers (l : list Block) :
  Forall (fun h => isHeaderBlock h = true) l -> getHeaderBlocks l = l.
Proof.
  induction 1 as [|h l Hh _ IH]; [reflexivity|]. cbn [getHeaderBlocks].
  now rewrite getHeaderBlocks_block_eq, Hh, IH.
Qed.

(** [getHeaderBlocks] goes through the blocks in order.  A header block
    is returned, and nothing is looked for among its children; a block
    that is not a header is not returned, and the headers found among its
    children, in the same way, stand in its place.  So only headers are
    returned, those of the first blocks before those of the later ones,
    and a second pass over the result changes nothing. *)
Theorem getHeaderBlocks_headers (l1 l2 : list Block) :
  (forall b rest,
      getHeaderBlocks (b :: rest)
      = if isHeaderBlock b then b :: getHeaderBlocks rest
        else (getHeaderBlocks (Content b) ++ getHeaderBlocks rest)%list)
  /\ Forall (fun h => isHeaderBlock h = true) (getHeaderBlocks l1)
  /\ getHeaderBlocks (l1 ++ l2)
     = (getHeaderBlocks l1 ++ getHeaderBlocks l2)%list
  /\ getHeaderBlocks (getHeaderBlocks l1) = getHeaderBlocks l1.
Proof.
  split.
  { intros b rest. cbn [getHeaderBlocks].
    rewrite getHeaderBlocks_block_eq. now destruct (isHeaderBlock b). }
  assert (H : Forall (fun h => isHeaderBlock h = true) (getHeaderBlocks l1)).
  { induction l1 as [|b l1 IH]; [constructor|]. cbn [getHeaderBlocks].
    apply Forall_app. split; [apply getHeaderBlocks_block_headers | exact IH]. }
  split; [exact H|]. split; [apply getHeaderBlocks_app|].
  now apply getHeaderBlocks_of_headers.
Qed.

(** *** Indents *)

Lemma cmpBlockTypes_sgn (prev curr : string) :
  headerRank prev <> 0%Z -> headerRank curr <> 0%Z ->
  cmpBlockTypes prev curr = Z.sgn (headerRank curr - headerRank prev).
Proof.
  unfold headerRank, cmpBlockTypes.
  destruct (String.eqb_spec prev BlockHeader) as [->|];
    [|destruct (String.eqb_spec prev BlockSubHeader) as [->|];
      [|destruct (String.eqb_spec prev BlockSubSubHeader) as [->|];
        [|congruence]]];
    (destruct (String.eqb_spec curr BlockHeader) as [->|];
     [|destruct (String.eqb_spec curr BlockSubHeader) as [->|];
       [|destruct (String.eqb_spec curr BlockSubSubHeader) as [->|];
         [|congruence]]]);
    intros _ _; reflexivity.
Qed.

Lemma headerRank_header (b : Block) :
  isHeaderBlock b = true -> headerRank (Type_ b) <> 0%Z.
Proof.
  unfold isHeaderBlock, headerRank.
  destruct (Type_ b =? BlockHeader); [discriminate|].
  destruct (Type_ b =? BlockSubHeader); [discriminate|].
  destruct (Type_ b =? BlockSubSubHeader); discriminate.
Qed.

Lemma cmpBlockTypes_range (prev curr : string) :
  (-1 <= cmpBlockTypes prev curr <= 1)%Z.
Proof.
  unfold cmpBlockTypes.
  repeat match goal with
         | |- context [if ?b then _ else _] => destruct b
         end; lia.
Qed.

Lemma adjustIndent_range (blocks : list Block) (i : nat) :
  (-1 <= adjustIndent blocks i <= 1)%Z.
Proof.
  unfold adjustIndent. destruct i as [|i]; [lia|].
  destruct (nth_error blocks i); [|lia].
  destruct (nth_error blocks (S i)); [|lia]. apply cmpBlockTypes_range.
Qed.

Lemma adjustIndent_at (pre rest : list Block) (p b : Block) :
  adjustIndent ((pre ++ [p]) ++ b :: rest) (S (length pre))
  = cmpBlockTypes (Type_ p) (Type_ b).
Proof.
  unfold adjustIndent.
  rewrite <- app_assoc. cbn [List.app].
  assert (H1 : nth_error (pre ++ p :: b :: rest) (length pre) = Some p).
  { rewrite nth_error_app2 by apply le_n. now rewrite Nat.sub_diag. }
  assert (H2 : nth_error (pre ++ p :: b :: rest) (S (length pre)) = Some b).
  { rewrite nth_error_app2 by lia.
    now replace (S (length pre) - length pre) with 1 by lia. }
  now rewrite H1, H2.
Qed.

Lemma tocIndents_from_sign (rest : list Block) :
  forall (pre : list Block) (p : Block) (indent : Z),
    Forall (fun h => isHeaderBlock h = true) (p :: rest) ->
    tocIndents_from ((pre ++ [p]) ++ rest) rest (S (length pre)) indent
    = levelsBySign (Some p) indent rest.
Proof.
  induction rest as [|b rest IH]; intros pre p indent Hall; [reflexivity|].
  cbn [tocIndents_from levelsBySign]. cbv zeta.
  rewrite adjustIndent_at.
  inversion Hall as [|? ? Hp Hrest]; subst.
  inversion Hrest as [|? ? Hb Hrest']; subst.
  rewrite (cmpBlockTypes_sgn _ _ (headerRank_header p Hp)
                             (headerRank_header b Hb)).
  f_equal.
  replace ((pre ++ [p]) ++ b :: rest)%list
    with (((pre ++ [p]) ++ [b]) ++ rest)%list
    by (now rewrite <- (app_assoc (pre ++ [p]) [b] rest)).
  replace (S (S (length pre))) with (S (length (pre ++ [p])))
    by (rewrite length_app; cbn; lia).
  now apply IH.
Qed.

Lemma tocIndents_sign (blocks : list Block) :
  Forall (fun h => isHeaderBlock h = true) blocks ->
  tocIndents blocks = levelsBySign None 0 blocks.
Proof.
  intro Hall. unfold tocIndents. destruct blocks as [|b rest]; [reflexivity|].
  cbn [tocIndents_from levelsBySign adjustIndent]. cbv zeta. f_equal.
  now apply (tocIndents_from_sign rest [] b).
Qed.

Lemma getHeaderBlocks_all_headers (l : list Block) :
  Forall (fun h => isHeaderBlock h = true) (getHeaderBlocks l).
Proof.
  induction l as [|b l IH]; [constructor|]. cbn [getHeaderBlocks].
  apply Forall_app. split; [apply getHeaderBlocks_block_headers | exact IH].
Qed.

(** The table of contents, entry by entry: the indent of an entry is the
    indent of the entry before it, moved by one step: up when the header
    is of a deeper rank than the one before, down when it is of a
    shallower rank, not at all when the ranks are equal; the first indent
    is 0.  The size of the change of rank does not count, so the indent of
    a header is not a function of its rank. *)
Theorem RenderTableOfContents_levels
        (E : Env) (block : Block) (c : Converter) (b0 : string) :
  Buf c = Some b0 ->
  RenderTableOfContents E block c
  = Some (setBuf c
            (Some (b0 ++ tocOpen E block
                      ++ tocEntries E c
                           (levelsBySign
                              None 0
                              (getHeaderBlocks (Content (Root (Page_ c)))))
                           (getHeaderBlocks (Content (Root (Page_ c))))
                      ++ "</nav>"))).
Proof.
  intro Hb. rewrite (TocFacts.RenderTableOfContents_spec E block c b0 Hb).
  now rewrite (tocIndents_sign _ (getHeaderBlocks_all_headers _)).
Qed.

Lemma tocIndents_from_near (rest : list Block) :
  forall blocks i indent k v,
    nth_error (tocIndents_from blocks rest i indent) k = Some v ->
    (- Z.of_nat (S k) <= v - indent <= Z.of_nat (S k))%Z.
Proof.
  induction rest as [|b rest IH]; intros blocks i indent k v;
    [now destruct k|].
  cbn [tocIndents_from]. cbv zeta.
  pose proof (adjustIndent_range blocks i) as Hr.
  destruct k as [|k]; cbn [nth_error].
  - intros [= <-]. lia.
  - intro H. apply IH in H. lia.
Qed.

Lemma tocIndents_from_step (rest : list Block) :
  forall blocks i indent k v v',
    nth_error (tocIndents_from blocks rest i indent) k = Some v ->
    nth_error (tocIndents_from blocks rest i indent) (S k) = Some v' ->
    (-1 <= v' - v <= 1)%Z.
Proof.
  induction rest as [|b rest IH]; intros blocks i indent k v v';
    [now destruct k|].
  cbn [tocIndents_from]. cbv zeta. destruct k as [|k]; cbn [nth_error].
  - intros [= <-]. destruct rest as [|b' rest]; [discriminate|]. intro H.
    change (Some (indent + adjustIndent blocks i
                  + adjustIndent blocks (S i))%Z = Some v') in H.
    pose proof (adjustIndent_range blocks (S i)) as Hr.
    remember (adjustIndent blocks (S i)) as step eqn:Hstep.
    injection H as <-. lia.
  - apply IH.
Qed.

Lemma tocIndents_from_length (rest : list Block) :
  forall blocks i indent,
    length (tocIndents_from blocks rest i indent) = length rest.
Proof.
  induction rest as [|b rest IH]; intros blocks i indent; [reflexivity|].
  cbn [tocIndents_from length]. cbv zeta. now rewrite IH.
Qed.

(** Whatever the blocks are, the table of contents has one indent per
    block, the first is 0, the entry of index [k] lies between [-k] and
    [k], and two neighbours differ by one at most: the running sum the
    loop keeps in an [int] never comes near its bounds. *)
Theorem tocIndents_bounded (blocks : list Block) (k : nat) (v : Z) :
  nth_error (tocIndents blocks) k = Some v ->
  length (tocIndents blocks) = length blocks
  /\ (- Z.of_nat k <= v <= Z.of_nat k)%Z
  /\ forall v', nth_error (tocIndents blocks) (S k) = Some v' ->
                (-1 <= v' - v <= 1)%Z.
Proof.
  intro Hk. split; [apply tocIndents_from_length|]. split.
  - unfold tocIndents in Hk. destruct blocks as [|b rest];
      [now destruct k|].
    cbn [tocIndents_from adjustIndent] in Hk. cbv zeta in Hk.
    destruct k as [|k]; cbn [nth_error] in Hk.
    + injection Hk as <-. lia.
    + apply tocIndents_from_near in Hk. lia.
  - intros v' Hk'. exact (tocIndents_from_step _ _ _ _ _ _ _ Hk Hk').
Qed.

Lemma RenderTableOfContents_levels_witness :
  Buf Examples.tocConverter = Some ""
  /\ bufAfter (RenderTableOfContents Examples.env Examples.tocBlock
                                     Examples.tocConverter)
     = Some (Some ("" ++ tocOpen Examples.env Examples.tocBlock
                      ++ tocEntries Examples.env Examples.tocConverter
                           [0; 1; 2; 1; 0]%Z
                           (getHeaderBlocks
                              (Content (Root (Page_ Examples.tocConverter))))
                      ++ "</nav>")).
Proof.
  split; [reflexivity|].
  rewrite (RenderTableOfContents_levels
             Examples.env Examples.tocBlock Examples.tocConverter ""
             eq_refl).
  reflexivity.
Defined.

Lemma tocIndents_bounded_witness :
  nth_error (tocIndents [Examples.block "a" BlockSubSubHeader [] [];
                         Examples.block "b" BlockHeader [] []]) 1
  = Some (-1)%Z
  /\ (- Z.of_nat 1 <= -1 <= Z.of_nat 1)%Z.
Proof.
  split; [reflexivity|].
  apply (tocIndents_bounded
           [Examples.block "a" BlockSubSubHeader [] [];
            Examples.block "b" BlockHeader [] []] 1 (-1)%Z).
  reflexivity.
Defined.

End IndentFacts.

(** ** What a conversion changes *)
Module ConversionFacts.
Import GoStrings Notionapi Tohtml2 Derived Notions StringFacts ListFacts
       CmdFacts FrameFacts.

Lemma sameSettings_refl (c : Converter) : sameSettings c c.
Proof. now repeat split. Qed.

Lemma sameSettings_trans (c1 c2 c3 : Converter) :
  sameSettings c1 c2 -> sameSettings c2 c3 -> sameSettings c1 c3.
Proof.
  unfold sameSettings. intros H12 H23.
  decompose [and] H12. decompose [and] H23. repeat split; congruence.
Qed.

Lemma onlyWrites_refl (c : Converter) : onlyWrites c c.
Proof. split; [apply bufGrows_refl | apply sameSettings_refl]. Qed.

Lemma onlyWrites_trans (c1 c2 c3 : Converter) :
  onlyWrites c1 c2 -> onlyWrites c2 c3 -> onlyWrites c1 c3.
Proof.
  intros [Hb12 Hs12] [Hb23 Hs23]. split.
  - exact (bufGrows_trans _ _ _ Hb12 Hb23).
  - exact (sameSettings_trans _ _ _ Hs12 Hs23).
Qed.

Lemma onlyWrites_write (c : Converter) (b s : string) :
  Buf c = Some b -> onlyWrites c (setBuf c (Some (b ++ s))).
Proof. intro Hb. split; [now apply bufGrows_write | now repeat split]. Qed.

Lemma onlyWrites_same (c c' : Converter) :
  Buf c' = Buf c -> sameSettings c c' -> onlyWrites c c'.
Proof. intros Hb Hs. split; [now apply bufGrows_same | exact Hs]. Qed.

Section Facts.

Variable E : Env.

(** Rendering a block, whatever is below it, only appends to the buffer
    and leaves the settings and the stack of buffers alone. *)
Lemma RenderBlock_onlyWrites (parents : list Block) (block : Block) :
  hookKeeps E onlyWrites ->
  keeps onlyWrites (RenderBlock E parents block).
Proof.
  intro Hhook.
  apply (keeps_RenderBlock
           E onlyWrites onlyWrites_refl onlyWrites_trans onlyWrites_write
           (fun c => onlyWrites_same c (setDidImportKatexCSS c true) eq_refl
                       (conj eq_refl
                          (conj eq_refl
                             (conj eq_refl
                                (conj eq_refl
                                   (conj eq_refl
                                      (conj eq_refl
                                         (conj eq_refl eq_refl))))))))
           (fun c c' l H => H) (fun c c' i H => H)
           (fun c c' i l H => H)
           (fun _ => True)); auto.
  - intros b _. induction (Content b); constructor; auto.
  - intros b _ _ c n. apply onlyWrites_same; [reflexivity|].
    now repeat split.
Qed.

(** When [RenderBlock] returns, what was in the buffer is still there, in
    front of what the block wrote; the page, the settings, the stack of
    buffers, the active sibling sequence and the current index are what
    they were.  Of the whole converter only the buffer, the list counter
    and the mark of the katex style sheet can differ. *)
Theorem RenderBlock_frame
        (parents : list Block) (block : Block) (c c' : Converter) :
  hookKeeps E onlyWrites -> hookKeeps E sameSiblings ->
  RenderBlock E parents block c = Some c' ->
  match Buf c with
  | Some b => exists w, Buf c' = Some (b ++ w)
  | None => Buf c' = None
  end
  /\ sameSettings c c'
  /\ CurrBlocks c' = CurrBlocks c /\ CurrBlockIdx c' = CurrBlockIdx c.
Proof.
  intros Hw Hs Hrun.
  destruct (RenderBlock_onlyWrites parents block Hw c c' Hrun) as [Hb Hset].
  destruct (RenderBlock_sameSiblings E parents block Hs c c' Hrun)
    as [Hblocks Hidx].
  repeat split; try assumption; try apply Hset.
  unfold bufGrows in Hb. destruct (Buf c) as [b|], (Buf c') as [b'|];
    try contradiction; [|reflexivity].
  destruct Hb as [w ->]. now exists w.
Qed.

Lemma detectKatex_keeps (c : Converter) :
  Buf (snd (detectKatex E c)) = Buf c
  /\ bufs (snd (detectKatex E c)) = bufs c
  /\ Page_ (snd (detectKatex E c)) = Page_ c.
Proof.
  unfold detectKatex.
  destruct (if KatexPath c =? "" then false else os_Stat E (KatexPath c));
    [now repeat split|].
  destruct (exec_LookPath E "katex"); [now repeat split|].
  destruct (KatexPath c =? ""); now repeat split.
Qed.

(** The run of [RenderBlock] on the root inside [ToHTML], from a converter
    [c0] whose buffer has just been pushed. *)
Lemma ToHTML_run (c0 : Converter) :
  hookKeeps E onlyWrites ->
  match (PushNewBuffer ;; RenderBlock E [] (Root (Page_ c0))) c0 with
  | None => True
  | Some c1 =>
    exists html c2,
      Buf c1 = Some html
      /\ PopBuffer c1 = Some (Some html, c2)
      /\ Buf c2 = Buf c0 /\ bufs c2 = bufs c0 /\ Page_ c2 = Page_ c0
  end.
Proof.
  intro Hhook. rewrite (andThen_Some PushNewBuffer _ c0 _ eq_refl).
  destruct (RenderBlock E [] (Root (Page_ c0)) _) as [c1|] eqn:Hrun;
    [|exact I].
  destruct (RenderBlock_onlyWrites [] _ Hhook _ _ Hrun) as [Hb Hset].
  destruct Hset as (Hpage & _ & _ & _ & _ & _ & _ & Hbufs).
  unfold bufGrows in Hb. cbn [Buf setBuf setBufs] in Hb.
  destruct (Buf c1) as [html|] eqn:Hbuf; [|contradiction].
  cbn [bufs setBuf setBufs Page_] in Hbufs, Hpage.
  exists html, (setBufs (setBuf c1 (Buf c0)) (bufs c0)).
  split; [reflexivity|]. split; [|now repeat split].
  unfold PopBuffer. rewrite Hbufs, rev_app_distr. cbn [rev List.app].
  now rewrite removelast_last, Hbuf.
Qed.

(** Unless it panics, [ToHTML] hands the converter back with the buffer,
    the stack of buffers and the page it had: the buffer it pushes for the
    rendering is the one it pops, whatever was rendered in between. *)
Theorem ToHTML_restores_buffers
        (c : Converter) (r : outcome string) (c' : Converter) :
  hookKeeps E onlyWrites ->
  ToHTML E c = (r, c') -> r <> Panic ->
  Buf c' = Buf c /\ bufs c' = bufs c /\ Page_ c' = Page_ c.
Proof.
  intros Hhook Hrun Hr. unfold ToHTML in Hrun. cbv zeta in Hrun.
  set (c1 := if NotionCompat c then setUseKatexToRenderEquation c true
             else c) in Hrun.
  assert (H1 : Buf c1 = Buf c /\ bufs c1 = bufs c /\ Page_ c1 = Page_ c)
    by (subst c1; destruct (NotionCompat c); now repeat split).
  destruct (if UseKatexToRenderEquation c1 then detectKatex E c1
            else (None, c1)) as [err c0] eqn:Hpre.
  assert (H0 : Buf c0 = Buf c /\ bufs c0 = bufs c /\ Page_ c0 = Page_ c).
  { destruct (UseKatexToRenderEquation c1).
    - pose proof (detectKatex_keeps c1) as Hk. rewrite Hpre in Hk.
      cbn [snd] in Hk. destruct Hk as (? & ? & ?), H1 as (? & ? & ?).
      repeat split; congruence.
    - injection Hpre as _ <-. exact H1. }
  destruct err as [msg|]; [injection Hrun as _ <-; exact H0|].
  pose proof (ToHTML_run c0 Hhook) as Hc0.
  destruct ((PushNewBuffer ;; RenderBlock E [] (Root (Page_ c0))) c0)
    as [c2|]; [|injection Hrun as <- _; congruence].
  destruct Hc0 as (html & c3 & _ & Hpop & Hb & Hbs & Hp).
  rewrite Hpop in Hrun. injection Hrun as _ <-.
  destruct H0 as (? & ? & ?). repeat split; congruence.
Qed.

(** The package-level [ToHTML] returns all that rendering the root wrote,
    and nothing else: on a fresh converter the katex check is not made, so
    there is no error to drop, and the function panics only where the
    rendering does. *)
Theorem ToHTML_page_result (page : Page) :
  hookKeeps E onlyWrites ->
  match RenderBlock E [] (Root page)
                    (setBuf (setBufs (NewConverter page) [None])
                            (Some "")) with
  | None => ToHTML_page E page = Panic
  | Some c1 => exists html, Buf c1 = Some html /\ ToHTML_page E page = Ok html
  end.
Proof.
  intro Hhook. pose proof (ToHTML_run (NewConverter page) Hhook) as Hrun.
  unfold ToHTML_page, ToHTML. cbn [NotionCompat UseKatexToRenderEquation
                                     NewConverter]. cbv zeta.
  fold (NewConverter page).
  rewrite (andThen_Some PushNewBuffer _ (NewConverter page) _ eq_refl)
    in Hrun |- *.
  cbn [Page_ NewConverter bufs Buf List.app] in Hrun |- *.
  fold (NewConverter page) in Hrun |- *.
  destruct (RenderBlock E [] (Root page) _) as [c1|]; [|reflexivity].
  destruct Hrun as (html & c2 & Hbuf & Hpop & _).
  exists html. split; [exact Hbuf|]. now rewrite Hpop.
Qed.

End Facts.

Lemma ToHTML_restores_buffers_witness :
  fst (ToHTML Examples.env (NewConverter Examples.emptyPage)) <> Panic
  /\ Buf (snd (ToHTML Examples.env (NewConverter Examples.emptyPage)))
     = Buf (NewConverter Examples.emptyPage).
Proof.
  assert (Hne : fst (ToHTML Examples.env (NewConverter Examples.emptyPage))
                <> Panic) by (vm_compute; discriminate).
  split; [exact Hne|].
  exact (proj1 (ToHTML_restores_buffers
                  Examples.env (NewConverter Examples.emptyPage) _ _
                  (SiblingFacts.hookKeeps_None Examples.env _ eq_refl)
                  (surjective_pairing _) Hne)).
Defined.

Lemma ToHTML_page_result_witness :
  exists html, ToHTML_page Examples.env Examples.emptyPage = Ok html.
Proof.
  pose proof (ToHTML_page_result
                Examples.env Examples.emptyPage
                (SiblingFacts.hookKeeps_None Examples.env _ eq_refl)) as H.
  destruct (RenderBlock Examples.env [] (Root Examples.emptyPage) _)
    as [c1|] eqn:Hrun.
  - destruct H as (html & _ & H). now exists html.
  - vm_compute in Hrun. discriminate.
Defined.

Lemma RenderBlock_frame_witness :
  exists c' w,
    RenderBlock Examples.env [] Examples.listPage Examples.converter
    = Some c'
    /\ Buf c' = Some ("" ++ w)
    /\ bufs c' = bufs Examples.converter.
Proof.
  destruct (RenderBlock Examples.env [] Examples.listPage
                        Examples.converter) as [c'|] eqn:Hrun.
  - destruct (RenderBlock_frame
                Examples.env [] Examples.listPage Examples.converter c'
                (SiblingFacts.hookKeeps_None Examples.env _ eq_refl)
                (SiblingFacts.hookKeeps_None Examples.env _ eq_refl) Hrun)
      as ([w Hw] & Hset & _).
    exists c', w. split; [reflexivity|]. split; [exact Hw | apply Hset].
  - vm_compute in Hrun. discriminate.
Defined.

End ConversionFacts.

(** ** Edges: unknown types, columns without schema, neighbours *)
Module EdgeFacts.
Import GoStrings Notionapi Tohtml2 Derived Notions StringFacts ListFacts
       CmdFacts KatexFacts.

Section Facts.

Variable E : Env.

Lemma DefaultRenderFunc_other
      (RenderChildren : Block -> Cmd) (parents : list Block) (block : Block) :
  isRenderedType (Type_ block) = false ->
  DefaultRenderFunc E RenderChildren parents (Type_ block) block
  = if (Type_ block =? BlockFactory) || negb (PanicOnFailures E)
    then Some None else None.
Proof.
  unfold isRenderedType, renderedTypes. cbn [existsb]. intro H.
  repeat (apply orb_false_iff in H; destruct H as [?Hty H]).
  unfold DefaultRenderFunc.
  repeat match goal with
         | Hty : (Type_ block =? _) = false |- _ => rewrite Hty; clear Hty
         end.
  destruct (Type_ block =? BlockFactory); [reflexivity|].
  now destruct (PanicOnFailures E).
Qed.

(** A block of a type without a renderer is passed over with all that is
    below it: nothing is written and the converter is left as it was.  For
    the type [factory] this is so in every mode; for any other such type
    it is so only when failures are not to panic, and the conversion is
    aborted otherwise. *)
Theorem RenderBlock_unsupported_type
        (parents : list Block) (block : Block) (c : Converter) :
  RenderBlockOverride E = None ->
  isRenderedType (Type_ block) = false ->
  RenderBlock E parents block c
  = if (Type_ block =? BlockFactory) || negb (PanicOnFailures E)
    then Some c else None.
Proof.
  intros Hhook Hty. rewrite RenderBlock_unfold. unfold RenderBlock_body.
  rewrite Hhook, (DefaultRenderFunc_other _ _ _ Hty).
  now destruct ((Type_ block =? BlockFactory) || negb (PanicOnFailures E)).
Qed.

(** *** Commands that always panic *)

Lemma andThen_never_l (f g : Cmd) :
  (forall c, f c = None) -> forall c, (f ;; g) c = None.
Proof. intros H c. unfold andThen. now rewrite H. Qed.

Lemma andThen_never_r (f g : Cmd) :
  (forall c, g c = None) -> forall c, (f ;; g) c = None.
Proof. intros H c. unfold andThen. now destruct (f c). Qed.

Lemma forEach_never {A : Type} (f : A -> Cmd) (l : list A) (x : A) :
  In x l -> (forall c, f x c = None) -> forall c, forEach f l c = None.
Proof.
  intros Hin Hx. induction l as [|y l IH]; [contradiction|].
  cbn [forEach]. destruct Hin as [->|Hin].
  - now apply andThen_never_l.
  - apply andThen_never_r. now apply IH.
Qed.

Lemma RenderCollectionView_cell_no_schema
      (parents : list Block) (collection : Collection) (row : Block)
      (col : TableProperty) :
  lookup (CollectionSchema collection) (Property col) = None ->
  forall c, RenderCollectionView_cell E parents collection row col c = None.
Proof.
  intros Hcol c. unfold RenderCollectionView_cell. cbv zeta.
  destruct (ParseTextSpans E _) as [spans|msg|]; [| |reflexivity].
  - rewrite GetInlineContent_spec. now rewrite Hcol.
  - destruct (maybePanic E c) as [c0|]; [|reflexivity].
    rewrite GetInlineContent_spec. now rewrite Hcol.
Qed.

(** A column of a table view that the schema of the collection does not
    have is fatal as soon as the view has a row: whatever the converter,
    [RenderCollectionView] panics.  The loop over the header cells looks
    at the schema entry only when there is one; the loop over the cells of
    a row reads its type without a look. *)
Theorem RenderCollectionView_column_without_schema
        (parents : list Block) (block : Block) (c : Converter)
        (viewInfo : CollectionViewInfo Block)
        (more : list (CollectionViewInfo Block))
        (format : FormatTable) (col : TableProperty) :
  CollectionViews block = viewInfo :: more ->
  Format (CollectionView_ viewInfo) = Some format ->
  In col (TableProperties format) ->
  lookup (CollectionSchema (Collection_ viewInfo)) (Property col) = None ->
  CollectionRows viewInfo <> [] ->
  RenderCollectionView E parents block c = None.
Proof.
  intros Hviews Hformat Hin Hcol Hrows. unfold RenderCollectionView.
  rewrite Hviews, Hformat. cbv zeta. revert c.
  apply andThen_never_r, andThen_never_l, andThen_never_r, andThen_never_r,
    andThen_never_l, andThen_never_r, andThen_never_r, andThen_never_r,
    andThen_never_r, andThen_never_l.
  destruct (CollectionRows viewInfo) as [|row rows]; [congruence|].
  apply (forEach_never _ _ row); [now left|].
  apply andThen_never_r, andThen_never_l.
  apply (forEach_never _ _ col Hin).
  now apply RenderCollectionView_cell_no_schema.
Qed.

End Facts.

Lemma RenderBlock_unsupported_type_witness :
  RenderBlock Examples.env [] Examples.strangeBlock Examples.converter
  = Some Examples.converter.
Proof.
  exact (RenderBlock_unsupported_type
           Examples.env [] Examples.strangeBlock Examples.converter
           eq_refl eq_refl).
Defined.

Lemma RenderCollectionView_column_without_schema_witness :
  RenderCollectionView Examples.env [] Examples.viewBlock Examples.converter
  = None.
Proof.
  apply (RenderCollectionView_column_without_schema
           Examples.env [] Examples.viewBlock Examples.converter
           _ _ _ (mkTableProperty "gone") eq_refl eq_refl).
  - right. now left.
  - reflexivity.
  - discriminate.
Defined.

End EdgeFacts.

(** ** Conversions that cannot panic *)
Module SteadyFacts.
Import GoStrings Notionapi Tohtml2 Derived Notions StringFacts ListFacts
       CmdFacts KatexFacts FrameFacts.

Section Facts.

Variable E : Env.
Hypothesis no_hook : RenderBlockOverride E = None.
Hypothesis only_logs : PanicOnFailures E = false.

Lemma ready_sameSiblings (c c' : Converter) :
  ready c -> Buf c' <> None ->
  UseKatexToRenderEquation c' = UseKatexToRenderEquation c ->
  sameSiblings c c' -> ready c'.
Proof.
  intros (Hb & Hk & Hi) Hb' Hk' [Hbl Hidx]. repeat split; try assumption.
  - congruence.
  - now rewrite Hbl, Hidx.
Qed.

Lemma steady_apply (f : Cmd) (c : Converter) :
  steady f -> ready c ->
  exists c', f c = Some c' /\ ready c' /\ sameSiblings c c'.
Proof. intros H. apply H. Qed.

Lemma steady_skip : steady skip.
Proof. intros c Hc. exists c. repeat split; assumption || apply Hc. Qed.

Lemma steady_maybePanic : steady (maybePanic E).
Proof.
  intros c Hc. exists c. unfold maybePanic. rewrite only_logs.
  repeat split; apply Hc.
Qed.

Lemma steady_Printf (s : string) : steady (Printf s).
Proof.
  intros c Hc. pose proof Hc as (Hb & Hk & Hi). unfold Printf.
  destruct (Buf c) as [b|]; [|congruence].
  exists (setBuf c (Some (b ++ s))). split; [reflexivity|].
  repeat split; try assumption. discriminate.
Qed.

Lemma steady_andThen (f g : Cmd) : steady f -> steady g -> steady (f ;; g).
Proof.
  intros Hf Hg c Hc. destruct (Hf c Hc) as (c1 & H1 & Hc1 & Hs1).
  destruct (Hg c1 Hc1) as (c2 & H2 & Hc2 & Hs2).
  exists c2. split; [now rewrite (andThen_Some f g c c1 H1)|].
  split; [exact Hc2|]. exact (sameSiblings_trans _ _ _ Hs1 Hs2).
Qed.

Lemma steady_RenderInlines (blocks : list TextSpan) :
  steady (RenderInlines E blocks).
Proof.
  induction blocks as [|b rest IH]; cbn [RenderInlines].
  - apply steady_skip.
  - apply steady_andThen; [|exact IH].
    intros c Hc. unfold RenderInline. now apply steady_Printf.
Qed.

Lemma steady_A (uri text cls : string) : steady (A uri text cls).
Proof.
  unfold A. cbv zeta. destruct (EscapeHTML uri =? ""); apply steady_Printf.
Qed.

Lemma steady_RenderCaption (block : Block) : steady (RenderCaption E block).
Proof.
  unfold RenderCaption. destruct (GetCaption block).
  - repeat apply steady_andThen; try apply steady_Printf.
    apply steady_RenderInlines.
  - apply steady_skip.
Qed.

(** A command put together from the commands above is steady. *)
Ltac steady_step :=
  first
    [ assumption
    | apply steady_skip
    | apply steady_maybePanic
    | apply steady_Printf
    | apply steady_RenderInlines
    | apply steady_A
    | apply steady_RenderCaption
    | apply steady_andThen
    | match goal with
      | |- steady (if ?b then _ else _) => destruct b
      | |- steady (match ?x with _ => _ end) => destruct x
      | |- steady (let _ := _ in _) => cbv zeta
      end ].

Ltac steady_tac := repeat steady_step.

(** A command that first reads the converter. *)
Ltac steady_run Hc := apply steady_apply; [steady_tac | exact Hc].

Lemma steady_renderHeader (parents : list Block) (block : Block) :
  coverOK block = true -> steady (renderHeader E parents block).
Proof.
  unfold coverOK, renderHeader. cbv zeta. intro Hcover.
  destruct (fst (PropAsString block "format.page_cover") =? "");
    [steady_tac|].
  destruct (FormatPage block); [steady_tac | discriminate].
Qed.

Lemma steady_renderLinkToPage (parents : list Block) (block : Block) :
  steady (renderLinkToPage E parents block).
Proof. unfold renderLinkToPage. steady_tac. Qed.

Lemma steady_RenderEquation (block : Block) :
  steady (RenderEquation E block).
Proof.
  intros c Hc. unfold RenderEquation. rewrite (proj1 (proj2 Hc)).
  cbn [negb]. steady_run Hc.
Qed.

Lemma steady_RenderHeaderLevel (block : Block) (level : Z) :
  steady (RenderHeaderLevel E block level).
Proof. intros c Hc. unfold RenderHeaderLevel. cbv zeta. steady_run Hc. Qed.

Lemma steady_RenderCallout (block : Block) : steady (RenderCallout E block).
Proof. unfold RenderCallout. steady_tac. Qed.

Lemma steady_RenderTableOfContents_loop (blocks rest : list Block) :
  forall i indent,
    steady (RenderTableOfContents_loop E blocks rest i indent).
Proof.
  induction rest as [|b rest IH]; intros i indent;
    cbn [RenderTableOfContents_loop]; [apply steady_skip|].
  cbv zeta. apply steady_andThen; [|apply IH].
  intros c Hc. rewrite GetInlineContent_spec. steady_run Hc.
Qed.

Lemma steady_RenderTableOfContents (block : Block) :
  steady (RenderTableOfContents E block).
Proof.
  intros c Hc. unfold RenderTableOfContents. cbv zeta. steady_run Hc.
  apply steady_RenderTableOfContents_loop.
Qed.

Lemma steady_RenderBookmark (block : Block) : steady (RenderBookmark E block).
Proof. unfold RenderBookmark. steady_tac. Qed.

Lemma steady_renderAudioVideo (parents : list Block) (block : Block) :
  steady (renderAudioVideo E parents block).
Proof. unfold renderAudioVideo. steady_tac. Qed.

Lemma steady_renderEmbed (block : Block) : steady (renderEmbed E block).
Proof. unfold renderEmbed. steady_tac. Qed.

Lemma steady_RenderEmbed (parents : list Block) (block : Block) :
  steady (RenderEmbed E parents block).
Proof. unfold RenderEmbed. steady_tac. Qed.

Lemma steady_RenderFigma (block : Block) : steady (RenderFigma E block).
Proof. unfold RenderFigma. steady_tac. Qed.

Lemma steady_renderFilePDF (parents : list Block) (block : Block) :
  steady (renderFilePDF E parents block).
Proof. unfold renderFilePDF. steady_tac. Qed.

Lemma steady_RenderDrive (block : Block) : steady (RenderDrive E block).
Proof. unfold RenderDrive. steady_tac. Qed.

Lemma steady_RenderImage (parents : list Block) (block : Block) :
  steady (RenderImage E parents block).
Proof. unfold RenderImage. steady_tac. Qed.

Lemma steady_RenderBreadcrumb (block : Block) :
  steady (RenderBreadcrumb block).
Proof.
  intros c Hc. unfold RenderBreadcrumb. destruct (NotionCompat c).
  - exists c. repeat split; apply Hc.
  - unfold RenderNYI. now apply steady_Printf.
Qed.

(** *** The renderers that render the children of their block *)

Section WithChildren.

Variable RenderChildren : Block -> Cmd.
Variable block : Block.
Hypothesis RenderChildren_steady : steady (RenderChildren block).

Lemma steady_renderRootPage (parents : list Block) :
  coverOK block = true ->
  steady (renderRootPage E RenderChildren parents block).
Proof.
  intros Hcover c Hc. unfold renderRootPage. cbv zeta.
  pose proof (steady_renderHeader parents block Hcover) as Hheader.
  steady_run Hc.
Qed.

Lemma steady_RenderPage (parents : list Block) :
  coverOK block = true ->
  steady (RenderPage E RenderChildren parents block).
Proof.
  intros Hcover c Hc. unfold RenderPage.
  destruct (IsRoot (Page_ c) block);
    [now apply steady_renderRootPage|].
  destruct (IsSubPage (Page_ c) block);
    now apply steady_renderLinkToPage.
Qed.

Lemma steady_RenderText : steady (RenderText E RenderChildren block).
Proof. unfold RenderText. steady_tac. Qed.

Lemma PrevBlock_ready (c : Converter) :
  ready c -> exists prev, PrevBlock c = Some prev.
Proof.
  intros (_ & _ & Hidx). unfold PrevBlock.
  destruct (CurrBlockIdx c) as [|i]; [now exists None|].
  destruct (nth_error (CurrBlocks c) i) as [b|] eqn:Hnth;
    [now exists (Some b)|].
  apply nth_error_None in Hnth. lia.
Qed.

Lemma steady_RenderNumberedList :
  steady (RenderNumberedList E RenderChildren block).
Proof.
  intros c Hc. unfold RenderNumberedList, IsPrevBlockOfType.
  destruct (PrevBlock_ready c Hc) as [prev ->]. cbv zeta.
  pose proof Hc as (Hb & Hk & Hi).
  assert (Hn : forall n, ready (setListNo c n)) by (intro n; now repeat split).
  destruct (match prev with
            | Some b => Type_ b =? BlockNumberedList
            | None => false
            end) eqn:Hprev.
  - destruct prev as [b|]; [|discriminate]. rewrite Hprev.
    apply (steady_apply _ (setListNo c (wrapInt (ListNo c + 1))));
      [steady_tac | apply Hn].
  - assert (Hbody :
              exists c',
                ((Printf ("<ol id=" ++ q (ID block) ++ " class="
                          ++ q (cleanAttr
                                  E (getBlockColorClass block
                                     ++ " numbered-list"))
                          ++ " start=" ++ q (itoa 1) ++ ">") ;;
                  (Printf "<li>" ;;
                   (RenderInlines E (InlineContent block) ;;
                    RenderChildren block) ;;
                   Printf "</li>") ;;
                  Printf "</ol>") (setListNo c 1)) = Some c'
                /\ ready c' /\ sameSiblings (setListNo c 1) c')
      by (apply steady_apply; [steady_tac | apply Hn]).
    destruct prev as [b|]; [rewrite Hprev|]; exact Hbody.
Qed.

Lemma steady_RenderBulletedList :
  steady (RenderBulletedList E RenderChildren block).
Proof. unfold RenderBulletedList. steady_tac. Qed.

Lemma steady_RenderTodo : steady (RenderTodo E RenderChildren block).
Proof. unfold RenderTodo. steady_tac. Qed.

Lemma steady_RenderToggle : steady (RenderToggle E RenderChildren block).
Proof. unfold RenderToggle. steady_tac. Qed.

Lemma steady_RenderQuote : steady (RenderQuote E RenderChildren block).
Proof. unfold RenderQuote. steady_tac. Qed.

Lemma steady_RenderColumnList :
  steady (RenderColumnList E RenderChildren block).
Proof. unfold RenderColumnList. steady_tac. Qed.

Lemma steady_RenderColumn : steady (RenderColumn RenderChildren block).
Proof. unfold RenderColumn. steady_tac. Qed.

Lemma steady_DefaultRenderFunc (parents : list Block) (def : Cmd) :
  (Type_ block =? BlockCollectionView) = false ->
  (Type_ block =? BlockCollectionViewPage) = false ->
  ((Type_ block =? BlockPage) = true -> coverOK block = true) ->
  DefaultRenderFunc E RenderChildren parents (Type_ block) block
  = Some (Some def) ->
  steady def.
Proof.
  intros Hcv Hcvp Hpage. unfold DefaultRenderFunc.
  repeat match goal with
         | |- (if ?b then _ else _) = _ -> _ =>
           destruct b eqn:?;
             [ let H := fresh in
               intro H; injection H as <- | ]
         end;
    try (repeat match goal with
                | |- (if ?b then _ else _) = _ -> _ => destruct b
                end; discriminate);
    first
      [ congruence
      | apply steady_RenderPage; now apply Hpage
      | apply steady_RenderText
      | apply steady_RenderEquation
      | apply steady_RenderNumberedList
      | apply steady_RenderBulletedList
      | apply steady_RenderHeaderLevel
      | apply steady_RenderTodo
      | apply steady_RenderToggle
      | apply steady_RenderQuote
      | apply steady_Printf
      | apply steady_RenderBookmark
      | apply steady_RenderImage
      | apply steady_RenderColumnList
      | apply steady_RenderColumn
      | apply steady_RenderEmbed
      | apply steady_renderEmbed
      | apply steady_renderAudioVideo
      | apply steady_renderFilePDF
      | apply steady_RenderDrive
      | apply steady_RenderFigma
      | apply steady_RenderCallout
      | apply steady_RenderTableOfContents
      | apply steady_RenderBreadcrumb
      | unfold RenderCode; steady_tac ].
Qed.

Lemma DefaultRenderFunc_returns (parents : list Block) :
  DefaultRenderFunc E RenderChildren parents (Type_ block) block <> None.
Proof.
  unfold DefaultRenderFunc. rewrite only_logs.
  repeat match goal with
         | |- (if ?b then _ else _) <> _ => destruct b
         end; discriminate.
Qed.

Lemma steady_RenderBlock_body (parents : list Block) :
  (Type_ block =? BlockCollectionView) = false ->
  (Type_ block =? BlockCollectionViewPage) = false ->
  ((Type_ block =? BlockPage) = true -> coverOK block = true) ->
  steady (RenderBlock_body E RenderChildren parents block).
Proof.
  intros Hcv Hcvp Hpage c Hc. unfold RenderBlock_body. rewrite no_hook.
  pose proof (steady_DefaultRenderFunc parents) as Hdef.
  pose proof (DefaultRenderFunc_returns parents) as Hret.
  destruct (DefaultRenderFunc E RenderChildren parents (Type_ block) block)
    as [[def|]|]; [|now apply steady_skip|congruence].
  now apply (Hdef def Hcv Hcvp Hpage eq_refl).
Qed.

End WithChildren.

(** *** Down the tree *)

Lemma steady_RenderChildren_loop
      (renderBlock : Block -> Cmd) (all : list Block) (rest : list Block) :
  Forall (fun child => steady (renderBlock child)) rest ->
  forall i c,
    i + length rest = length all ->
    Buf c <> None -> UseKatexToRenderEquation c = false ->
    CurrBlocks c = all ->
    exists c',
      RenderChildren_loop renderBlock rest i c = Some c'
      /\ Buf c' <> None /\ UseKatexToRenderEquation c' = false
      /\ CurrBlocks c' = all.
Proof.
  induction 1 as [|child rest Hchild _ IH]; intros i c Hlen Hb Hk Hall;
    cbn [RenderChildren_loop].
  - now exists c.
  - cbn [length] in Hlen.
    assert (Hready : ready (setCurrBlockIdx c i)).
    { repeat split; try assumption. cbn [CurrBlockIdx CurrBlocks
                                           setCurrBlockIdx].
      rewrite Hall. lia. }
    destruct (Hchild _ Hready) as (c1 & Hrun & (Hb1 & Hk1 & _) & Hs1 & _).
    cbn [CurrBlocks setCurrBlockIdx] in Hs1.
    destruct (IH (S i) c1) as (c2 & Hrest & Hc2);
      [lia | assumption | assumption | congruence |].
    exists c2. split; [|exact Hc2]. unfold andThen. now rewrite Hrun.
Qed.

Lemma steady_RenderChildren_with
      (renderBlock : list Block -> Block -> Cmd)
      (parents : list Block) (block : Block) :
  Forall (fun child => steady (renderBlock (block :: parents) child))
         (Content block) ->
  steady (RenderChildren_with renderBlock parents block).
Proof.
  intro Hall. unfold RenderChildren_with.
  destruct (Content block) as [|child rest] eqn:Hcontent;
    [apply steady_skip|].
  cbv zeta. repeat apply steady_andThen;
    try (destruct (needsIndent block);
         [apply steady_Printf | apply steady_skip]).
  intros c (Hb & Hk & Hi).
  destruct (steady_RenderChildren_loop
              (renderBlock (block :: parents)) (child :: rest)
              (child :: rest) Hall 0 (setCurrBlocks c (child :: rest))
              eq_refl Hb Hk eq_refl)
    as (c1 & Hrun & Hb1 & Hk1 & _).
  rewrite Hrun. eexists. split; [reflexivity|]. now repeat split.
Qed.

Lemma calm_inv (b : Block) :
  calm b = true ->
  (Type_ b =? BlockCollectionView) = false
  /\ (Type_ b =? BlockCollectionViewPage) = false
  /\ ((Type_ b =? BlockPage) = true -> coverOK b = true)
  /\ Forall (fun child => calm child = true) (Content b).
Proof.
  destruct b as [id ty content title spans code source link files checked
                 colID views props fprops fpage fcol fimg caption gtitle].
  cbn [calm Type_ Content]. intro H.
  apply andb_true_iff in H. destruct H as [H Hall].
  apply andb_true_iff in H. destruct H as [H Hpage].
  apply andb_true_iff in H. destruct H as [Hcv Hcvp].
  apply negb_true_iff in Hcv, Hcvp.
  split; [exact Hcv|]. split; [exact Hcvp|]. split.
  - intro Hty. rewrite Hty in Hpage. exact Hpage.
  - clear Hcv Hcvp Hpage.
    induction content as [|child rest IH]; constructor.
    + now apply andb_prop in Hall.
    + apply IH. now apply andb_prop in Hall.
Qed.

Lemma steady_RenderBlock :
  forall block, calm block = true ->
                forall parents, steady (RenderBlock E parents block).
Proof.
  induction block as [block IH] using Block_tree_ind.
  intros Hcalm parents. rewrite RenderBlock_unfold.
  destruct (calm_inv block Hcalm) as (Hcv & Hcvp & Hpage & Hall).
  apply steady_RenderBlock_body; try assumption.
  apply steady_RenderChildren_with.
  revert IH Hall. generalize (Content block).
  induction 1 as [|child rest Hchild _ IHrest]; intro Hg; constructor.
  - apply Hchild. now inversion Hg.
  - apply IHrest. now inversion Hg.
Qed.

(** The trees and converters of this development are those without a nil
    pointer in them (no nil entry in a [Content], no nil span, no nil
    page) and with a [CurrBlockIdx] that is not negative; a nil child and
    a negative index make the source panic, and they are outside of what
    is stated here.  Within these: without an override hook and with
    failures that are only logged, a tree of blocks that holds no
    collection view, and no page with a cover but without a format, is
    rendered without a panic from every converter that has a buffer, does
    not run katex and has its current index at most the length of the
    active sequence; and the package-level [ToHTML] of a page whose root
    is such a tree returns its HTML.  Block types the converter does not
    know are no obstacle: they are passed over. *)
Theorem conversion_never_panics :
  (forall parents block c,
      calm block = true -> ready c ->
      exists c', RenderBlock E parents block c = Some c' /\ ready c')
  /\ (forall page,
        calm (Root page) = true ->
        exists html, ToHTML_page E page = Ok html).
Proof.
  split.
  - intros parents block c Hcalm Hc.
    destruct (steady_RenderBlock block Hcalm parents c Hc)
      as (c' & Hrun & Hc' & _).
    now exists c'.
  - intros page Hcalm.
    pose proof (ConversionFacts.ToHTML_run
                  E (NewConverter page)
                  (SiblingFacts.hookKeeps_None E _ no_hook)) as Hrun.
    unfold ToHTML_page, ToHTML.
    cbn [NotionCompat UseKatexToRenderEquation NewConverter]. cbv zeta.
    fold (NewConverter page).
    rewrite (andThen_Some PushNewBuffer _ (NewConverter page) _ eq_refl)
      in Hrun |- *.
    cbn [Page_ NewConverter bufs Buf List.app] in Hrun |- *.
    fold (NewConverter page) in Hrun |- *.
    destruct (steady_RenderBlock
                (Root page) Hcalm []
                (setBuf (setBufs (NewConverter page) [None]) (Some "")))
      as (c1 & Hc1 & _).
    { repeat split; [discriminate | apply le_n]. }
    rewrite Hc1 in Hrun |- *.
    destruct Hrun as (html & c2 & _ & Hpop & _).
    exists html. now rewrite Hpop.
Qed.

End Facts.

Lemma conversion_never_panics_witness :
  calm (Root Examples.tocPage) = true
  /\ exists html, ToHTML_page Examples.env Examples.tocPage = Ok html.
Proof.
  split; [reflexivity|].
  apply (proj2 (conversion_never_panics Examples.env eq_refl eq_refl)
               Examples.tocPage).
  reflexivity.
Defined.

End SteadyFacts.

(** ** Plain spans *)
Module PlainFacts.
Import Inline TokenShapes.

Section Facts.

Variable unmarshalDate : list (string * JSON) -> option Date.

Lemma parseAttributes_comments (ids : list string) :
  forall b,
    exists b',
      parseAttributes unmarshalDate b (map commentTuple ids) = Ok b'
      /\ Text b' = Text b /\ AttrFlags b' = AttrFlags b
      /\ Link b' = Link b /\ UserID b' = UserID b /\ Date_ b' = Date_ b.
Proof.
  induction ids as [|id ids IH]; intro b; [now exists b|].
  destruct (IH (setCommentID b id)) as (b' & Hrun & Hrest).
  exists b'. split; [exact Hrun | exact Hrest].
Qed.

Lemma orFlag_not_0 (b : InlineBlock) (f : Z) :
  f <> 0%Z -> AttrFlags (orFlag b f) <> 0%Z.
Proof.
  intros Hf H. cbn [AttrFlags orFlag] in H.
  apply Z.lor_eq_0_iff in H. now destruct H.
Qed.

Lemma parseAttribute_flags_stay (b b' : InlineBlock) (a : list JSON) :
  parseAttribute unmarshalDate b a = Ok b' ->
  (AttrFlags b <> 0%Z -> AttrFlags b' <> 0%Z)
  /\ (length a = 1 -> AttrFlags b' <> 0%Z).
Proof.
  intro H. destruct a as [|a0 rest]; [discriminate|].
  destruct a0 as [| | |s| |]; try discriminate.
  destruct rest as [|a1 rest].
  - cbn [parseAttribute] in H.
    assert (Hor : forall f, f <> 0%Z -> b' = orFlag b f ->
                            AttrFlags b' <> 0%Z)
      by (intros f Hf ->; now apply orFlag_not_0).
    assert (Hb' : AttrFlags b' <> 0%Z).
    { destruct (s =? "b"); [injection H as <-; now apply (Hor AttrBold)|].
      destruct (s =? "i"); [injection H as <-; now apply (Hor AttrItalic)|].
      destruct (s =? "s");
        [injection H as <-; now apply (Hor AttrStrikeThrought)|].
      destruct (s =? "c"); [injection H as <-; now apply (Hor AttrCode)|].
      discriminate. }
    now split.
  - destruct rest as [|a2 rest]; [|discriminate].
    split; [|discriminate]. cbn [parseAttribute] in H.
    destruct ((s =? "a") || (s =? "u") || (s =? "m")).
    + destruct a1 as [| | |v| |]; try discriminate.
      destruct (s =? "a"); [now injection H as <-|].
      destruct (s =? "u"); [now injection H as <-|].
      destruct (s =? "m"); [now injection H as <-|discriminate].
    + destruct (s =? "d"); [|discriminate].
      destruct a1 as [| | | | |v]; try discriminate.
      destruct (unmarshalDate v); [now injection H as <-|discriminate].
Qed.

Lemma parseAttributes_flags_stay (attrs : list JSON) :
  forall b b',
    parseAttributes unmarshalDate b attrs = Ok b' ->
    (AttrFlags b <> 0%Z -> AttrFlags b' <> 0%Z)
    /\ (forall t, In (JArr t) attrs -> length t = 1 ->
                  AttrFlags b' <> 0%Z).
Proof.
  induction attrs as [|rawAttr attrs IH]; intros b b' H.
  - injection H as <-. split; [trivial | contradiction].
  - cbn [parseAttributes] in H.
    destruct rawAttr as [| | | |t0|]; try discriminate.
    destruct (parseAttribute unmarshalDate b t0) as [b1| |] eqn:H1;
      try discriminate.
    destruct (parseAttribute_flags_stay b b1 t0 H1) as [Hstay Hone].
    destruct (IH b1 b' H) as [IHstay IHin]. split.
    + intro Hb. now apply IHstay, Hstay.
    + intros t [Heq|Hin] Hlen.
      * injection Heq as <-. now apply IHstay, Hone.
      * now apply (IHin t).
Qed.

(** What [IsPlain] counts.  A span whose attributes are comment marks
    only is parsed, keeps its text, and is plain: the comment is not
    among the things [IsPlain] looks at.  A span with a one-element
    attribute, that is one of the flags bold, italic, strikethrough and
    code, is not plain once it is parsed, whatever else it carries. *)
Theorem IsPlain_of_parsed_span (text : string) :
  (forall ids,
      exists b,
        parseInlineBlock unmarshalDate
                         [JStr text; JArr (map commentTuple ids)] = Ok b
        /\ Text b = text /\ IsPlain b = true)
  /\ (forall attrs b t,
        parseInlineBlock unmarshalDate [JStr text; JArr attrs] = Ok b ->
        In (JArr t) attrs -> length t = 1 ->
        IsPlain b = false).
Proof.
  split.
  - intro ids. cbn [parseInlineBlock].
    destruct (parseAttributes_comments ids (newInlineBlock text))
      as (b & Hrun & Htext & Hflags & Hlink & Huser & Hdate).
    exists b. split; [exact Hrun|]. split; [exact Htext|].
    unfold IsPlain. now rewrite Hflags, Hlink, Huser, Hdate.
  - intros attrs b t Hrun Hin Hlen. cbn [parseInlineBlock] in Hrun.
    destruct (parseAttributes_flags_stay _ _ _ Hrun) as [_ Hflag].
    specialize (Hflag t Hin Hlen). unfold IsPlain.
    apply Z.eqb_neq in Hflag. now rewrite Hflag.
Qed.

End Facts.

End PlainFacts.

(** ** Looking up a related page *)
Module PageFacts.
Import GoStrings Notionapi PageLookup.

Section Facts.

Variable ToDashID : string -> string.

Lemma find_app {A : Type} (f : A -> bool) (l1 l2 : list A) :
  find f (l1 ++ l2)
  = match find f l1 with
    | Some x => Some x
    | None => find f l2
    end.
Proof.
  induction l1 as [|x l1 IH]; [reflexivity|]. cbn [List.app find].
  now destruct (f x).
Qed.

Lemma lookup_buildIndex (pages : list Page) (key : string) :
  forall m,
    lookup (fold_left (fun m page => (ToDashID (PageID page), page) :: m)
                      pages m) key
    = match find (fun page => ToDashID (PageID page) =? key) (rev pages) with
      | Some page => Some page
      | None => lookup m key
      end.
Proof.
  induction pages as [|page pages IH]; intro m; [reflexivity|].
  cbn [fold_left rev]. rewrite IH, find_app. cbn [find lookup].
  destruct (find _ (rev pages)); [reflexivity|].
  now destruct (ToDashID (PageID page) =? key).
Qed.

Lemma fold_bindings_not_nil (pages : list Page) :
  forall (m : list (string * Page)) (x : string * Page),
    fold_left (fun m page => (ToDashID (PageID page), page) :: m)
              pages (x :: m) <> [].
Proof.
  induction pages as [|p pages IH]; intros m x; cbn [fold_left];
    [discriminate | apply IH].
Qed.

Lemma buildIndex_not_nil (page : Page) (pages : list Page) :
  buildIndex ToDashID (page :: pages) <> [].
Proof. unfold buildIndex. cbn [fold_left]. apply fold_bindings_not_nil. Qed.

(** [PageByID] finds the last of the related pages whose id, in its dashed
    form, is the requested one: of two pages with the same id the later
    hides the earlier.  The map it builds on the first call answers all
    later calls, which leave the converter alone; once there is a map, the
    list of pages is only asked whether it is empty: with an empty list
    nothing is found, whatever the map holds, and with any other list the
    answer is read off the map. *)
Theorem PageByID_finds (c : PageIndex) (pageID : string) :
  (idToPage c = [] ->
   fst (PageByID ToDashID c pageID)
   = find (fun page => ToDashID (PageID page) =? ToDashID pageID)
          (rev (Pages c)))
  /\ (forall other,
        PageByID ToDashID (snd (PageByID ToDashID c pageID)) other
        = (fst (PageByID ToDashID c other),
           snd (PageByID ToDashID c pageID)))
  /\ (Pages c = [] -> PageByID ToDashID c pageID = (None, c))
  /\ (Pages c <> [] -> idToPage c <> [] ->
      PageByID ToDashID c pageID
      = (lookup (idToPage c) (ToDashID pageID), c)).
Proof.
  unfold PageByID. cbv zeta. split; [|split; [|split]].
  - intro Hmap. rewrite Hmap.
    destruct (Pages c) as [|page pages] eqn:Hpages; [reflexivity|].
    cbn [fst idToPage]. unfold buildIndex.
    rewrite lookup_buildIndex.
    now destruct (find _ (rev (page :: pages))).
  - intro other. destruct (Pages c) as [|page pages] eqn:Hpages.
    + cbn [snd fst]. now rewrite Hpages.
    + destruct (idToPage c) as [|binding m] eqn:Hmap.
      * cbn [snd fst Pages idToPage].
        pose proof (buildIndex_not_nil page pages) as Hne.
        now destruct (buildIndex ToDashID (page :: pages)).
      * cbn [snd fst]. rewrite Hpages, Hmap. now rewrite Hmap.
  - now intros ->.
  - intros Hpages Hmap. destruct (Pages c); [congruence|].
    destruct (idToPage c) eqn:Hm; [congruence | now rewrite Hm].
Qed.

End Facts.

End PageFacts.

(** ** Equations whose typesetting fails *)
Module EquationFacts.
Import GoStrings Notionapi Tohtml2 Derived Notions StringFacts ListFacts
       CmdFacts KatexFacts FrameFacts.

Section Blind.

Variable E : Env.
Hypothesis no_hook : RenderBlockOverride E = None.
Hypothesis katex_fails : forall path s, exists msg, katex E path s = Err msg.

Lemma blind_apply (f : Cmd) (p : string) (c : Converter) :
  blind f -> f (katexOff p c) = option_map (katexOff p) (f c).
Proof. intro H. apply H. Qed.

Lemma blind_skip : blind skip.
Proof. now intros p c. Qed.

Lemma blind_panic : blind panic.
Proof. now intros p c. Qed.

Lemma blind_maybePanic : blind (maybePanic E).
Proof. intros p c. unfold maybePanic. now destruct (PanicOnFailures E). Qed.

Lemma blind_Printf (s : string) : blind (Printf s).
Proof.
  intros p c. unfold Printf.
  change (Buf (katexOff p c)) with (Buf c). now destruct (Buf c).
Qed.

Lemma blind_andThen (f g : Cmd) : blind f -> blind g -> blind (f ;; g).
Proof.
  intros Hf Hg p c. unfold andThen. rewrite (Hf p c).
  destruct (f c) as [c1|]; [apply Hg | reflexivity].
Qed.

Lemma blind_RenderInline (b : TextSpan) : blind (RenderInline E b).
Proof.
  intros p c. unfold RenderInline.
  change (RenderInline_html E (katexOff p c) b)
    with (RenderInline_html E c b).
  apply blind_Printf.
Qed.

Lemma blind_RenderInlines (blocks : list TextSpan) :
  blind (RenderInlines E blocks).
Proof.
  induction blocks as [|b rest IH]; cbn [RenderInlines].
  - apply blind_skip.
  - apply blind_andThen; [apply blind_RenderInline | exact IH].
Qed.

Lemma blind_forEach {A : Type} (f : A -> Cmd) (l : list A) :
  (forall x, blind (f x)) -> blind (forEach f l).
Proof.
  intro Hf. induction l as [|x rest IH]; cbn [forEach].
  - apply blind_skip.
  - apply blind_andThen; [apply Hf | exact IH].
Qed.

Lemma blind_A (uri text cls : string) : blind (A uri text cls).
Proof.
  unfold A. cbv zeta. destruct (EscapeHTML uri =? ""); apply blind_Printf.
Qed.

Lemma blind_RenderCaption (block : Block) : blind (RenderCaption E block).
Proof.
  unfold RenderCaption. destruct (GetCaption block).
  - repeat apply blind_andThen; try apply blind_Printf.
    apply blind_RenderInlines.
  - apply blind_skip.
Qed.

(** A command put together from the commands above is blind. *)
Ltac blind_step :=
  first
    [ assumption
    | apply blind_skip
    | apply blind_panic
    | apply blind_maybePanic
    | apply blind_Printf
    | apply blind_RenderInlines
    | apply blind_A
    | apply blind_RenderCaption
    | apply blind_andThen
    | match goal with
      | |- blind (if ?b then _ else _) => destruct b
      | |- blind (match ?x with _ => _ end) => destruct x
      | |- blind (let _ := _ in _) => cbv zeta
      end ].

Ltac blind_tac := repeat blind_step.

(** A command that first reads the converter: what it reads is the same
    with typesetting on and off. *)
Ltac blind_run := apply blind_apply; blind_tac.

Lemma blind_renderHeader (parents : list Block) (block : Block) :
  blind (renderHeader E parents block).
Proof. unfold renderHeader. blind_tac. Qed.

Lemma blind_RenderCollectionViewPage (block : Block) :
  blind (RenderCollectionViewPage block).
Proof.
  intros p c. unfold RenderCollectionViewPage. cbv zeta.
  change (Page_ (katexOff p c)) with (Page_ c).
  destruct (CollectionByID (Page_ c) (CollectionID block)); [|reflexivity].
  blind_run.
Qed.

Lemma blind_renderLinkToPage (parents : list Block) (block : Block) :
  blind (renderLinkToPage E parents block).
Proof. unfold renderLinkToPage. blind_tac. Qed.

(** The one renderer that reads the settings of katex: with a katex that
    fails it writes what it writes with typesetting off. *)
Lemma blind_RenderEquation (block : Block) : blind (RenderEquation E block).
Proof.
  intros p c. unfold RenderEquation.
  change (UseKatexToRenderEquation (katexOff p c)) with false.
  cbn [negb]. cbv zeta.
  destruct (UseKatexToRenderEquation c); cbn [negb]; [|blind_run].
  unfold equationToHTML.
  destruct (katex_fails (KatexPath c)
                        (TextSpansToString E (InlineContent block)))
    as [msg ->].
  blind_run.
Qed.

Lemma blind_RenderHeaderLevel (block : Block) (level : Z) :
  blind (RenderHeaderLevel E block level).
Proof.
  intros p c. unfold RenderHeaderLevel. cbv zeta.
  change (AddHeaderAnchor (katexOff p c)) with (AddHeaderAnchor c).
  blind_run.
Qed.

Lemma blind_RenderCallout (block : Block) : blind (RenderCallout E block).
Proof. unfold RenderCallout. blind_tac. Qed.

Lemma blind_RenderTableOfContents_loop (blocks rest : list Block) :
  forall i indent,
    blind (RenderTableOfContents_loop E blocks rest i indent).
Proof.
  induction rest as [|b rest IH]; intros i indent;
    cbn [RenderTableOfContents_loop]; [apply blind_skip|].
  cbv zeta. apply blind_andThen; [|apply IH].
  intros p c. rewrite !GetInlineContent_spec.
  change (inlinesHTML E (katexOff p c) (InlineContent b))
    with (inlinesHTML E c (InlineContent b)).
  blind_run.
Qed.

Lemma blind_RenderTableOfContents (block : Block) :
  blind (RenderTableOfContents E block).
Proof.
  intros p c. unfold RenderTableOfContents. cbv zeta.
  change (Page_ (katexOff p c)) with (Page_ c).
  blind_run. apply blind_RenderTableOfContents_loop.
Qed.

Lemma blind_RenderBookmark (block : Block) : blind (RenderBookmark E block).
Proof. unfold RenderBookmark. blind_tac. Qed.

Lemma blind_renderAudioVideo (parents : list Block) (block : Block) :
  blind (renderAudioVideo E parents block).
Proof. unfold renderAudioVideo. blind_tac. Qed.

Lemma blind_renderEmbed (block : Block) : blind (renderEmbed E block).
Proof. unfold renderEmbed. blind_tac. Qed.

Lemma blind_RenderEmbed (parents : list Block) (block : Block) :
  blind (RenderEmbed E parents block).
Proof. unfold RenderEmbed. blind_tac. Qed.

Lemma blind_RenderFigma (block : Block) : blind (RenderFigma E block).
Proof. unfold RenderFigma. blind_tac. Qed.

Lemma blind_renderFilePDF (parents : list Block) (block : Block) :
  blind (renderFilePDF E parents block).
Proof. unfold renderFilePDF. blind_tac. Qed.

Lemma blind_RenderDrive (block : Block) : blind (RenderDrive E block).
Proof. unfold RenderDrive. blind_tac. Qed.

Lemma blind_RenderImage (parents : list Block) (block : Block) :
  blind (RenderImage E parents block).
Proof. unfold RenderImage. blind_tac. Qed.

Lemma blind_RenderBreadcrumb (block : Block) :
  blind (RenderBreadcrumb block).
Proof.
  intros p c. unfold RenderBreadcrumb.
  change (NotionCompat (katexOff p c)) with (NotionCompat c).
  destruct (NotionCompat c); [reflexivity|].
  unfold RenderNYI. apply blind_Printf.
Qed.

Lemma blind_RenderCollectionView_cell
      (parents : list Block) (collection : Collection) (row : Block)
      (col : TableProperty) :
  blind (RenderCollectionView_cell E parents collection row col).
Proof.
  intros p c. unfold RenderCollectionView_cell. cbv zeta.
  destruct (ParseTextSpans E _) as [spans|msg|]; [| |reflexivity].
  - rewrite !GetInlineContent_spec.
    change (inlinesHTML E (katexOff p c) spans)
      with (inlinesHTML E c spans).
    destruct (lookup (CollectionSchema collection) (Property col));
      [|reflexivity].
    apply blind_Printf.
  - rewrite (blind_maybePanic p c).
    destruct (maybePanic E c) as [c0|]; [|reflexivity].
    cbn [option_map]. rewrite !GetInlineContent_spec.
    destruct (lookup (CollectionSchema collection) (Property col));
      [|reflexivity].
    apply blind_Printf.
Qed.

Lemma blind_RenderCollectionView (parents : list Block) (block : Block) :
  blind (RenderCollectionView E parents block).
Proof.
  unfold RenderCollectionView. blind_tac.
  - apply blind_forEach. intro col. cbv zeta. apply blind_Printf.
  - apply blind_forEach. intro row. blind_tac.
    apply blind_forEach. apply blind_RenderCollectionView_cell.
Qed.

Lemma blind_RenderDivider (block : Block) : blind (RenderDivider block).
Proof. unfold RenderDivider. blind_tac. Qed.

Lemma blind_RenderCode (block : Block) : blind (RenderCode block).
Proof. unfold RenderCode. blind_tac. Qed.

Lemma blind_PushNewBuffer : blind PushNewBuffer.
Proof. now intros p c. Qed.

(** *** Renderers that render the children *)
Section WithChildren.

Variable RenderChildren : Block -> Cmd.
Variable block : Block.
Hypothesis RenderChildren_blind : blind (RenderChildren block).

Lemma blind_renderRootPage (parents : list Block) :
  blind (renderRootPage E RenderChildren parents block).
Proof.
  pose proof (blind_renderHeader parents block) as Hheader.
  intros p c. unfold renderRootPage.
  change (FullHTML (katexOff p c)) with (FullHTML c).
  blind_run.
Qed.

Lemma blind_RenderPage (parents : list Block) :
  blind (RenderPage E RenderChildren parents block).
Proof.
  intros p c. unfold RenderPage.
  change (Page_ (katexOff p c)) with (Page_ c).
  destruct (IsRoot (Page_ c) block); [apply blind_renderRootPage|].
  destruct (IsSubPage (Page_ c) block); apply blind_renderLinkToPage.
Qed.

Lemma blind_RenderText : blind (RenderText E RenderChildren block).
Proof. unfold RenderText. blind_tac. Qed.

Lemma blind_RenderNumberedList :
  blind (RenderNumberedList E RenderChildren block).
Proof.
  intros p c. unfold RenderNumberedList.
  change (IsPrevBlockOfType (katexOff p c) BlockNumberedList)
    with (IsPrevBlockOfType c BlockNumberedList).
  destruct (IsPrevBlockOfType c BlockNumberedList) as [isPrevSame|];
    [|reflexivity].
  cbv zeta. change (ListNo (katexOff p c)) with (ListNo c).
  destruct isPrevSame.
  - change (setListNo (katexOff p c) (wrapInt (ListNo c + 1)))
      with (katexOff p (setListNo c (wrapInt (ListNo c + 1)))).
    cbn [ListNo setListNo katexOff setKatexPath
         setUseKatexToRenderEquation].
    blind_run.
  - change (setListNo (katexOff p c) 1) with (katexOff p (setListNo c 1)).
    cbn [ListNo setListNo katexOff setKatexPath
         setUseKatexToRenderEquation].
    blind_run.
Qed.

Lemma blind_RenderBulletedList :
  blind (RenderBulletedList E RenderChildren block).
Proof. unfold RenderBulletedList. blind_tac. Qed.

Lemma blind_RenderTodo : blind (RenderTodo E RenderChildren block).
Proof. unfold RenderTodo. blind_tac. Qed.

Lemma blind_RenderToggle : blind (RenderToggle E RenderChildren block).
Proof. unfold RenderToggle. blind_tac. Qed.

Lemma blind_RenderQuote : blind (RenderQuote E RenderChildren block).
Proof. unfold RenderQuote. blind_tac. Qed.

Lemma blind_RenderColumnList :
  blind (RenderColumnList E RenderChildren block).
Proof. unfold RenderColumnList. blind_tac. Qed.

Lemma blind_RenderColumn : blind (RenderColumn RenderChildren block).
Proof. unfold RenderColumn. blind_tac. Qed.

(** Whatever renderer [DefaultRenderFunc] finds is blind. *)
Lemma blind_DefaultRenderFunc (parents : list Block) (def : Cmd) :
  DefaultRenderFunc E RenderChildren parents (Type_ block) block
  = Some (Some def) ->
  blind def.
Proof.
  unfold DefaultRenderFunc.
  repeat match goal with
         | |- (if ?b then _ else _) = _ -> _ =>
           destruct b eqn:?;
             [ let H := fresh in
               intro H; injection H as <- | ]
         end;
    try (repeat match goal with
                | |- (if ?b then _ else _) = _ -> _ => destruct b
                end; discriminate);
    first
      [ apply blind_RenderPage
      | apply blind_RenderText
      | apply blind_RenderEquation
      | apply blind_RenderNumberedList
      | apply blind_RenderBulletedList
      | apply blind_RenderHeaderLevel
      | apply blind_RenderTodo
      | apply blind_RenderToggle
      | apply blind_RenderQuote
      | apply blind_RenderDivider
      | apply blind_RenderCode
      | apply blind_RenderBookmark
      | apply blind_RenderImage
      | apply blind_RenderColumnList
      | apply blind_RenderColumn
      | apply blind_RenderCollectionView
      | apply blind_RenderCollectionViewPage
      | apply blind_RenderEmbed
      | apply blind_renderEmbed
      | apply blind_renderAudioVideo
      | apply blind_renderFilePDF
      | apply blind_RenderDrive
      | apply blind_RenderFigma
      | apply blind_RenderCallout
      | apply blind_RenderTableOfContents
      | apply blind_RenderBreadcrumb ].
Qed.

Lemma blind_RenderBlock_body (parents : list Block) :
  blind (RenderBlock_body E RenderChildren parents block).
Proof.
  intros p c. unfold RenderBlock_body. cbv zeta. rewrite no_hook.
  destruct (DefaultRenderFunc E RenderChildren parents (Type_ block) block)
    as [[def|]|] eqn:Hd; [|reflexivity|reflexivity].
  now apply (blind_DefaultRenderFunc parents def).
Qed.

End WithChildren.

(** *** Down the tree *)

Lemma blind_RenderChildren_loop (renderBlock : Block -> Cmd)
      (children : list Block) :
  Forall (fun child => blind (renderBlock child)) children ->
  forall i, blind (RenderChildren_loop renderBlock children i).
Proof.
  induction 1 as [|child rest Hchild _ IH]; intro i;
    cbn [RenderChildren_loop]; [apply blind_skip|].
  apply blind_andThen; [|apply IH].
  intros p c.
  change (setCurrBlockIdx (katexOff p c) i)
    with (katexOff p (setCurrBlockIdx c i)).
  apply Hchild.
Qed.

Lemma blind_RenderChildren_with
      (renderBlock : list Block -> Block -> Cmd)
      (parents : list Block) (block : Block) :
  Forall (fun child => blind (renderBlock (block :: parents) child))
         (Content block) ->
  blind (RenderChildren_with renderBlock parents block).
Proof.
  intro Hall. unfold RenderChildren_with.
  destruct (Content block) as [|child rest] eqn:Hcontent;
    [apply blind_skip|].
  cbv zeta. repeat apply blind_andThen; blind_tac.
  intros p c.
  change (setCurrBlocks (katexOff p c) (child :: rest))
    with (katexOff p (setCurrBlocks c (child :: rest))).
  rewrite (blind_RenderChildren_loop _ _ Hall 0 p
                                     (setCurrBlocks c (child :: rest))).
  now destruct (RenderChildren_loop _ _ _ _) as [c1|].
Qed.

(** Every tree of blocks is rendered the same with typesetting on and
    off. *)
Lemma blind_RenderBlock :
  forall block parents, blind (RenderBlock E parents block).
Proof.
  induction block as [block IH] using Block_tree_ind.
  intro parents. rewrite RenderBlock_unfold.
  apply blind_RenderBlock_body. apply blind_RenderChildren_with.
  revert IH. generalize (Content block).
  induction 1 as [|child rest Hchild _ IHrest]; constructor.
  - apply Hchild.
  - exact IHrest.
Qed.

Lemma PopBuffer_katexOff (p : string) (c : Converter) :
  PopBuffer (katexOff p c)
  = option_map (fun r => (fst r, katexOff p (snd r))) (PopBuffer c).
Proof.
  unfold PopBuffer. change (bufs (katexOff p c)) with (bufs c).
  now destruct (rev (bufs c)).
Qed.

Lemma detectKatex_found (c : Converter) :
  fst (detectKatex E c) = None ->
  exists c1,
    detectKatex E c = (None, c1)
    /\ Page_ c1 = Page_ c
    /\ katexOff (KatexPath c) c1 = setUseKatexToRenderEquation c false
    /\ UseKatexToRenderEquation c1 = UseKatexToRenderEquation c
    /\ CurrBlockIdx c1 = CurrBlockIdx c /\ CurrBlocks c1 = CurrBlocks c.
Proof.
  unfold detectKatex. cbv zeta.
  destruct (if KatexPath c =? "" then false else os_Stat E (KatexPath c)).
  - intros _. now exists c.
  - destruct (exec_LookPath E "katex") as [path|].
    + intros _. now exists (setKatexPath c path).
    + destruct (KatexPath c =? ""); discriminate.
Qed.

(** A conversion with typesetting, with a katex that is found and fails,
    returns what the conversion without typesetting returns. *)
Lemma ToHTML_blind (c : Converter) :
  NotionCompat c = false ->
  UseKatexToRenderEquation c = true ->
  fst (detectKatex E c) = None ->
  fst (ToHTML E c) = fst (ToHTML E (setUseKatexToRenderEquation c false)).
Proof.
  intros Hcompat Hk Hdetect.
  destruct (detectKatex_found c Hdetect) as (c1 & Hd & Hpage & Hoff & _).
  unfold ToHTML. cbv zeta.
  cbn [NotionCompat UseKatexToRenderEquation setUseKatexToRenderEquation].
  rewrite Hcompat, Hk, Hd. rewrite <- Hoff.
  change (UseKatexToRenderEquation (katexOff (KatexPath c) c1)) with false.
  cbv iota.
  change (Page_ (katexOff (KatexPath c) c1)) with (Page_ c1).
  rewrite (blind_andThen _ _ blind_PushNewBuffer
                         (blind_RenderBlock (Root (Page_ c1)) [])
                         (KatexPath c) c1).
  destruct ((PushNewBuffer ;; RenderBlock E [] (Root (Page_ c1))) c1)
    as [c2|]; [|reflexivity].
  cbn [option_map]. rewrite PopBuffer_katexOff.
  now destruct (PopBuffer c2) as [[[html|] c3]|].
Qed.

(** With failures that are only logged, such a conversion of a tree that
    [calm] holds of returns its HTML. *)
Lemma ToHTML_failing_returns (c : Converter) :
  PanicOnFailures E = false ->
  calm (Root (Page_ c)) = true ->
  UseKatexToRenderEquation c = true ->
  fst (detectKatex E c) = None ->
  (CurrBlockIdx c <= length (CurrBlocks c))%nat ->
  exists html, fst (ToHTML E c) = Ok html.
Proof.
  intros only_logs Hcalm Hk Hdetect Hidx.
  destruct (detectKatex_found c Hdetect)
    as (c1 & Hd & Hpage & _ & Hk1 & Hi1 & Hb1).
  unfold ToHTML. cbv zeta.
  replace (if NotionCompat c then setUseKatexToRenderEquation c true else c)
    with c
    by (destruct (NotionCompat c);
        [now rewrite setUseKatexToRenderEquation_same | reflexivity]).
  rewrite Hk, Hd.
  pose proof (ConversionFacts.ToHTML_run
                E c1 (SiblingFacts.hookKeeps_None E _ no_hook)) as Hrun.
  pose proof (blind_andThen _ _ blind_PushNewBuffer
                            (blind_RenderBlock (Root (Page_ c1)) [])
                            "" c1) as Hblind.
  rewrite (andThen_Some PushNewBuffer _ (katexOff "" c1) _ eq_refl)
    in Hblind.
  destruct (SteadyFacts.steady_RenderBlock
              E no_hook only_logs (Root (Page_ c1))
              (eq_ind_r (fun pg => calm (Root pg) = true) Hcalm Hpage) []
              (setBuf (setBufs (katexOff "" c1)
                               (bufs (katexOff "" c1)
                                     ++ [Buf (katexOff "" c1)])%list)
                      (Some "")))
    as (c' & Hc' & _).
  { repeat split; [discriminate|].
    cbn [CurrBlockIdx CurrBlocks setBuf setBufs katexOff setKatexPath
         setUseKatexToRenderEquation].
    now rewrite Hi1, Hb1. }
  rewrite Hc' in Hblind.
  destruct ((PushNewBuffer ;; RenderBlock E [] (Root (Page_ c1))) c1)
    as [c2|]; [|discriminate].
  destruct Hrun as (html & c3 & _ & Hpop & _).
  exists html. now rewrite Hpop.
Qed.

End Blind.

Section Facts.

Variable E : Env.

Lemma inlinesHTML_plain (c : Converter) (spans : list TextSpan) :
  forallb isPlainSpan spans = true ->
  inlinesHTML E c spans = EscapeHTML (concat (map Text spans)).
Proof.
  intro H. unfold inlinesHTML.
  induction spans as [|b rest IH]; [reflexivity|].
  cbn [forallb] in H. apply andb_true_iff in H. destruct H as [Hb Hrest].
  cbn [map concat].
  rewrite (SpanFacts.RenderInline_html_plain E c b Hb), (IH Hrest).
  now rewrite !EscapeFacts.EscapeHTML_mapBytes, EscapeFacts.mapBytes_app.
Qed.

Lemma RenderBlock_equation
      (parents : list Block) (block : Block) (c : Converter) :
  Type_ block = BlockEquation -> RenderBlockOverride E = None ->
  RenderBlock E parents block c = RenderEquation E block c.
Proof.
  intros Hty Hhook. rewrite RenderBlock_unfold. unfold RenderBlock_body.
  now rewrite Hhook, Hty.
Qed.

Lemma ToHTML_error_from_detectKatex (c : Converter) (msg : string) :
  UseKatexToRenderEquation c = true ->
  fst (ToHTML E c) = Err msg -> fst (detectKatex E c) = Some msg.
Proof.
  intro Hk. unfold ToHTML. cbv zeta.
  replace (if NotionCompat c then setUseKatexToRenderEquation c true else c)
    with c
    by (destruct (NotionCompat c);
        [now rewrite setUseKatexToRenderEquation_same | reflexivity]).
  rewrite Hk. destruct (detectKatex E c) as [[msg'|] c1].
  - cbn [fst]. now intros [= ->].
  - destruct ((PushNewBuffer ;; RenderBlock E [] (Root (Page_ c1))) c1)
      as [c2|]; [|discriminate].
    destruct (PopBuffer c2) as [[[html|] c3]|]; discriminate.
Qed.

(** C7.  Typesetting is on and the katex run on the block fails.  The
    renderer then leaves the buffer it leaves with typesetting off; it
    returns, having written the figure around the block's inline content
    as [RenderInlines] writes it, which for spans without attributes is
    the escaped text of the spans and nothing else.  This is how
    [RenderBlock] renders an equation block wherever it stands in the
    tree.  A conversion whose root is the block returns that figure.  For
    every page, an error of [ToHTML] is the error of the check for the
    katex binary, made before anything is rendered: with a binary found
    [ToHTML] returns no error.  And with a katex that fails on every
    equation, and no override hook, every tree of blocks is rendered as
    it is with typesetting off, the conversion returns what the
    conversion with typesetting off returns, and it returns HTML when
    failures are only logged and the tree holds no collection view and no
    page with a cover but without format. *)
Theorem RenderEquation_katex_failure_falls_back
        (block : Block) (c : Converter) (msg : string) :
  UseKatexToRenderEquation c = true ->
  equationToHTML E (KatexPath c) (TextSpansToString E (InlineContent block))
  = Err msg ->
  bufAfter (RenderEquation E block c)
  = bufAfter (RenderEquation E block (setUseKatexToRenderEquation c false))
  /\ (forall b0,
        Buf c = Some b0 ->
        RenderEquation E block c
        = Some (setBuf c (Some (b0 ++ equationFigure E c block)))
        /\ (forallb isPlainSpan (InlineContent block) = true ->
            RenderEquation E block c
            = Some (setBuf c (Some (b0 ++ plainFigure block)))))
  /\ (Type_ block = BlockEquation ->
      RenderBlockOverride E = None ->
      forall parents,
        RenderBlock E parents block c = RenderEquation E block c)
  /\ (Root (Page_ c) = block ->
      Type_ block = BlockEquation ->
      RenderBlockOverride E = None ->
      fst (detectKatex E c) = None ->
      (forall path,
          exec_LookPath E "katex" = Some path ->
          exists msg',
            equationToHTML E path
                           (TextSpansToString E (InlineContent block))
            = Err msg') ->
      fst (ToHTML E c) = Ok (equationFigure E c block))
  /\ (forall msg0,
        fst (ToHTML E c) = Err msg0 -> fst (detectKatex E c) = Some msg0)
  /\ (RenderBlockOverride E = None ->
      (forall path s, exists msg', katex E path s = Err msg') ->
      (forall parents b p c0,
          RenderBlock E parents b (katexOff p c0)
          = option_map (katexOff p) (RenderBlock E parents b c0))
      /\ (fst (detectKatex E c) = None ->
          (NotionCompat c = false ->
           fst (ToHTML E c)
           = fst (ToHTML E (setUseKatexToRenderEquation c false)))
          /\ (PanicOnFailures E = false ->
              calm (Root (Page_ c)) = true ->
              (CurrBlockIdx c <= length (CurrBlocks c))%nat ->
              exists html, fst (ToHTML E c) = Ok html))).
Proof.
  intros Hk Herr.
  assert (Hsome : forall b0,
             Buf c = Some b0 ->
             RenderEquation E block c
             = Some (setBuf c (Some (b0 ++ equationFigure E c block)))).
  { intros b0 Hb. rewrite (as_setBuf c b0 Hb) at 1.
    now apply (RenderEquation_failed E block c b0 msg). }
  split; [|split; [|split; [|split; [|split]]]].
  - destruct (Buf c) as [b0|] eqn:Hb.
    + rewrite (Hsome b0 eq_refl).
      assert (Hplain :
                RenderEquation E block (setUseKatexToRenderEquation c false)
                = Some (setBuf (setUseKatexToRenderEquation c false)
                               (Some (b0 ++ equationFigure E c block)))).
      { rewrite (as_setBuf (setUseKatexToRenderEquation c false) b0 Hb)
          at 1.
        now rewrite RenderEquation_plain. }
      now rewrite Hplain.
    + unfold RenderEquation.
      cbn [UseKatexToRenderEquation KatexPath setUseKatexToRenderEquation].
      rewrite Hk. cbn [negb]. cbv zeta. rewrite Herr.
      unfold andThen. now rewrite !Printf_nil_Buf.
  - intros b0 Hb. split; [now apply Hsome|].
    intro Hspans. rewrite (Hsome b0 Hb). unfold equationFigure, plainFigure.
    now rewrite (inlinesHTML_plain c (InlineContent block) Hspans).
  - intros Hty Hhook parents. now apply RenderBlock_equation.
  - intros Hroot Hty Hhook Hdetect Hfound.
    assert (Hd : forall c0,
               KatexPath c0 = KatexPath c ->
               UseKatexToRenderEquation c0 = true ->
               Page_ c0 = Page_ c -> RewriteURL c0 = RewriteURL c ->
               exists c1,
                 detectKatex E c0 = (None, c1)
                 /\ UseKatexToRenderEquation c1 = true
                 /\ Page_ c1 = Page_ c /\ RewriteURL c1 = RewriteURL c
                 /\ exists msg',
                      equationToHTML
                        E (KatexPath c1)
                        (TextSpansToString E (InlineContent block))
                      = Err msg').
    { intros c0 Hp Hu Hpg Hrw. revert Hdetect. unfold detectKatex.
      rewrite Hp.
      destruct (if KatexPath c =? "" then false
                else os_Stat E (KatexPath c)).
      - intros _. exists c0. split; [reflexivity|].
        split; [exact Hu|]. split; [exact Hpg|]. split; [exact Hrw|].
        exists msg. now rewrite Hp.
      - destruct (exec_LookPath E "katex") as [path|] eqn:Hlook.
        + intros _. exists (setKatexPath c0 path). split; [reflexivity|].
          split; [exact Hu|]. split; [exact Hpg|]. split; [exact Hrw|].
          exact (Hfound path eq_refl).
        + destruct (KatexPath c =? ""); discriminate. }
    unfold ToHTML. cbv zeta.
    set (c0 := if NotionCompat c
               then setUseKatexToRenderEquation c true else c).
    assert (H0 : KatexPath c0 = KatexPath c
                 /\ UseKatexToRenderEquation c0 = true
                 /\ Page_ c0 = Page_ c /\ RewriteURL c0 = RewriteURL c).
    { subst c0. destruct (NotionCompat c); auto. }
    clearbody c0. destruct H0 as (Hp0 & Hk0 & Hpg0 & Hrw0).
    rewrite Hk0.
    destruct (Hd c0 Hp0 Hk0 Hpg0 Hrw0)
      as (c1 & -> & Hk1 & Hpg & Hrw & msg' & Herr1).
    rewrite Hpg, Hroot.
    rewrite (andThen_Some PushNewBuffer _ c1 _ eq_refl).
    rewrite RenderBlock_unfold. unfold RenderBlock_body.
    rewrite Hhook, Hty. cbn [DefaultRenderFunc].
    unfold DefaultRenderFunc.
    cbn [String.eqb Ascii.eqb Bool.eqb BlockPage BlockText BlockEquation].
    rewrite (RenderEquation_failed
               E block (setBufs c1 (bufs c1 ++ [Buf c1])%list) "" msg'
               Hk1 Herr1).
    unfold PopBuffer. cbn [bufs setBuf setBufs Buf].
    rewrite rev_unit. cbn ["++"%string fst].
    unfold equationFigure.
    now rewrite (inlinesHTML_ext
                   E _ c (setBufs c1 (bufs c1 ++ [Buf c1])%list) Hpg Hrw).
  - intros msg0. now apply ToHTML_error_from_detectKatex.
  - intros Hhook Hfails. split.
    + intros parents b p c0.
      exact (blind_RenderBlock E Hhook Hfails b parents p c0).
    + intro Hdetect. split.
      * intro Hcompat. now apply ToHTML_blind.
      * intros Hlogs Hcalm Hidx. now apply ToHTML_failing_returns.
Qed.

End Facts.

Lemma RenderEquation_katex_failure_falls_back_witness :
  UseKatexToRenderEquation Examples.nestedEquationConverter = true
  /\ equationToHTML Examples.envKatexFails
                    (KatexPath Examples.nestedEquationConverter)
                    (TextSpansToString Examples.envKatexFails
                                       (InlineContent Examples.equationBlock))
     = Err "exit status 1"
  /\ RenderEquation Examples.envKatexFails Examples.equationBlock
                    (setBuf Examples.nestedEquationConverter (Some "<p>"))
     = Some (setBuf Examples.nestedEquationConverter
                    (Some ("<p><figure id=" ++ q "eq" ++ " class="
                           ++ q "equation" ++ ">x&lt;y</figure>")))
  /\ fst (ToHTML Examples.envKatexFails Examples.nestedEquationConverter)
     = Ok ("<article id=" ++ q "p" ++ " class=" ++ q "page sans"
           ++ "><header><h1 class=" ++ q "page-title"
           ++ "></h1></header><div class=" ++ q "page-body"
           ++ "><p id=" ++ q "t" ++ " class=" ++ q "" ++ ">so</p>"
           ++ "<figure id=" ++ q "eq" ++ " class=" ++ q "equation"
           ++ ">x&lt;y</figure></div></article>").
Proof.
  split; [reflexivity|]. split; [reflexivity|]. split.
  - exact (proj2 (proj1 (proj2 (RenderEquation_katex_failure_falls_back
                                  Examples.envKatexFails
                                  Examples.equationBlock
                                  (setBuf Examples.nestedEquationConverter
                                          (Some "<p>"))
                                  "exit status 1" eq_refl eq_refl))
                        "<p>" eq_refl)
                 eq_refl).
  - destruct (proj2 (proj2 (proj2 (proj2 (proj2
                (RenderEquation_katex_failure_falls_back
                   Examples.envKatexFails Examples.equationBlock
                   Examples.nestedEquationConverter
                   "exit status 1" eq_refl eq_refl)))))
                eq_refl
                (fun _ _ => ex_intro _ "exit status 1" eq_refl))
      as [_ Hconv].
    destruct (Hconv eq_refl) as [Hoff Hreturns].
    exact (eq_trans (Hoff eq_refl) eq_refl).
Defined.

End EquationFacts.
